(* ===== verification/_CoqProject ===== *)
-Q . S2P
Prelude.v
Cashu.v
Ledger.v
Reducer.v
Sync.v
Publish.v
Ops.v
Cli.v
Session.v
Handlers.v
Serve.v
