(* ===== verification/Prelude.v ===== *)
(** * A verification development for nak's wallet commands and [nak serve]

    The repository is [nak], a command-line Nostr client.  Its sources
    are two Go files:
    - [src/wallet.go]: the [nak wallet] command tree.  [prepareWallet]
      (lines 16-82) gathers the key, loads a NIP-60 wallet from the
      owner's outbox relays ([nip60.LoadWallet]), installs the
      [Processed] and [PublishUpdate] callbacks and blocks on the
      wallet's [Stable] barrier (line 77).  The sub-commands [mints],
      [mints add], [mints remove], [tokens], [receive], [send], [pay],
      [nutzap] and [nutzap setup] read the wallet, call one wallet
      operation, print its result and the per-relay outcome of each
      event published, and close the wallet.
    - [src/serve.go]: [nak serve], a local test relay over an event
      store (an in-memory slice store, or a MySQL/etcd backend when both
      URLs are given) first filled from a JSON-lines file or stdin.

    The wallet engine the commands call (the NIP-60 library: ledger,
    log replay, relay subscriptions and the [Stable] barrier, proof
    selection for send and pay) lives outside [src/]: it is modelled
    from the specification ([spec.md]) and its definitions are marked
    [spec_modelled] in the manifest.  The code of [src/] is modelled
    from the source; each definition's doc comment names its lines.

    ** Files, in dependency order, and what they model

    - [Prelude] (this file): the error type (the specification's
      taxonomy plus Go's [fmt.Errorf] messages), [result] with its bind
      notation in [nak_scope], the uint64 bound, sums over lists, the
      [invc] tactic and the hint databases [nak] and [nak_rw].
    - [Cashu] (Module [Cashu]): proofs and tokens, amounts, the
      content-addressed token identifier, the token-string codec as the
      class [TokenCodec] whose law is the round trip.
    - [Ledger] (Module [Ledger]): the wallet record (mint list, live
      tokens as a [gmap], private key), [AddMint], [RemoveMint],
      [Balance], key registration.
    - [Reducer] (Module [Reducer]): the event-log reducer: a [seen] set
      (the per-event [unseen -> applied] machine), tombstones for
      deletions that arrive before the receive, last-writer-wins mint
      list, first-writer-wins private key.  Idempotence, commutation of
      compatible events, order independence of a replay, the reachable
      states' invariant [rs_inv], and the preservation of well-formed
      tokens ([tokens_wf]: every proof of a token is of its mint) by a
      replay of well-formed events.
    - [Sync] (Module [Sync]): [nip60.LoadWallet]'s subscriptions and the
      [Stable] barrier.  [SyncState] holds one [Sub] per relay (its
      stored log, what it delivered, its backlog, its status:
      streaming, EOSE received, timed out), the reducer, the delivered
      and the processed events, and the barrier's flag and count.  The
      network's moves ([Deliver], [Eose], [Timeout]) are [exec]; [step]
      is a move followed by the barrier's check [fire]; [wait_stable]
      is the run a session observes at [<-w.Stable]: the schedule of
      moves [Env.load_wallet] gives until [Stable] fires, then the
      timeout of every relay still streaming (the bounded wait).
      Invariants by induction on runs ([sync_inv], [proc_inv]); a
      measure (backlog lengths + 2 per streaming relay + 1 before
      [Stable]) that every step lowers, hence [step_acc] and a bound on
      the length of every run; refinement of the replay of a per-relay
      prefix interleaving.
    - [Publish] (Module [Publish]): the [PublishUpdate] and [Processed]
      callbacks (src/wallet.go 33-75): the description of an update, the
      report loop over [PublishMany]'s results with its [first] flag;
      the relay pool is the class [RelayPool].
    - [Ops] (Module [Ops]): [Send], [PayBolt11], [Receive] and the spend
      of [nip61.SendNutzap] (restricted to the mints the recipient
      accepts) over the mint class [MintService]: proof selection from
      one mint, the events a spend emits, conservation of the balance,
      all-or-nothing pay.
    - [Cli] (Module [Cli]): the [cli] writer/error monad of the
      handlers, the parsed command line [Cmd] (urfave/cli's zero values
      for unset or undeclared flags), the collaborator class [Env],
      [strconv.ParseUint] and Go's digit loop it is checked against,
      the mint-URL rewriting, the command tree with
      its help text and declared flags.
    - [Session] (Module [Session]): [prepareWallet] composed of key
      gathering, relay discovery, [wait_stable] on the outbox relays
      ([relay_logs]) and the [Processed] lines of the events processed
      after line 33 installs the callback ([unreported] are the others);
      [publish]/[publish_all] for the events an operation emits.
    - [Handlers] (Module [Handlers]): every [Action] of the wallet tree
      (lines 84-477), each a [cli] computation that calls
      [prepare_wallet], one engine operation, [publish_all], and
      [closew].
    - [Serve] (Module [Serve]): src/serve.go: flags, backend choice and
      [db.Init], the JSON-lines loading loop with its line counter and
      the scanner's token limit, the relay wiring, the reject hooks,
      [printStatus]'s event count, the requests a client sends served
      over time with the status line debounced by two seconds
      ([serve_requests]), and the start protocol: the main goroutine
      and the relay's goroutine with the channels [started] and
      [exited], as the step relation [thread_step] and the scheduler
      [run_threads]; the store
      contract is the class [EventStore], the slice store its instance.

    ** What the theorems show (claims C1-C39 of the manifest)

    - The wallet a command sees: C1 (the replay of all the relays' logs
      whatever the interleaving and duplication, once every relay sent
      EOSE), C3 (the [Processed] lines: none for the events applied
      before line 33 installs the callback, one for each later one, no
      identifier twice), C4 (deleted tokens stay dead), C5 (the reducer
      invariant), C38 (the typing invariant: its live tokens are
      well-formed when the relays' are), C26 (the key depends on
      delivery order: a finding).
    - The sync engine: C12 (refinement: the replay of the delivered
      events, a permutation of the concatenation of one prefix of each
      relay's log, dedup), C13 ([Stable] fires exactly once and no
      relay still streams), C14 (termination, with a bound on every
      run).
    - The commands: conservation of send and pay (C2, C7), the round
      trip send/receive through the printed token string (C6), the
      error paths (C8, C9, C18, C20, and C39: [mints] panics at the
      first mint URL without a scheme after printing the hosts before
      it), mint-list updates (C10, C11), the success path of send
      (C19), the nutzap and setup findings (C21-C24, and C37: a nutzap
      never moves funds), the mint-URL rewriting (C25), the publication
      report (C15).
    - [strconv.ParseUint]: C16 (equivalence with Go's digit loop, its
      cutoff and its wrap-around check on a 64-bit accumulator), C17
      (round trip with [%d] on the uint64 range).
    - [nak serve]: the loading loop's errors and silent stop (C27-C29),
      the backend choice (C30), the status count over the store line
      58 opens (C31), the start protocol of two goroutines: deadlock on
      a listen failure (C32) and, when the listener opens, every
      interleaving ends returning [rl.Start]'s error after one log line
      (C33); the port's wrap-around (C34); the debounced status: one
      line per burst of requests (C35), and always one after the last
      request (C36).

    ** Bounds and fuel

    Every loop is structural recursion on a list (events, relays, lines,
    publish results, digits).  [wait_stable] is total because the
    bounded wait times out every relay still streaming; C14 bounds
    every run of the engine by the number of stored events plus two per
    relay plus one.  The scheduler of the start protocol,
    [run_threads], takes four moves: C33 shows no run of the two
    goroutines is longer, so the fuel is enough.  Integers keep their
    width where the code has one: amounts are [N] below [2^64], Go's
    [ParseUint] loop wraps its accumulator modulo [2^64], the port is
    converted to a 64-bit [int] with its wrap-around, the scanner's
    token limit is [N] and a line of that many bytes or more stops the
    scan.

    ** Not modelled

    Cryptography (signing, NIP-44 encryption: the signer is
    [Env.event_id_of]); the websocket transport and the relay pool's
    wire protocol; the MySQL/etcd backend's SQL (only its choice and
    [Init] error are modelled); the HTTP server of khatru and the
    subscriptions it holds (their number is a function of time);
    [rl.Start] is modelled by its contract (it returns the listener's
    error, or closes [started] and returns when the server stops); the
    relay pool's [QuerySingle]; terminal colours (the colour functions
    are parameters).  Time is a number of milliseconds attached to each
    request; the debouncer is modelled by its contract.  The race at
    line 33 is modelled by [Env.processed_delay], the number of network
    actions before the callback is installed.  The engine's live
    updates after [Stable] (events published while a command runs) are
    not modelled: a command works on the wallet as it was at [Stable].
 *)

From stdpp Require Export base gmap sets list strings fin_maps.
From Stdlib Require Export NArith DecimalString DecimalN.

Declare Scope nak_scope.
Delimit Scope nak_scope with nak.
Open Scope N_scope.

(** ** Errors

    The specification's error taxonomy, [Errorf] for the messages the
    command handlers build with Go's [fmt.Errorf], and [Panic] for a Go
    runtime panic (an index or slice out of range). *)
Inductive error :=
| InvalidToken
| InsufficientFunds
| UntrustedMint
| KeyAlreadySet
| MissingPrivateKey
| MintUnavailable
| RelayUnavailable
| MalformedLogEvent
| Errorf (msg : string)
| Panic (msg : string).

#[export] Instance error_eq_dec : EqDecision error.
Proof. solve_decision. Defined.

(** Go's [(T, error)] return convention. *)
Inductive result (A : Type) : Type :=
| Ok (a : A)
| Err (e : error).
Arguments Ok {A} a.
Arguments Err {A} e.

Definition result_bind {A B} (r : result A) (k : A -> result B) : result B :=
  match r with
  | Ok a => k a
  | Err e => Err e
  end.

Notation "x <-? c ;; k" := (result_bind c (fun x => k))
  (at level 100, c at next level, right associativity) : nak_scope.

Definition is_ok {A} (r : result A) : bool :=
  match r with Ok _ => true | Err _ => false end.

(** ** Machine integers

    Amounts are Go [uint64]: the values of [N] below [2^64]. *)
Definition u64_modulus : N := 2 ^ 64.
Definition is_u64 (n : N) : Prop := n < u64_modulus.

(** ** Go's string helpers *)

(** The newline character of Go's ["\n"]. *)
Definition nl : string := String (Ascii.ascii_of_nat 10) EmptyString.

(** What a command writes: [stdout(...)] to standard output, [log(...)]
    to standard error, [logverbose(...)] to standard error in verbose
    mode; [CloseWallet] records the call of [w.Close()]. *)
Inductive out :=
| Stdout (s : string)
| Log (s : string)
| LogVerbose (s : string)
| CloseWallet.

#[export] Instance out_eq_dec : EqDecision out.
Proof. solve_decision. Defined.

(** What a command prints on standard output, line by line. *)
Definition stdout_text (os : list out) : list string :=
  omap (fun o => match o with Stdout t => Some t | _ => None end) os.

(** A line written to standard error, verbose or not. *)
Definition is_log (o : out) : Prop :=
  match o with Log _ | LogVerbose _ => True | _ => False end.

Lemma logs_no_stdout os t : Forall is_log os -> Stdout t ∉ os.
Proof. rewrite Forall_forall. intros H Hin. exact (H _ Hin). Qed.

Lemma logs_no_close os : Forall is_log os -> CloseWallet ∉ os.
Proof. rewrite Forall_forall. intros H Hin. exact (H _ Hin). Qed.

Lemma str_app_assoc (a b c : string) : a +:+ (b +:+ c) = (a +:+ b) +:+ c.
Proof.
  induction a as [|x a IH]; [done|].
  change (String x (a +:+ (b +:+ c)) = String x ((a +:+ b) +:+ c)). by rewrite IH.
Qed.

Lemma str_app_nil_r (a : string) : a +:+ "" = a.
Proof.
  induction a as [|x a IH]; [done|]. change (String x (a +:+ "") = String x a). by rewrite IH.
Qed.

(** [fmt]'s [%d] on an unsigned integer. *)
Definition fmt_d (n : N) : string := NilEmpty.string_of_uint (N.to_uint n).

(** [strings.CutPrefix(s, prefix)]: [(s[len(prefix):], true)] when [s]
    starts with [prefix], [(s, false)] otherwise. *)
Fixpoint cut_prefix (s p : string) {struct p} : string * bool :=
  match p, s with
  | EmptyString, _ => (s, true)
  | String a p', String b s' =>
      if Ascii.eqb a b then
        match cut_prefix s' p' with
        | (r, true) => (r, true)
        | (_, false) => (s, false)
        end
      else (s, false)
  | String _ _, EmptyString => (s, false)
  end.

Lemma cut_prefix_app p s : cut_prefix (String.append p s) p = (s, true).
Proof.
  induction p as [|a p IH]; simpl; [done|]. by rewrite Ascii.eqb_refl, IH.
Qed.

Lemma cut_prefix_false s p r : cut_prefix s p = (r, false) -> r = s.
Proof.
  revert s. induction p as [|a p IH]; intros [|b s] H; simpl in H;
    try (by inversion H).
  destruct (Ascii.eqb a b); [|by inversion H].
  destruct (cut_prefix s p) as [r' []]; by inversion H.
Qed.

(** ** Sums over lists *)
Definition sumN {A} (f : A -> N) (l : list A) : N :=
  foldr (fun x acc => f x + acc) 0 l.

Ltac invc H := inversion H; subst; clear H.

(** Discharge a decidable side condition on closed data by evaluation. *)
Ltac decide_closed := apply (bool_decide_unpack _); vm_compute; reflexivity.

Create HintDb nak.
Create Rewrite HintDb nak_rw.

Section sumN.
Context {A : Type} (f : A -> N).

Lemma sumN_nil : sumN f [] = 0.
Proof. reflexivity. Qed.

Lemma sumN_cons x l : sumN f (x :: l) = f x + sumN f l.
Proof. reflexivity. Qed.

Lemma sumN_app l1 l2 : sumN f (l1 ++ l2) = sumN f l1 + sumN f l2.
Proof. induction l1 as [|x l1 IH]; simpl; [done | rewrite IH; lia]. Qed.

#[export] Instance sumN_perm : Proper ((≡ₚ) ==> (=)) (sumN f).
Proof. intros l1 l2 Hp. induction Hp; simpl; lia. Qed.

Lemma sumN_le_app_l l1 l2 : sumN f l1 <= sumN f (l1 ++ l2).
Proof. rewrite sumN_app. lia. Qed.
End sumN.

(** A sum that overflows a [w]-bit word once wraps to the sum minus
    the modulus. *)
Lemma N_mod_wrap x m : m <= x < 2 * m -> x mod m = x - m.
Proof. intros Hx. symmetry. apply (N.mod_unique _ _ 1); lia. Qed.

(** ** The lexicographic order on strings

    [String.compare] is a strict total order; the Standard Library has
    its antisymmetry, the transitivity is proved here. *)
Lemma string_compare_refl s : String.compare s s = Eq.
Proof.
  induction s as [|c s IH]; simpl; [done|].
  unfold Ascii.compare. by rewrite N.compare_refl.
Qed.

Lemma string_compare_lt_trans a b c :
  String.compare a b = Lt -> String.compare b c = Lt -> String.compare a c = Lt.
Proof.
  revert b c. induction a as [|x a IH]; intros [|y b] [|z c]; simpl;
    try discriminate; auto.
  unfold Ascii.compare.
  destruct (N.compare_spec (Ascii.N_of_ascii x) (Ascii.N_of_ascii y));
  destruct (N.compare_spec (Ascii.N_of_ascii y) (Ascii.N_of_ascii z));
  destruct (N.compare_spec (Ascii.N_of_ascii x) (Ascii.N_of_ascii z));
  intros; try discriminate; try lia; eauto.
Qed.

#[export] Hint Rewrite @sumN_nil @sumN_cons @sumN_app : nak_rw.
