(* ===== verification/Cashu.v ===== *)
(** * Proofs and tokens

    The value types of the wallet (specification, section 3 and 4.1):
    a [Proof] is one bearer unit issued by a mint; a [Token] groups
    proofs of one mint.  [proofs_amount] is the [Proofs.Amount()] the
    commands of src/wallet.go print; [token_id] is the content-addressed
    identifier of a token, the set of its proofs' secrets, so that it
    does not depend on the order of the proofs.  [TokenCodec] is the
    interface of the token-string serialisation ([MakeTokenString] /
    [GetProofsAndMint]) with its round-trip law. *)

From S2P Require Import Prelude.

Module Cashu.

Record Proof := mkProof {
  proof_mint : string;
  proof_amount : N;
  proof_secret : string
}.

Record Token := mkToken {
  token_mint : string;
  token_proofs : list Proof
}.

#[export] Instance Proof_eq_dec : EqDecision Proof.
Proof. solve_decision. Defined.
#[export] Instance Token_eq_dec : EqDecision Token.
Proof. solve_decision. Defined.

(** [Proofs.Amount()]: the sum of the denominations. *)
Definition proofs_amount (ps : list Proof) : N := sumN proof_amount ps.

Definition token_amount (t : Token) : N := proofs_amount (token_proofs t).

(** Token identifiers: the set of the proofs' secrets. *)
Abbreviation TokenId := (gset string).

Definition token_id (t : Token) : TokenId :=
  list_to_set (proof_secret <$> token_proofs t).

(** All proofs of a token come from the token's mint. *)
Definition token_wf (t : Token) : Prop :=
  Forall (fun p => proof_mint p = token_mint t) (token_proofs t).

#[export] Instance token_wf_dec t : Decision (token_wf t).
Proof. unfold token_wf. apply _. Defined.

(** The serialisation of a token string: [MakeTokenString(proofs, mint)]
    and [GetProofsAndMint(s)]; decoding may fail with [InvalidToken]. *)
Class TokenCodec := {
  make_token_string : list Proof -> string -> string;
  get_proofs_and_mint : string -> result (list Proof * string);
  get_make_token_string ps mint :
    get_proofs_and_mint (make_token_string ps mint) = Ok (ps, mint)
}.

(** ** Lemmas *)

Lemma proofs_amount_app ps1 ps2 :
  proofs_amount (ps1 ++ ps2) = proofs_amount ps1 + proofs_amount ps2.
Proof. apply sumN_app. Qed.

#[export] Instance proofs_amount_perm : Proper ((≡ₚ) ==> (=)) proofs_amount.
Proof. apply sumN_perm. Qed.

#[export] Instance token_id_proper :
  Proper ((≡ₚ) ==> (=)) (fun ps => list_to_set (C:=TokenId) (proof_secret <$> ps)).
Proof. intros ps1 ps2 Hp. by rewrite Hp. Qed.

Lemma elem_of_token_id s t :
  s ∈ token_id t <-> exists p, p ∈ token_proofs t /\ proof_secret p = s.
Proof.
  unfold token_id. rewrite elem_of_list_to_set, list_elem_of_fmap. naive_solver.
Qed.

Lemma token_wf_app mint ps1 ps2 :
  token_wf (mkToken mint ps1) -> token_wf (mkToken mint ps2) ->
  token_wf (mkToken mint (ps1 ++ ps2)).
Proof. unfold token_wf; simpl. rewrite Forall_app. tauto. Qed.

End Cashu.

#[export] Hint Resolve Cashu.token_wf_app : nak.
