(* ===== verification/Ledger.v ===== *)
(** * The ledger store

    The in-memory wallet the commands of src/wallet.go read after
    [prepareWallet]: [w.Mints] (listed by [nak wallet mints]),
    [w.Tokens] (listed by [nak wallet tokens]), [w.PrivateKey] (tested
    by [nak wallet nutzap setup]) and [w.Balance()] (printed by
    [nak wallet]).  Live tokens are a [gmap] keyed by the token
    identifier, so that a token is live at most once.  The operations
    are [add_mint], [remove_mint], [set_private_key] and the two token
    mutations the reducer uses, [insert_token] and [delete_token]. *)

From S2P Require Import Prelude Cashu.
Import Cashu.

Module Ledger.

Record Wallet := mkWallet {
  mints : list string;
  tokens : gmap TokenId Token;
  private_key : option string
}.

Definition empty_wallet : Wallet := mkWallet [] ∅ None.

(** [Balance()]: the sum of the amounts of the live tokens. *)
Definition balance (w : Wallet) : N :=
  sumN (fun kv => token_amount kv.2) (map_to_list (tokens w)).

(** [AddMint(urls...)]: append each url that is not already listed. *)
Definition add_mint1 (w : Wallet) (url : string) : Wallet :=
  if decide (url ∈ mints w) then w
  else mkWallet (mints w ++ [url]) (tokens w) (private_key w).

Definition add_mint (urls : list string) (w : Wallet) : Wallet :=
  foldl add_mint1 w urls.

(** [RemoveMint(urls...)]: drop every listed url; absent urls are no-ops. *)
Definition remove_mint (urls : list string) (w : Wallet) : Wallet :=
  mkWallet (filter (fun u => u ∉ urls) (mints w)) (tokens w) (private_key w).

(** [RegisterPrivateKey]: refused with [KeyAlreadySet] when a key is
    present, unless the caller forces the replacement. *)
Definition set_private_key (force : bool) (sk : string) (w : Wallet)
    : result Wallet :=
  match private_key w with
  | Some _ => if force then Ok (mkWallet (mints w) (tokens w) (Some sk))
              else Err KeyAlreadySet
  | None => Ok (mkWallet (mints w) (tokens w) (Some sk))
  end.

(** Idempotent insertion of a token, and removal by identifier. *)
Definition insert_token (t : Token) (m : gmap TokenId Token) : gmap TokenId Token :=
  match m !! token_id t with
  | Some _ => m
  | None => <[token_id t := t]> m
  end.

Definition delete_token (i : TokenId) (m : gmap TokenId Token) : gmap TokenId Token :=
  delete i m.

(** The sum over a token map, the quantity [balance] reads. *)
Definition tokens_total (m : gmap TokenId Token) : N :=
  sumN (fun kv => token_amount kv.2) (map_to_list m).

(** ** Lemmas on the token map *)

Lemma balance_tokens_total w : balance w = tokens_total (tokens w).
Proof. reflexivity. Qed.

Lemma tokens_total_empty : tokens_total ∅ = 0.
Proof. unfold tokens_total. by rewrite map_to_list_empty. Qed.

Lemma tokens_total_insert m i t :
  m !! i = None -> tokens_total (<[i:=t]> m) = token_amount t + tokens_total m.
Proof.
  intros Hi. unfold tokens_total. by rewrite map_to_list_insert.
Qed.

Lemma tokens_total_delete m i t :
  m !! i = Some t -> tokens_total (delete i m) + token_amount t = tokens_total m.
Proof.
  intros Hi. rewrite <-(insert_delete_id m i t Hi) at 2.
  rewrite tokens_total_insert by apply lookup_delete_eq. lia.
Qed.

Lemma tokens_total_lookup_le m i t :
  m !! i = Some t -> token_amount t <= tokens_total m.
Proof. intros Hi. rewrite <-(tokens_total_delete m i t Hi). lia. Qed.

Lemma insert_token_fresh t m :
  m !! token_id t = None -> insert_token t m = <[token_id t := t]> m.
Proof. intros H. unfold insert_token. by rewrite H. Qed.

Lemma insert_token_live t m :
  is_Some (m !! token_id t) -> insert_token t m = m.
Proof. intros [x H]. unfold insert_token. by rewrite H. Qed.

Lemma insert_token_idem t m : insert_token t (insert_token t m) = insert_token t m.
Proof.
  unfold insert_token at 2 3. destruct (m !! token_id t) eqn:E.
  - apply insert_token_live. eauto.
  - apply insert_token_live. rewrite lookup_insert_eq. eauto.
Qed.

Lemma lookup_insert_token_ne t m j :
  token_id t <> j -> insert_token t m !! j = m !! j.
Proof.
  intros Hne. unfold insert_token. destruct (m !! token_id t); [done|].
  by rewrite lookup_insert_ne.
Qed.

Lemma insert_token_delete_ne t i m :
  token_id t <> i -> insert_token t (delete i m) = delete i (insert_token t m).
Proof.
  intros Hne. unfold insert_token. rewrite lookup_delete_ne by done.
  destruct (m !! token_id t); [done|]. by rewrite delete_insert_ne.
Qed.

Lemma lookup_insert_token_eq t m :
  insert_token t m !! token_id t = Some (default t (m !! token_id t)).
Proof.
  unfold insert_token. destruct (m !! token_id t) eqn:E; simpl.
  - by rewrite E.
  - by rewrite lookup_insert_eq.
Qed.

Lemma insert_token_comm t1 t2 m :
  (token_id t1 = token_id t2 -> t1 = t2) ->
  insert_token t1 (insert_token t2 m) = insert_token t2 (insert_token t1 m).
Proof.
  intros Hcoh. destruct (decide (token_id t1 = token_id t2)) as [E|Hne].
  { by rewrite (Hcoh E). }
  apply map_eq. intros j.
  destruct (decide (j = token_id t1)) as [->|H1];
  [|destruct (decide (j = token_id t2)) as [->|H2]].
  - rewrite (lookup_insert_token_ne t2) by done.
    rewrite !lookup_insert_token_eq, (lookup_insert_token_ne t2) by done. done.
  - rewrite (lookup_insert_token_ne t1) by congruence.
    rewrite !lookup_insert_token_eq, (lookup_insert_token_ne t1) by congruence. done.
  - rewrite !lookup_insert_token_ne by congruence. done.
Qed.

Lemma tokens_total_insert_token t m :
  m !! token_id t = None ->
  tokens_total (insert_token t m) = token_amount t + tokens_total m.
Proof. intros H. rewrite insert_token_fresh by done. by apply tokens_total_insert. Qed.

(** ** Lemmas on the mint list *)

Lemma add_mint1_mints w url :
  mints (add_mint1 w url) = if decide (url ∈ mints w) then mints w else mints w ++ [url].
Proof. unfold add_mint1. by case_decide. Qed.

Lemma add_mint1_NoDup w url : NoDup (mints w) -> NoDup (mints (add_mint1 w url)).
Proof.
  intros Hnd. rewrite add_mint1_mints. case_decide; [done|].
  apply NoDup_app. repeat split; [done| |apply NoDup_singleton].
  intros x Hx ->%list_elem_of_singleton. done.
Qed.

Lemma add_mint1_same_tokens w url :
  tokens (add_mint1 w url) = tokens w /\ private_key (add_mint1 w url) = private_key w.
Proof. unfold add_mint1. by case_decide. Qed.

Lemma add_mint1_elem w url x :
  x ∈ mints (add_mint1 w url) <-> x = url \/ x ∈ mints w.
Proof.
  rewrite add_mint1_mints. case_decide; set_solver.
Qed.

Lemma add_mint_elem urls w x :
  x ∈ mints (add_mint urls w) <-> x ∈ urls \/ x ∈ mints w.
Proof.
  unfold add_mint. revert w. induction urls as [|u urls IH]; intros w; simpl.
  - set_solver.
  - rewrite IH, add_mint1_elem. set_solver.
Qed.

Lemma add_mint1_present w url : url ∈ mints w -> add_mint1 w url = w.
Proof. intros H. unfold add_mint1. by case_decide. Qed.

Lemma add_mint_NoDup urls w : NoDup (mints w) -> NoDup (mints (add_mint urls w)).
Proof.
  unfold add_mint. revert w. induction urls as [|u urls IH]; intros w Hnd; simpl; [done|].
  by apply IH, add_mint1_NoDup.
Qed.

Lemma add_mint1_prefix w url : prefix (mints w) (mints (add_mint1 w url)).
Proof. rewrite add_mint1_mints. case_decide; [done|]. by apply prefix_app_r. Qed.

Lemma add_mint_tokens urls w :
  prefix (mints w) (mints (add_mint urls w)) /\
  tokens (add_mint urls w) = tokens w /\ private_key (add_mint urls w) = private_key w.
Proof.
  unfold add_mint. revert w. induction urls as [|u urls IH]; intros w; simpl; [done|].
  destruct (IH (add_mint1 w u)) as (Hp & Ht & Hk).
  destruct (add_mint1_same_tokens w u) as [Ht1 Hk1].
  split; [|split; congruence]. by etrans; [apply add_mint1_prefix|].
Qed.

Lemma add_mint_present urls w : Forall (fun u => u ∈ mints w) urls -> add_mint urls w = w.
Proof.
  unfold add_mint. revert w. induction urls as [|u urls IH]; intros w Hall; simpl; [done|].
  apply Forall_cons in Hall as [Hu Hall]. rewrite add_mint1_present by done. by apply IH.
Qed.

(** ** Theorems of the mint list *)

(** [AddMint] keeps the mint list free of duplicates, lists exactly
    the old mints and the new urls, keeps the old mints in front in their
    order, and touches neither the tokens nor the balance. *)
Lemma add_mint_correct urls w :
  NoDup (mints w) ->
  NoDup (mints (add_mint urls w)) /\
  (forall x, x ∈ mints (add_mint urls w) <-> x ∈ urls \/ x ∈ mints w) /\
  prefix (mints w) (mints (add_mint urls w)) /\
  balance (add_mint urls w) = balance w.
Proof.
  intros Hnd. destruct (add_mint_tokens urls w) as (Hp & Ht & _).
  split; [by apply add_mint_NoDup|]. split; [apply add_mint_elem|].
  split; [done|]. unfold balance. by rewrite Ht.
Qed.

(** adding the same mints twice is adding them once. *)
Lemma add_mint_idem urls w : add_mint urls (add_mint urls w) = add_mint urls w.
Proof.
  apply add_mint_present, Forall_forall. intros u Hu.
  rewrite add_mint_elem. by left.
Qed.

(** [RemoveMint] lists exactly the old mints that were not named,
    and keeps the tokens. *)
Lemma remove_mint_correct urls w x :
  (x ∈ mints (remove_mint urls w) <-> x ∈ mints w /\ x ∉ urls) /\
  tokens (remove_mint urls w) = tokens w.
Proof. unfold remove_mint; simpl. split; [|done]. rewrite list_elem_of_filter. tauto. Qed.

Lemma add_mint_correct_witness :
  let w := mkWallet ["https://a"] ∅ None in
  NoDup (mints (add_mint ["https://b"; "https://a"] w)) /\
  (forall x, x ∈ mints (add_mint ["https://b"; "https://a"] w) <-> x ∈ ["https://b"; "https://a"] \/ x ∈ mints w) /\
  prefix (mints w) (mints (add_mint ["https://b"; "https://a"] w)) /\
  balance (add_mint ["https://b"; "https://a"] w) = balance w.
Proof. intros w. apply add_mint_correct. decide_closed. Defined.

End Ledger.

#[export] Hint Resolve Ledger.add_mint1_NoDup : nak.
