(* ===== verification/Reducer.v ===== *)
(** * The event-log reducer

    The wallet is rebuilt on every run from its encrypted log events
    (specification, 4.3).  A [LogEvent] carries an identifier and a
    [payload]; [apply_event] is the per-event state machine
    [unseen -> applied] (the [rs_seen] set) followed by one ledger
    mutation chosen by the kind of the payload:
    - received and change tokens are inserted unless their identifier is
      tombstoned or already live ([token_step]);
    - a deletion removes the token and records a tombstone, so that a
      receive arriving later is suppressed;
    - a mint-list update replaces the list when its (timestamp, event id)
      key wins over the last applied one: higher timestamp, then smaller
      identifier ([mint_step], [key_lt]);
    - a private-key registration sets the key only if it is unset
      ([key_step]);
    - history and nutzap-info entries change nothing, and a malformed
      payload is dropped and reported ([event_error]).
    [replay] folds [apply_event] over a stream of events. *)

From S2P Require Import Prelude Cashu Ledger.
Import Cashu Ledger.

Module Reducer.

Inductive payload :=
| History
| TokenReceived (t : Token)
| TokenChange (t : Token)
| TokenDeleted (i : TokenId)
| MintList (ts : N) (urls : list string)
| PrivKeyReg (sk : string)
| NutzapInfo
| Nutzap (t : Token) (recipient event_id message : string)
| Malformed.

Record LogEvent := mkEvent {
  ev_id : string;
  ev_payload : payload
}.

Record RState := mkRState {
  rs_wallet : Wallet;
  rs_seen : gset string;
  rs_tombs : gset TokenId;
  rs_clock : option (N * string)
}.

Definition init_state : RState := mkRState empty_wallet ∅ ∅ None.

(** [key_lt c k]: an update keyed [k] wins over the applied key [c]. *)
Definition key_lt (c k : N * string) : bool :=
  (c.1 <? k.1)%N || ((c.1 =? k.1)%N && String.ltb k.2 c.2).

Definition newer (k : N * string) (c : option (N * string)) : bool :=
  match c with
  | None => true
  | Some c => key_lt c k
  end.

(** The token component: live tokens and tombstones. *)
Definition recv (t : Token) (st : gmap TokenId Token * gset TokenId)
    : gmap TokenId Token * gset TokenId :=
  if decide (token_id t ∈ st.2) then st else (insert_token t st.1, st.2).

Definition del (i : TokenId) (st : gmap TokenId Token * gset TokenId)
    : gmap TokenId Token * gset TokenId :=
  (delete_token i st.1, {[i]} ∪ st.2).

Definition token_step (p : payload) (st : gmap TokenId Token * gset TokenId)
    : gmap TokenId Token * gset TokenId :=
  match p with
  | TokenReceived t => recv t st
  | TokenChange t => recv t st
  | TokenDeleted i => del i st
  | _ => st
  end.

(** The mint-list component: the list and the key of its last update. *)
Definition mint_step (id : string) (p : payload)
    (st : list string * option (N * string)) : list string * option (N * string) :=
  match p with
  | MintList ts urls => if newer (ts, id) st.2 then (urls, Some (ts, id)) else st
  | _ => st
  end.

(** The private-key component. *)
Definition key_step (p : payload) (k : option string) : option string :=
  match p with
  | PrivKeyReg sk => match k with None => Some sk | Some _ => k end
  | _ => k
  end.

Definition apply_payload (id : string) (p : payload) (s : RState) : RState :=
  let w := rs_wallet s in
  let tk := token_step p (tokens w, rs_tombs s) in
  let mc := mint_step id p (mints w, rs_clock s) in
  mkRState (mkWallet mc.1 tk.1 (key_step p (private_key w))) (rs_seen s) tk.2 mc.2.

Definition mark_seen (id : string) (s : RState) : RState :=
  mkRState (rs_wallet s) ({[id]} ∪ rs_seen s) (rs_tombs s) (rs_clock s).

Definition apply_event (e : LogEvent) (s : RState) : RState :=
  if decide (ev_id e ∈ rs_seen s) then s
  else mark_seen (ev_id e) (apply_payload (ev_id e) (ev_payload e) s).

Definition replay (s : RState) (l : list LogEvent) : RState :=
  foldl (fun s e => apply_event e s) s l.

(** The error handed to the [Processed] callback for an event. *)
Definition event_error (e : LogEvent) : option error :=
  match ev_payload e with
  | Malformed => Some MalformedLogEvent
  | _ => None
  end.

(** Two events of one stream that may be applied in either order: equal
    identifiers mean equal events, two key registrations carry the same
    key, two token events with one identifier carry the same token. *)
Definition received_token (p : payload) : option Token :=
  match p with
  | TokenReceived t | TokenChange t => Some t
  | _ => None
  end.

(** A payload is well-formed when the token it carries, if any, is:
    its proofs are all of the token's mint. *)
Definition payload_wf (p : payload) : Prop :=
  match received_token p with Some t => token_wf t | None => True end.

#[export] Instance payload_wf_dec p : Decision (payload_wf p).
Proof. unfold payload_wf. destruct (received_token p); apply _. Defined.

(** Every live token of a wallet is well-formed. *)
Definition tokens_wf (m : gmap TokenId Token) : Prop := map_Forall (fun _ t => token_wf t) m.

Definition payload_compat (p1 p2 : payload) : Prop :=
  (forall a b, p1 = PrivKeyReg a -> p2 = PrivKeyReg b -> a = b) /\
  (forall t1 t2, received_token p1 = Some t1 -> received_token p2 = Some t2 ->
     token_id t1 = token_id t2 -> t1 = t2).

Definition events_compat (e1 e2 : LogEvent) : Prop :=
  (ev_id e1 = ev_id e2 -> e1 = e2) /\ payload_compat (ev_payload e1) (ev_payload e2).

#[export] Instance payload_eq_dec : EqDecision payload.
Proof. solve_decision. Defined.
#[export] Instance LogEvent_eq_dec : EqDecision LogEvent.
Proof. solve_decision. Defined.

(** An executable test of [events_compat] over all pairs of a stream. *)
Definition payload_compat_b (p1 p2 : payload) : bool :=
  match p1, p2 with
  | PrivKeyReg a, PrivKeyReg b => bool_decide (a = b)
  | _, _ =>
    match received_token p1, received_token p2 with
    | Some t1, Some t2 => bool_decide (token_id t1 = token_id t2 -> t1 = t2)
    | _, _ => true
    end
  end.

Definition events_compat_b (e1 e2 : LogEvent) : bool :=
  bool_decide (ev_id e1 = ev_id e2 -> e1 = e2) && payload_compat_b (ev_payload e1) (ev_payload e2).

Definition stream_compat_b (l : list LogEvent) : bool :=
  forallb (fun e1 => forallb (events_compat_b e1) l) l.

(** The invariant of every reachable state: a live token is stored
    under its own identifier, and no tombstoned identifier is live. *)
Definition rs_inv (s : RState) : Prop :=
  (forall i t, tokens (rs_wallet s) !! i = Some t -> token_id t = i) /\
  (forall i, i ∈ rs_tombs s -> tokens (rs_wallet s) !! i = None).

Inductive reachable : RState -> Prop :=
| reachable_init : reachable init_state
| reachable_step e s : reachable s -> reachable (apply_event e s).

(** ** The order on mint-list keys *)

Lemma key_lt_irrefl k : key_lt k k = false.
Proof.
  destruct k as [ts id]. unfold key_lt, String.ltb; simpl.
  rewrite string_compare_refl. destruct (N.ltb_spec ts ts); [lia|]. by rewrite N.eqb_refl.
Qed.

Lemma key_lt_trans a b c : key_lt a b = true -> key_lt b c = true -> key_lt a c = true.
Proof.
  destruct a as [ta ia], b as [tb ib], c as [tc ic]. unfold key_lt, String.ltb; simpl.
  rewrite !orb_true_iff, !andb_true_iff, !N.ltb_lt, !N.eqb_eq.
  destruct (String.compare ib ia) eqn:E1, (String.compare ic ib) eqn:E2; intuition (try lia).
  right. split; [lia|]. by rewrite (string_compare_lt_trans _ _ _ E2 E1).
Qed.

Lemma key_lt_total a b : a <> b -> key_lt a b = true \/ key_lt b a = true.
Proof.
  destruct a as [ta ia], b as [tb ib]. unfold key_lt, String.ltb; simpl. intros Hne.
  rewrite !orb_true_iff, !andb_true_iff, !N.ltb_lt, !N.eqb_eq.
  rewrite (String.compare_antisym ia ib).
  destruct (String.compare ib ia) eqn:E; simpl; try (intuition lia).
  apply String.compare_eq_iff in E. subst.
  destruct (N.lt_trichotomy ta tb) as [|[->|]]; [tauto|congruence|tauto].
Qed.

Lemma key_lt_asym a b : key_lt a b = true -> key_lt b a = false.
Proof.
  intros H. destruct (key_lt b a) eqn:E; [|done].
  pose proof (key_lt_trans _ _ _ H E). by rewrite key_lt_irrefl in *.
Qed.

(** ** The token component *)

Lemma recv_idem t st : recv t (recv t st) = recv t st.
Proof.
  destruct st as [m tb]. unfold recv; simpl.
  repeat (case_decide; simpl in *); try done. by rewrite insert_token_idem.
Qed.

Lemma del_idem i st : del i (del i st) = del i st.
Proof.
  destruct st as [m tb]. unfold del, delete_token; simpl.
  by rewrite delete_delete_eq, union_assoc_L, union_idemp_L.
Qed.

Lemma recv_comm t1 t2 st :
  (token_id t1 = token_id t2 -> t1 = t2) -> recv t1 (recv t2 st) = recv t2 (recv t1 st).
Proof.
  intros Hcoh. destruct st as [m tb]. unfold recv; simpl.
  repeat case_decide; simpl; try done. by rewrite insert_token_comm.
Qed.

Lemma recv_del_comm t i st : recv t (del i st) = del i (recv t st).
Proof.
  destruct st as [m tb]. unfold recv, del, delete_token; simpl.
  destruct (decide (token_id t = i)) as [<-|Hne].
  - case_decide as Hin; [|rewrite elem_of_union, elem_of_singleton in Hin; tauto].
    case_decide; simpl; [done|].
    unfold insert_token. destruct (m !! token_id t); [done|].
    by rewrite delete_insert_eq.
  - repeat (case_decide; simpl); rewrite ?elem_of_union, ?elem_of_singleton in *;
      try tauto. by rewrite insert_token_delete_ne.
Qed.

Lemma del_comm i j st : del i (del j st) = del j (del i st).
Proof.
  destruct st as [m tb]. unfold del, delete_token; simpl.
  f_equal; [apply delete_delete | by rewrite !union_assoc_L, (union_comm_L {[i]})].
Qed.

#[local] Hint Resolve recv_comm recv_del_comm del_comm : core.

Lemma token_step_idem p st : token_step p (token_step p st) = token_step p st.
Proof. destruct p; simpl; auto using recv_idem, del_idem. Qed.

Lemma token_step_comm p1 p2 st :
  payload_compat p1 p2 -> token_step p1 (token_step p2 st) = token_step p2 (token_step p1 st).
Proof.
  intros [_ Hcoh].
  destruct p1, p2; simpl in *; try reflexivity; try (symmetry; apply recv_del_comm);
    auto using recv_del_comm, del_comm; apply recv_comm; eauto.
Qed.

(** ** The mint-list and key components *)

Lemma mint_step_idem id p st : mint_step id p (mint_step id p st) = mint_step id p st.
Proof.
  destruct p; simpl; try done. destruct (newer (ts, id) st.2) eqn:E; simpl.
  - by rewrite key_lt_irrefl.
  - by rewrite E.
Qed.

Lemma mint_step_comm id1 id2 p1 p2 st :
  id1 <> id2 ->
  mint_step id1 p1 (mint_step id2 p2 st) = mint_step id2 p2 (mint_step id1 p1 st).
Proof.
  intros Hid. destruct p1 as [| | | |ts1 u1| | | |], p2 as [| | | |ts2 u2| | | |];
    simpl; try reflexivity.
  assert ((ts1, id1) <> (ts2, id2)) as Hk by congruence.
  destruct st as [ms [c|]]; simpl.
  - destruct (key_lt c (ts2, id2)) eqn:E2, (key_lt c (ts1, id1)) eqn:E1; simpl;
      rewrite ?E1, ?E2; try reflexivity.
    + destruct (key_lt_total _ _ Hk) as [H|H];
        rewrite H, (key_lt_asym _ _ H); reflexivity.
    + destruct (key_lt (ts2, id2) (ts1, id1)) eqn:E; [|reflexivity].
      by rewrite (key_lt_trans _ _ _ E2 E) in E1.
    + destruct (key_lt (ts1, id1) (ts2, id2)) eqn:E; [|reflexivity].
      by rewrite (key_lt_trans _ _ _ E1 E) in E2.
  - destruct (key_lt_total _ _ Hk) as [H|H];
      rewrite H, (key_lt_asym _ _ H); reflexivity.
Qed.

Lemma key_step_idem p k : key_step p (key_step p k) = key_step p k.
Proof. destruct p, k; reflexivity. Qed.

Lemma key_step_comm p1 p2 k :
  payload_compat p1 p2 -> key_step p1 (key_step p2 k) = key_step p2 (key_step p1 k).
Proof.
  intros [Hkey _]. destruct p1, p2, k; simpl; try reflexivity.
  by rewrite (Hkey sk sk0).
Qed.

(** ** The reducer *)

Lemma apply_payload_comm id1 id2 p1 p2 s :
  id1 <> id2 -> payload_compat p1 p2 ->
  apply_payload id1 p1 (apply_payload id2 p2 s) = apply_payload id2 p2 (apply_payload id1 p1 s).
Proof.
  intros Hid Hc. destruct s as [[ms m k] seen tb c]. unfold apply_payload; simpl.
  rewrite <-!surjective_pairing, (token_step_comm p1 p2), (mint_step_comm id1 id2),
    (key_step_comm p1 p2) by done.
  reflexivity.
Qed.

(** ** The seen set *)

Lemma apply_event_noop e s : ev_id e ∈ rs_seen s -> apply_event e s = s.
Proof. intros H. unfold apply_event. by case_decide. Qed.

Lemma apply_event_fresh e s :
  ev_id e ∉ rs_seen s ->
  apply_event e s = mark_seen (ev_id e) (apply_payload (ev_id e) (ev_payload e) s).
Proof. intros H. unfold apply_event. by case_decide. Qed.

Lemma rs_seen_apply_event e s x :
  x ∈ rs_seen (apply_event e s) <-> x = ev_id e \/ x ∈ rs_seen s.
Proof.
  unfold apply_event. case_decide; simpl; set_solver.
Qed.

Lemma apply_payload_mark_seen id j p s :
  apply_payload id p (mark_seen j s) = mark_seen j (apply_payload id p s).
Proof. reflexivity. Qed.

Lemma mark_seen_comm i j s : mark_seen i (mark_seen j s) = mark_seen j (mark_seen i s).
Proof.
  unfold mark_seen; simpl. by rewrite !union_assoc_L, (union_comm_L {[i]}).
Qed.

(** ** Theorems of the reducer *)

(** re-applying an event is a no-op: the second copy of an event
    (the same event delivered by another relay) does not change the state. *)
Lemma apply_event_idem e s : apply_event e (apply_event e s) = apply_event e s.
Proof. apply apply_event_noop, rs_seen_apply_event. by left. Qed.

(** the ledger mutation of every kind of event is idempotent on its
    own, without the seen set: a token, deletion, mint list or key that
    arrives twice under two event identifiers is absorbed once. *)
Lemma apply_payload_idempotent id p s :
  apply_payload id p (apply_payload id p s) = apply_payload id p s.
Proof.
  destruct s as [[ms m k] seen tb c]. unfold apply_payload; simpl.
  rewrite <-!surjective_pairing, token_step_idem, mint_step_idem, key_step_idem.
  reflexivity.
Qed.

Lemma apply_event_comm e1 e2 s :
  events_compat e1 e2 -> apply_event e1 (apply_event e2 s) = apply_event e2 (apply_event e1 s).
Proof.
  intros [Hid Hp]. destruct (decide (ev_id e1 = ev_id e2)) as [E|Hne].
  { by rewrite (Hid E). }
  destruct (decide (ev_id e1 ∈ rs_seen s)) as [H1|H1],
    (decide (ev_id e2 ∈ rs_seen s)) as [H2|H2].
  - by rewrite (apply_event_noop e2 s H2), (apply_event_noop e1 s H1), (apply_event_noop e2 s H2).
  - rewrite (apply_event_noop e1 s H1), (apply_event_noop e1); [done|].
    apply rs_seen_apply_event. by right.
  - rewrite (apply_event_noop e2 s H2), (apply_event_noop e2); [done|].
    apply rs_seen_apply_event. by right.
  - rewrite (apply_event_fresh e2 s H2), (apply_event_fresh e1 s H1).
    rewrite !apply_event_fresh; simpl; [| set_solver..].
    rewrite !apply_payload_mark_seen, mark_seen_comm, apply_payload_comm; auto.
Qed.

(** order independence.  Replaying any permutation of a stream of
    pairwise compatible events (duplicates included) gives the same
    state: tombstones make a deletion commute with the receive it
    retires, and the mint list is last-writer-wins by (timestamp, id). *)
Lemma replay_perm s l1 l2 :
  l1 ≡ₚ l2 ->
  (forall e1 e2, e1 ∈ l1 -> e2 ∈ l1 -> events_compat e1 e2) ->
  replay s l1 = replay s l2.
Proof.
  unfold replay. intros Hp. revert s. induction Hp as [|e l1 l2 Hp IH|e1 e2 l|l1 l2 l3 Hp1 IH1 Hp2 IH2];
    intros s Hc; simpl.
  - done.
  - apply IH. intros x y Hx Hy. apply Hc; set_solver.
  - rewrite apply_event_comm; [done|]. apply Hc; set_solver.
  - rewrite IH1 by done. apply IH2. intros x y Hx Hy. apply Hc; by rewrite Hp1.
Qed.

(** ** The compatibility test *)

Lemma payload_compat_b_sound p1 p2 : payload_compat_b p1 p2 = true -> payload_compat p1 p2.
Proof.
  intros H. split.
  - intros a b -> ->. simpl in H. by apply bool_decide_eq_true in H.
  - intros t1 t2 H1 H2.
    destruct p1, p2; simpl in *; simplify_eq;
      apply bool_decide_eq_true in H; assumption.
Qed.

Lemma stream_compat_b_sound l :
  stream_compat_b l = true -> forall e1 e2, e1 ∈ l -> e2 ∈ l -> events_compat e1 e2.
Proof.
  unfold stream_compat_b. intros H e1 e2 H1%list_elem_of_In H2%list_elem_of_In.
  rewrite forallb_forall in H. specialize (H e1 H1).
  rewrite forallb_forall in H. specialize (H e2 H2).
  apply andb_true_iff in H as [Hid Hp].
  split; [by apply bool_decide_eq_true in Hid | by apply payload_compat_b_sound].
Qed.

(** ** Balance and the reachable-state invariant *)

Lemma token_step_received p t st :
  received_token p = Some t -> token_step p st = recv t st.
Proof. destruct p; simpl; congruence. Qed.

Lemma tokens_apply_event_fresh e s :
  ev_id e ∉ rs_seen s ->
  tokens (rs_wallet (apply_event e s)) = (token_step (ev_payload e) (tokens (rs_wallet s), rs_tombs s)).1
  /\ rs_tombs (apply_event e s) = (token_step (ev_payload e) (tokens (rs_wallet s), rs_tombs s)).2.
Proof. intros H. by rewrite apply_event_fresh. Qed.

(** a received (or change) token that is new, not tombstoned and
    not yet live raises the balance by exactly its amount. *)
Lemma apply_event_receive_balance e t s :
  received_token (ev_payload e) = Some t ->
  ev_id e ∉ rs_seen s -> token_id t ∉ rs_tombs s ->
  tokens (rs_wallet s) !! token_id t = None ->
  balance (rs_wallet (apply_event e s)) = balance (rs_wallet s) + token_amount t.
Proof.
  intros Hr Hs Ht Hl. rewrite !balance_tokens_total.
  rewrite (proj1 (tokens_apply_event_fresh e s Hs)), (token_step_received _ t) by done.
  unfold recv; simpl. case_decide; [done|]. simpl.
  rewrite tokens_total_insert_token by done. lia.
Qed.

(** a deletion of a live token lowers the balance by exactly the
    token's amount. *)
Lemma apply_event_delete_balance e i t s :
  ev_payload e = TokenDeleted i -> ev_id e ∉ rs_seen s ->
  tokens (rs_wallet s) !! i = Some t ->
  balance (rs_wallet (apply_event e s)) + token_amount t = balance (rs_wallet s).
Proof.
  intros Hp Hs Hl. rewrite !balance_tokens_total.
  rewrite (proj1 (tokens_apply_event_fresh e s Hs)), Hp. simpl.
  by apply tokens_total_delete.
Qed.

Lemma rs_inv_init : rs_inv init_state.
Proof. split; simpl; [intros i t; by rewrite lookup_empty | set_solver]. Qed.

Lemma rs_inv_token_step p m tb :
  (forall i t, m !! i = Some t -> token_id t = i) ->
  (forall i, i ∈ tb -> m !! i = None) ->
  let st := token_step p (m, tb) in
  (forall i t, st.1 !! i = Some t -> token_id t = i) /\
  (forall i, i ∈ st.2 -> st.1 !! i = None).
Proof.
  intros Hk Ht. destruct p; simpl; try (split; assumption);
    [unfold recv..| unfold del, delete_token]; simpl.
  1,2: case_decide; simpl; [split; assumption|]; split;
    [ intros i t'; destruct (decide (i = token_id t)) as [->|Hne];
      [rewrite lookup_insert_token_eq; destruct (m !! token_id t) eqn:E; simpl;
         [intros [= <-]; eauto | by intros [= <-]]
      | rewrite lookup_insert_token_ne by congruence; eauto]
    | intros j Hj; rewrite lookup_insert_token_ne by congruence; eauto].
  split.
  - intros j t Hj. destruct (decide (i = j)) as [->|Hne];
      [by rewrite lookup_delete_eq in Hj | rewrite lookup_delete_ne in Hj; eauto].
  - intros j Hj. destruct (decide (i = j)) as [->|Hne]; [apply lookup_delete_eq|].
    rewrite lookup_delete_ne by done. apply Ht.
    rewrite elem_of_union, elem_of_singleton in Hj. naive_solver.
Qed.

Lemma rs_inv_apply_event e s : rs_inv s -> rs_inv (apply_event e s).
Proof.
  intros [Hk Ht]. destruct (decide (ev_id e ∈ rs_seen s)) as [H|H].
  - by rewrite apply_event_noop.
  - unfold rs_inv. rewrite (proj1 (tokens_apply_event_fresh e s H)),
      (proj2 (tokens_apply_event_fresh e s H)).
    by apply rs_inv_token_step.
Qed.

(** every state reachable from the empty wallet by applying events
    stores each live token under its own identifier and keeps no
    tombstoned identifier live. *)
Lemma reachable_rs_inv s : reachable s -> rs_inv s.
Proof.
  induction 1; [apply rs_inv_init | by apply rs_inv_apply_event].
Qed.

Lemma replay_reachable s l : reachable s -> reachable (replay s l).
Proof.
  revert s. induction l as [|e l IH]; intros s Hs; simpl; [done|].
  apply IH. by constructor.
Qed.

(** a deletion that arrives before the receive of the same token
    suppresses it: after the two events the token is not live. *)
Lemma tombstone_suppresses_receive s ed er t :
  ev_payload ed = TokenDeleted (token_id t) ->
  received_token (ev_payload er) = Some t ->
  ev_id ed ∉ rs_seen s -> ev_id er <> ev_id ed ->
  tokens (rs_wallet (replay s [ed; er])) !! token_id t = None.
Proof.
  intros Hd Hr Hs Hne. simpl.
  assert (token_id t ∈ rs_tombs (apply_event ed s)) as Ht.
  { rewrite (proj2 (tokens_apply_event_fresh ed s Hs)), Hd. simpl. set_solver. }
  assert (tokens (rs_wallet (apply_event ed s)) !! token_id t = None) as Hl.
  { rewrite (proj1 (tokens_apply_event_fresh ed s Hs)), Hd. apply lookup_delete_eq. }
  destruct (decide (ev_id er ∈ rs_seen (apply_event ed s))) as [H|H].
  - by rewrite apply_event_noop.
  - rewrite (proj1 (tokens_apply_event_fresh er _ H)), (token_step_received _ t) by done.
    unfold recv. by case_decide.
Qed.

Lemma private_key_apply_event_fresh e s :
  ev_id e ∉ rs_seen s ->
  private_key (rs_wallet (apply_event e s)) = key_step (ev_payload e) (private_key (rs_wallet s)).
Proof. intros H. by rewrite apply_event_fresh. Qed.

Lemma replay_two_fresh e1 e2 s :
  ev_id e1 ∉ rs_seen s -> ev_id e2 ∉ rs_seen s -> ev_id e1 <> ev_id e2 ->
  ev_id e2 ∉ rs_seen (apply_event e1 s).
Proof. intros H1 H2 Hne. rewrite rs_seen_apply_event. naive_solver. Qed.

(** the private key is first-writer-wins.  Two registrations of
    keys [a] and [b] on a wallet without a key keep the first one
    applied, so replaying them in the two orders gives different keys
    when [a <> b]: order independence holds only for streams whose
    key registrations agree. *)
Lemma privkey_first_wins s e1 e2 a b :
  ev_payload e1 = PrivKeyReg a -> ev_payload e2 = PrivKeyReg b ->
  private_key (rs_wallet s) = None ->
  ev_id e1 ∉ rs_seen s -> ev_id e2 ∉ rs_seen s -> ev_id e1 <> ev_id e2 ->
  private_key (rs_wallet (replay s [e1; e2])) = Some a /\
  private_key (rs_wallet (replay s [e2; e1])) = Some b.
Proof.
  intros H1 H2 Hk Hs1 Hs2 Hne. simpl.
  rewrite !private_key_apply_event_fresh by auto using replay_two_fresh.
  by rewrite H1, H2, Hk.
Qed.

(** ** Tombstones are permanent *)

Lemma tombs_apply_event e s i : i ∈ rs_tombs s -> i ∈ rs_tombs (apply_event e s).
Proof.
  intros Hi. destruct (decide (ev_id e ∈ rs_seen s)) as [H|H].
  - by rewrite apply_event_noop.
  - rewrite (proj2 (tokens_apply_event_fresh e s H)).
    destruct (ev_payload e); simpl; try done; unfold recv, del; try case_decide; simpl;
      rewrite ?elem_of_union; auto.
Qed.

Lemma tombs_replay l s i : i ∈ rs_tombs s -> i ∈ rs_tombs (replay s l).
Proof.
  revert s. induction l as [|e l IH]; intros s Hi; [done|]. apply IH. by apply tombs_apply_event.
Qed.

(** A deletion anywhere in a stream whose identifiers determine their
    events leaves its identifier tombstoned. *)
Lemma replay_deleted l s ed i :
  ed ∈ l -> ev_payload ed = TokenDeleted i ->
  (ev_id ed ∈ rs_seen s -> i ∈ rs_tombs s) ->
  (forall e, e ∈ l -> ev_id e = ev_id ed -> e = ed) ->
  i ∈ rs_tombs (replay s l).
Proof.
  revert s. induction l as [|e l IH]; intros s Hin Hd Hs Hid; [by apply elem_of_nil in Hin|].
  simpl. destruct (decide (e = ed)) as [->|Hne].
  - apply tombs_replay. destruct (decide (ev_id ed ∈ rs_seen s)) as [H|H].
    + rewrite apply_event_noop by done. auto.
    + rewrite (proj2 (tokens_apply_event_fresh ed s H)), Hd. simpl. set_solver.
  - apply elem_of_cons in Hin as [->|Hin]; [done|]. apply IH; [done|done| |].
    + rewrite rs_seen_apply_event. intros [Heq|Hseen].
      * exfalso. apply Hne, Hid; [left|]; done.
      * by apply tombs_apply_event, Hs.
    + intros e' He'. apply Hid. by right.
Qed.

(** ** Witnesses on a concrete stream *)

(** ** Well-formed tokens *)

Lemma insert_token_wf t m : token_wf t -> tokens_wf m -> tokens_wf (insert_token t m).
Proof.
  intros Ht Hm. unfold insert_token. destruct (m !! token_id t); [done|].
  by apply map_Forall_insert_2.
Qed.

Lemma token_step_wf p st : payload_wf p -> tokens_wf st.1 -> tokens_wf (token_step p st).1.
Proof.
  unfold payload_wf. intros Hp Hm.
  destruct p; simpl in *; try done; try (unfold recv; case_decide; [done|by apply insert_token_wf]).
  by apply map_Forall_delete.
Qed.

Lemma apply_event_wf e s :
  payload_wf (ev_payload e) -> tokens_wf (tokens (rs_wallet s)) ->
  tokens_wf (tokens (rs_wallet (apply_event e s))).
Proof.
  intros Hp Hs. unfold apply_event. case_decide; [done|]. by apply token_step_wf.
Qed.

(** Replaying well-formed events keeps every live token well-formed. *)
Lemma replay_wf l s :
  Forall (fun e => payload_wf (ev_payload e)) l -> tokens_wf (tokens (rs_wallet s)) ->
  tokens_wf (tokens (rs_wallet (replay s l))).
Proof.
  intros Hl. revert s. induction Hl as [|e l He _ IH]; intros s Hs; [done|].
  apply IH. by apply apply_event_wf.
Qed.

(** A delivered event's identifier is in the replay's [seen] set. *)
Lemma rs_seen_replay l s e : e ∈ l -> ev_id e ∈ rs_seen (replay s l).
Proof.
  revert s. induction l as [|e' l IH]; intros s Hin; [by apply elem_of_nil in Hin|]. simpl.
  apply elem_of_cons in Hin as [<-|Hin]; [|by apply IH].
  assert (forall l' s', ev_id e ∈ rs_seen s' -> ev_id e ∈ rs_seen (replay s' l')) as Hmono.
  { intros l'. induction l' as [|x l' IH']; intros s' Hs'; [done|]. apply IH'.
    rewrite rs_seen_apply_event. by right. }
  apply Hmono. rewrite rs_seen_apply_event. by left.
Qed.



Definition tokA5 : Token := mkToken "https://a" [mkProof "https://a" 5 "s1"].
Definition ev_recv : LogEvent := mkEvent "e1" (TokenReceived tokA5).
Definition ev_del : LogEvent := mkEvent "e2" (TokenDeleted (token_id tokA5)).
Definition ev_mints : LogEvent := mkEvent "e3" (MintList 7 ["https://a"]).

Lemma replay_perm_witness :
  replay init_state [ev_recv; ev_del; ev_mints] = replay init_state [ev_mints; ev_del; ev_recv].
Proof.
  apply replay_perm.
  - apply (Permutation_rev [ev_recv; ev_del; ev_mints]).
  - apply stream_compat_b_sound. vm_compute. reflexivity.
Defined.

Lemma apply_event_receive_balance_witness :
  balance (rs_wallet (apply_event ev_recv init_state)) = balance (rs_wallet init_state) + 5.
Proof.
  apply (apply_event_receive_balance ev_recv tokA5 init_state);
    [reflexivity | decide_closed | decide_closed | reflexivity].
Defined.

Lemma apply_event_delete_balance_witness :
  balance (rs_wallet (apply_event ev_del (apply_event ev_recv init_state))) + 5
  = balance (rs_wallet (apply_event ev_recv init_state)).
Proof.
  apply (apply_event_delete_balance ev_del (token_id tokA5) tokA5);
    [reflexivity | decide_closed | vm_compute; reflexivity].
Defined.

Lemma reachable_rs_inv_witness : rs_inv (replay init_state [ev_recv; ev_del; ev_mints]).
Proof. apply reachable_rs_inv, replay_reachable, reachable_init. Defined.

Lemma tombstone_suppresses_receive_witness :
  tokens (rs_wallet (replay init_state [ev_del; ev_recv])) !! token_id tokA5 = None.
Proof.
  apply (tombstone_suppresses_receive init_state ev_del ev_recv tokA5);
    [reflexivity | reflexivity | decide_closed | discriminate].
Defined.

Lemma privkey_first_wins_witness :
  private_key (rs_wallet (replay init_state [mkEvent "k1" (PrivKeyReg "a"); mkEvent "k2" (PrivKeyReg "b")])) = Some "a" /\
  private_key (rs_wallet (replay init_state [mkEvent "k2" (PrivKeyReg "b"); mkEvent "k1" (PrivKeyReg "a")])) = Some "b".
Proof.
  apply privkey_first_wins; [reflexivity | reflexivity | reflexivity | decide_closed | decide_closed | discriminate].
Defined.

End Reducer.
