(* ===== verification/Sync.v ===== *)
(** * The sync engine and its [Stable] barrier

    [nip60.LoadWallet] opens one subscription per relay; each relay
    delivers its stored wallet events, then an end-of-stored-events
    signal (EOSE), unless the bounded wait for it elapses first.
    Delivered events are deduplicated by identifier across relays (the
    reducer's [seen] set) and applied.  [Stable] fires once, when every
    relay has sent EOSE or timed out.  [prepareWallet] blocks on it
    (src/wallet.go line 77: [<-w.Stable]).

    The engine is a step relation [step] over [SyncState] whose moves are
    the network's actions ([Deliver], [Eose], [Timeout]), each followed
    by the barrier's check ([fire]); [exec] is its executable version and
    [wait_stable] the run a session observes: the actions that happened
    before the bounded wait elapsed, then the timeout of every relay
    still streaming. *)

From S2P Require Import Prelude Cashu Ledger Reducer.
Import Cashu Ledger Reducer.

Module Sync.

Inductive status := Streaming | Eosed | TimedOut.

#[export] Instance status_eq_dec : EqDecision status.
Proof. solve_decision. Defined.

(** One subscription: the relay's stored events ([sub_log], constant),
    those delivered so far and those still to come. *)
Record Sub := mkSub {
  sub_relay : string;
  sub_log : list LogEvent;
  sub_delivered : list LogEvent;
  sub_backlog : list LogEvent;
  sub_status : status
}.

Record SyncState := mkSync {
  sy_subs : list Sub;
  sy_reducer : RState;
  sy_delivered : list LogEvent;
  sy_processed : list LogEvent;
  sy_stable : bool;
  sy_fired : nat
}.

Inductive action := Deliver (i : nat) | Eose (i : nat) | Timeout (i : nat).

Definition streaming (sub : Sub) : bool := bool_decide (sub_status sub = Streaming).

(** The barrier: once no relay is streaming, [Stable] fires, once. *)
Definition fire (s : SyncState) : SyncState :=
  if negb (sy_stable s) && forallb (fun sub => negb (streaming sub)) (sy_subs s)
  then mkSync (sy_subs s) (sy_reducer s) (sy_delivered s) (sy_processed s) true (S (sy_fired s))
  else s.

Definition set_sub (s : SyncState) (i : nat) (sub : Sub) : list Sub := <[i := sub]> (sy_subs s).

(** One action of the network, when it is possible. *)
Definition exec (a : action) (s : SyncState) : option SyncState :=
  match a with
  | Deliver i =>
      match sy_subs s !! i with
      | Some sub =>
          match sub_backlog sub with
          | e :: rest =>
              if decide (sub_status sub = Eosed) then None
              else
                let sub' := mkSub (sub_relay sub) (sub_log sub) (sub_delivered sub ++ [e]) rest
                                  (sub_status sub) in
                let fresh := bool_decide (ev_id e ∉ rs_seen (sy_reducer s)) in
                Some (mkSync (set_sub s i sub') (apply_event e (sy_reducer s))
                             (sy_delivered s ++ [e])
                             (if fresh then sy_processed s ++ [e] else sy_processed s)
                             (sy_stable s) (sy_fired s))
          | [] => None
          end
      | None => None
      end
  | Eose i =>
      match sy_subs s !! i with
      | Some sub =>
          if decide (sub_status sub = Streaming /\ sub_backlog sub = []) then
            Some (mkSync (set_sub s i (mkSub (sub_relay sub) (sub_log sub) (sub_delivered sub) [] Eosed))
                         (sy_reducer s) (sy_delivered s) (sy_processed s) (sy_stable s) (sy_fired s))
          else None
      | None => None
      end
  | Timeout i =>
      match sy_subs s !! i with
      | Some sub =>
          if decide (sub_status sub = Streaming) then
            Some (mkSync (set_sub s i (mkSub (sub_relay sub) (sub_log sub) (sub_delivered sub)
                                         (sub_backlog sub) TimedOut))
                         (sy_reducer s) (sy_delivered s) (sy_processed s) (sy_stable s) (sy_fired s))
          else None
      | None => None
      end
  end.

(** A move of the engine: an action, then the barrier's check. *)
Inductive step : SyncState -> SyncState -> Prop :=
| step_exec a s s' : exec a s = Some s' -> step s (fire s').

(** The state after the subscriptions are opened. *)
Definition init_sync (logs : list (string * list LogEvent)) : SyncState :=
  fire (mkSync ((fun rl => mkSub rl.1 rl.2 [] rl.2 Streaming) <$> logs) init_state [] [] false 0).

(** An action the network performs, or nothing when it is not possible. *)
Definition exec_or_skip (a : action) (s : SyncState) : SyncState :=
  match exec a s with Some s' => fire s' | None => s end.

(** The actions of the network until [Stable] fires. *)
Fixpoint run_until_stable (acts : list action) (s : SyncState) : SyncState :=
  if sy_stable s then s
  else match acts with
       | [] => s
       | a :: acts' => run_until_stable acts' (exec_or_skip a s)
       end.

(** [<-w.Stable]: the session waits while the network acts ([acts]);
    when the bounded wait elapses, every relay still streaming times
    out, in turn. *)
Definition wait_stable (logs : list (string * list LogEvent)) (acts : list action) : SyncState :=
  let s := run_until_stable acts (init_sync logs) in
  run_until_stable (Timeout <$> seq 0 (length (sy_subs s))) s.

(** ** The invariant of the engine *)

(** A subscription delivers its log in order; after EOSE nothing is left. *)
Definition sub_ok (sub : Sub) : Prop :=
  sub_delivered sub ++ sub_backlog sub = sub_log sub /\
  (sub_status sub = Eosed -> sub_backlog sub = []).

(** Before the barrier's check: the reducer is the replay of the
    delivered events, which are the union of what each relay delivered;
    [Stable] has fired once if it is set, and only when no relay streams. *)
Definition pre_inv (s : SyncState) : Prop :=
  sy_reducer s = replay init_state (sy_delivered s) /\
  Forall sub_ok (sy_subs s) /\
  sy_delivered s ≡ₚ concat (sub_delivered <$> sy_subs s) /\
  sy_fired s = (if sy_stable s then 1 else 0)%nat /\
  (sy_stable s = true -> Forall (fun sub => streaming sub = false) (sy_subs s)).

(** After the check, [Stable] is set exactly when no relay streams. *)
Definition sync_inv (s : SyncState) : Prop :=
  pre_inv s /\ (Forall (fun sub => streaming sub = false) (sy_subs s) -> sy_stable s = true).

Lemma forallb_not_streaming subs :
  forallb (fun sub => negb (streaming sub)) subs = true <-> Forall (fun sub => streaming sub = false) subs.
Proof.
  rewrite forallb_forall, Forall_forall. setoid_rewrite negb_true_iff.
  split; intros H x Hx; apply H; by apply list_elem_of_In.
Qed.

Lemma fire_inv s : pre_inv s -> sync_inv (fire s).
Proof.
  intros Hpre. pose proof Hpre as (Hr & Hok & Hp & Hf & Hs). unfold fire.
  destruct (sy_stable s) eqn:Est; simpl.
  - split; [done|]. by intros.
  - destruct (forallb _ (sy_subs s)) eqn:Ea; simpl.
    + apply forallb_not_streaming in Ea. split; [|done].
      unfold pre_inv; simpl. split_and!; auto; by rewrite Hf, Est.
    + split; [done|]. intros Hall%forallb_not_streaming. congruence.
Qed.

Lemma concat_insert_snoc {A} (L : list (list A)) i x e :
  L !! i = Some x -> concat (<[i := x ++ [e]]> L) ≡ₚ concat L ++ [e].
Proof.
  intros Hi. pose proof (lookup_lt_Some _ _ _ Hi) as Hlt.
  rewrite insert_take_drop by done.
  rewrite <-(take_drop_middle L i x Hi) at 3.
  rewrite !concat_app. simpl. rewrite <-!app_assoc. solve_Permutation.
Qed.

Lemma replay_snoc s l e : replay s (l ++ [e]) = apply_event e (replay s l).
Proof. unfold replay. by rewrite foldl_app. Qed.

Lemma not_streaming_insert subs i x :
  subs !! i = Some x -> streaming x = true ->
  Forall (fun sub => streaming sub = false) subs -> False.
Proof. intros Hi Hx Hall. rewrite Forall_lookup in Hall. specialize (Hall i x Hi). congruence. Qed.

Lemma exec_pre_inv a s s' : sync_inv s -> exec a s = Some s' -> pre_inv s'.
Proof.
  intros [(Hr & Hok & Hp & Hf & Hs) _]. rewrite Forall_lookup in Hok.
  destruct a as [i|i|i]; simpl; destruct (sy_subs s !! i) as [sub|] eqn:Hi; try done.
  - destruct (sub_backlog sub) as [|e rest] eqn:Hb; [done|]. case_decide as Heo; [done|].
    intros [= <-]. destruct (Hok i sub Hi) as [Hdl Heos]. unfold set_sub.
    repeat split; simpl.
    + by rewrite replay_snoc, Hr.
    + apply Forall_lookup. intros j y Hj.
      destruct (decide (i = j)) as [<-|Hne].
      * rewrite list_lookup_insert_eq in Hj by (by eapply lookup_lt_Some). injection Hj as <-.
        split; simpl; [by rewrite <-app_assoc, <-Hdl, Hb | done].
      * rewrite list_lookup_insert_ne in Hj by done. eauto.
    + rewrite list_fmap_insert. simpl. rewrite concat_insert_snoc; [by rewrite Hp|].
      by rewrite list_lookup_fmap, Hi.
    + done.
    + intros Hst. pose proof (Hs Hst) as Hall. apply Forall_insert; [done|].
      rewrite Forall_lookup in Hall. exact (Hall i sub Hi).
  - case_decide as Hc; [|done]. destruct Hc as [Hst Hb]. intros [= <-]. unfold set_sub.
    destruct (Hok i sub Hi) as [Hdl _].
    repeat split; simpl; try done.
    + apply Forall_lookup. intros j y Hj.
      destruct (decide (i = j)) as [<-|Hne].
      * rewrite list_lookup_insert_eq in Hj by (by eapply lookup_lt_Some). injection Hj as <-.
        split; simpl; [by rewrite <-Hdl, Hb | done].
      * rewrite list_lookup_insert_ne in Hj by done. eauto.
    + rewrite list_fmap_insert. simpl. rewrite list_insert_id; [done|].
      by rewrite list_lookup_fmap, Hi.
    + intros Hstable. exfalso. apply (not_streaming_insert (sy_subs s) i sub Hi);
        [unfold streaming; by rewrite bool_decide_eq_true | by apply Hs].
  - case_decide as Hst; [|done]. intros [= <-]. unfold set_sub.
    destruct (Hok i sub Hi) as [Hdl _].
    repeat split; simpl; try done.
    + apply Forall_lookup. intros j y Hj.
      destruct (decide (i = j)) as [<-|Hne].
      * rewrite list_lookup_insert_eq in Hj by (by eapply lookup_lt_Some). injection Hj as <-.
        split; simpl; [done | discriminate].
      * rewrite list_lookup_insert_ne in Hj by done. eauto.
    + rewrite list_fmap_insert. simpl. rewrite list_insert_id; [done|].
      by rewrite list_lookup_fmap, Hi.
    + intros Hstable. exfalso. apply (not_streaming_insert (sy_subs s) i sub Hi);
        [unfold streaming; by rewrite bool_decide_eq_true | by apply Hs].
Qed.

Lemma step_inv s s' : sync_inv s -> step s s' -> sync_inv s'.
Proof. intros Hi Hs. destruct Hs as [a s0 s'' He]. eapply fire_inv, exec_pre_inv; eauto. Qed.

Lemma init_inv logs : sync_inv (init_sync logs).
Proof.
  apply fire_inv. unfold pre_inv; simpl. split_and!; try done.
  - apply Forall_fmap, Forall_forall. intros rl _. split; simpl; [done | discriminate].
  - rewrite <-list_fmap_compose. unfold compose; simpl. induction logs; simpl; [done|]. done.
Qed.

Lemma exec_or_skip_inv a s : sync_inv s -> sync_inv (exec_or_skip a s).
Proof.
  unfold exec_or_skip. destruct (exec a s) eqn:E; [|done]. intros Hi. eapply step_inv; [done|].
  by constructor 1 with a.
Qed.

Lemma exec_or_skip_rtc a s : rtc step s (exec_or_skip a s).
Proof.
  unfold exec_or_skip. destruct (exec a s) eqn:E; [|done]. apply rtc_once. by econstructor.
Qed.

Lemma run_until_stable_inv acts s : sync_inv s -> sync_inv (run_until_stable acts s).
Proof.
  revert s. induction acts as [|a acts IH]; intros s Hi; simpl; destruct (sy_stable s); auto.
  by apply IH, exec_or_skip_inv.
Qed.

Lemma run_until_stable_rtc acts s : rtc step s (run_until_stable acts s).
Proof.
  revert s. induction acts as [|a acts IH]; intros s; simpl; destruct (sy_stable s); try done.
  etrans; [apply exec_or_skip_rtc | apply IH].
Qed.

(** A relay that still streams can always time out: the engine is
    never stuck before [Stable]. *)
Lemma sync_progress s : sync_inv s -> sy_stable s = false -> exists s', step s s'.
Proof.
  intros [_ Hall] Hst.
  destruct (decide (Forall (fun sub => streaming sub = false) (sy_subs s))) as [H|H];
    [by rewrite Hall in Hst|].
  apply not_Forall_Exists in H; [|apply _]. apply Exists_exists in H as (sub & Hin & Hs).
  apply list_elem_of_lookup in Hin as [i Hi].
  eexists. constructor 1 with (Timeout i). simpl. rewrite Hi.
  rewrite decide_True; [done|]. simpl in Hs. unfold streaming in Hs. by destruct (sub_status sub).
Qed.

(** ** Termination: every step lowers a measure *)

Definition weight (sub : Sub) : nat := (length (sub_backlog sub) + if streaming sub then 2 else 0)%nat.

Definition measure (s : SyncState) : nat :=
  (sum_list_with weight (sy_subs s) + if sy_stable s then 0 else 1)%nat.

Lemma sum_list_with_insert {A} (f : A -> nat) l i x y :
  l !! i = Some x -> (sum_list_with f (<[i := y]> l) + f x = sum_list_with f l + f y)%nat.
Proof.
  intros Hi. pose proof (lookup_lt_Some _ _ _ Hi).
  rewrite insert_take_drop by done. rewrite <-(take_drop_middle l i x Hi) at 3.
  rewrite !sum_list_with_app. simpl. lia.
Qed.

Lemma fire_measure s : (measure (fire s) <= measure s)%nat.
Proof.
  unfold fire. destruct (negb (sy_stable s) && _) eqn:E; [|done].
  apply andb_true_iff in E as [E _]. unfold measure; simpl. destruct (sy_stable s); simpl in *; lia.
Qed.

Lemma insert_lighter l i x y :
  l !! i = Some x -> (weight y < weight x)%nat ->
  (sum_list_with weight (<[i := y]> l) < sum_list_with weight l)%nat.
Proof. intros Hi Hw. pose proof (sum_list_with_insert weight l i x y Hi). lia. Qed.

Lemma exec_measure a s s' : exec a s = Some s' -> (measure s' < measure s)%nat.
Proof.
  unfold measure. destruct a as [i|i|i]; simpl; destruct (sy_subs s !! i) as [sub|] eqn:Hi; try done.
  - destruct (sub_backlog sub) as [|e rest] eqn:Hb; [done|]. case_decide; [done|].
    intros [= <-]. simpl. unfold set_sub.
    apply Nat.add_lt_le_mono; [|done]. eapply insert_lighter; [done|].
    unfold weight, streaming; simpl. rewrite Hb. simpl.
    lia.
  - case_decide as Hc; [|done]. destruct Hc as [Hst Hb]. intros [= <-]. simpl. unfold set_sub.
    apply Nat.add_lt_le_mono; [|done]. eapply insert_lighter; [done|].
    unfold weight, streaming; simpl. rewrite Hst. repeat case_bool_decide; simplify_eq; lia.
  - case_decide as Hst; [|done]. intros [= <-]. simpl. unfold set_sub.
    apply Nat.add_lt_le_mono; [|done]. eapply insert_lighter; [done|].
    unfold weight, streaming; simpl. rewrite Hst. repeat case_bool_decide; simplify_eq; lia.
Qed.

Lemma step_measure s s' : step s s' -> (measure s' < measure s)%nat.
Proof. intros Hs. destruct Hs as [a s0 s'' He]. pose proof (fire_measure s''). pose proof (exec_measure _ _ _ He). lia. Qed.

(** No run of the engine is infinite. *)
Lemma step_acc s : Acc (fun y x => step x y) s.
Proof.
  remember (measure s) as n eqn:E. revert s E.
  induction (lt_wf n) as [n _ IH]. intros s ->. constructor. intros y Hy.
  eapply IH; [apply step_measure; exact Hy | done].
Qed.

(** ** The bounded wait ends the barrier *)

Lemma run_until_stable_nil s : run_until_stable [] s = s.
Proof. simpl. by destruct (sy_stable s). Qed.

Lemma fire_subs s : sy_subs (fire s) = sy_subs s.
Proof. unfold fire. by destruct (_ && _). Qed.

(** Timing out, in turn, every index that may still stream reaches
    [Stable]. *)
Lemma timeouts_stable ixs s :
  sync_inv s ->
  (forall j sub, sy_subs s !! j = Some sub -> streaming sub = true -> j ∈ ixs) ->
  sy_stable (run_until_stable (Timeout <$> ixs) s) = true.
Proof.
  revert s. induction ixs as [|i ixs IH]; intros s Hi Hcov; simpl.
  - destruct (sy_stable s) eqn:E; [done|]. apply Hi, Forall_lookup.
    intros j sub Hj. destruct (streaming sub) eqn:Hs; [|done].
    by pose proof (Hcov j sub Hj Hs) as ?%elem_of_nil.
  - destruct (sy_stable s) eqn:E; [done|]. apply IH; [by apply exec_or_skip_inv|].
    intros j sub Hj Hs. destruct (decide (j = i)) as [->|Hne].
    + exfalso. unfold exec_or_skip in Hj. simpl in Hj.
      destruct (sy_subs s !! i) as [sub0|] eqn:Hi0; [|congruence].
      case_decide as Hst.
      * rewrite fire_subs in Hj. simpl in Hj. unfold set_sub in Hj.
        rewrite list_lookup_insert_eq in Hj; [|by eapply lookup_lt_Some].
        injection Hj as <-. unfold streaming in Hs. by apply bool_decide_eq_true in Hs.
      * rewrite Hi0 in Hj. injection Hj as ->. unfold streaming in Hs.
        by apply bool_decide_eq_true in Hs.
    + assert (sy_subs s !! j = Some sub) as Hj'.
      { unfold exec_or_skip in Hj. destruct (exec _ s) as [s'|] eqn:He; [|done].
        rewrite fire_subs in Hj. revert He. simpl. destruct (sy_subs s !! i); [|done].
        case_decide; [|done]. intros [= <-]. simpl in Hj. unfold set_sub in Hj.
        by rewrite list_lookup_insert_ne in Hj. }
      pose proof (Hcov j sub Hj' Hs) as Hin. apply elem_of_cons in Hin as [|]; done.
Qed.

Lemma wait_stable_inv logs acts : sync_inv (wait_stable logs acts).
Proof. apply run_until_stable_inv, run_until_stable_inv, init_inv. Qed.

Lemma wait_stable_rtc logs acts : rtc step (init_sync logs) (wait_stable logs acts).
Proof. unfold wait_stable. etrans; apply run_until_stable_rtc. Qed.

Lemma wait_stable_stable logs acts : sy_stable (wait_stable logs acts) = true.
Proof.
  unfold wait_stable. apply timeouts_stable.
  - apply run_until_stable_inv, init_inv.
  - intros j sub Hj _. apply elem_of_seq. apply lookup_lt_Some in Hj. lia.
Qed.

(** ** Each event id is processed once *)

(** The events handed to [Processed] have distinct ids, they are
    exactly the ids the reducer has seen, and they were delivered in
    this order. *)
Definition proc_inv (s : SyncState) : Prop :=
  NoDup (ev_id <$> sy_processed s) /\
  (forall x, x ∈ rs_seen (sy_reducer s) <-> x ∈ ev_id <$> sy_processed s) /\
  sy_processed s `sublist_of` sy_delivered s.

Lemma fire_proc s : proc_inv s -> proc_inv (fire s).
Proof. unfold fire. by destruct (_ && _). Qed.

Lemma exec_proc a s s' : proc_inv s -> exec a s = Some s' -> proc_inv s'.
Proof.
  intros (Hnd & Hseen & Hsub).
  destruct a as [i|i|i]; simpl; destruct (sy_subs s !! i) as [sub|]; try done.
  - destruct (sub_backlog sub) as [|e rest]; [done|]. case_decide; [done|].
    intros [= <-]. unfold proc_inv; simpl. case_bool_decide as Hf.
    + rewrite fmap_app. change (ev_id <$> [e]) with [ev_id e]. split_and!.
      * apply NoDup_app. split_and!; [done| |apply NoDup_singleton].
        intros x Hx ->%list_elem_of_singleton. by apply Hf, Hseen.
      * intros x. rewrite rs_seen_apply_event, elem_of_app, list_elem_of_singleton, Hseen. tauto.
      * by apply sublist_app.
    + rewrite apply_event_noop by done. split_and!; try done.
      by apply sublist_inserts_r.
  - case_decide; [|done]. by intros [= <-].
  - case_decide; [|done]. by intros [= <-].
Qed.

Lemma proc_init logs : proc_inv (init_sync logs).
Proof.
  apply fire_proc. unfold proc_inv; simpl. split_and!; [constructor| |done].
  intros x. unfold init_state; simpl. set_solver.
Qed.

Lemma proc_run acts s : proc_inv s -> proc_inv (run_until_stable acts s).
Proof.
  revert s. induction acts as [|a acts IH]; intros s Hp; simpl; destruct (sy_stable s); auto.
  apply IH. unfold exec_or_skip. destruct (exec a s) eqn:E; [|done].
  by eapply fire_proc, exec_proc.
Qed.

Lemma wait_stable_proc logs acts : proc_inv (wait_stable logs acts).
Proof. apply proc_run, proc_run, proc_init. Qed.

(** ** The processed events only grow

    Along a run the list of processed events is only ever extended at
    its end, so the events processed at any point of the session's run
    are a prefix of those processed when the wait ends. *)

Lemma run_until_stable_app l1 l2 s :
  run_until_stable (l1 ++ l2) s = run_until_stable l2 (run_until_stable l1 s).
Proof.
  revert s. induction l1 as [|a l1 IH]; intros s; simpl.
  - by destruct (sy_stable s) eqn:E; [destruct l2; simpl; rewrite ?E|].
  - destruct (sy_stable s) eqn:E; [|apply IH]. by destruct l2; simpl; rewrite ?E.
Qed.

Lemma step_processed_prefix s s' : step s s' -> sy_processed s `prefix_of` sy_processed s'.
Proof.
  intros [a s0 s'' He]. transitivity (sy_processed s''); [|unfold fire; by destruct (_ && _)].
  revert He. destruct a as [i|i|i]; simpl; destruct (sy_subs s0 !! i) as [sub|]; try done.
  - destruct (sub_backlog sub); [done|]. case_decide; [done|]. intros [= <-]. simpl.
    case_bool_decide; [by apply prefix_app_r|done].
  - case_decide; [|done]. by intros [= <-].
  - case_decide; [|done]. by intros [= <-].
Qed.

Lemma rtc_processed_prefix s s' : rtc step s s' -> sy_processed s `prefix_of` sy_processed s'.
Proof.
  induction 1 as [|x y z Hxy _ IH]; [done|]. etrans; [|exact IH]. by apply step_processed_prefix.
Qed.

(** The events processed after the first [k] actions of the network. *)
Lemma wait_stable_processed_prefix k logs acts :
  sy_processed (run_until_stable (take k acts) (init_sync logs))
  `prefix_of` sy_processed (wait_stable logs acts).
Proof.
  apply rtc_processed_prefix. unfold wait_stable.
  assert (run_until_stable acts (init_sync logs)
          = run_until_stable (drop k acts) (run_until_stable (take k acts) (init_sync logs))) as ->
    by by rewrite <-run_until_stable_app, take_drop.
  etrans; [apply run_until_stable_rtc|]. apply run_until_stable_rtc.
Qed.

(** ** The relays and their logs never change *)

Definition sub_src (sub : Sub) : string * list LogEvent := (sub_relay sub, sub_log sub).

Lemma set_sub_src s i sub sub' :
  sy_subs s !! i = Some sub -> sub_src sub' = sub_src sub ->
  sub_src <$> set_sub s i sub' = sub_src <$> sy_subs s.
Proof.
  intros Hi Hs. unfold set_sub. rewrite list_fmap_insert, Hs. apply list_insert_id.
  by rewrite list_lookup_fmap, Hi.
Qed.

Lemma exec_src a s s' : exec a s = Some s' -> sub_src <$> sy_subs s' = sub_src <$> sy_subs s.
Proof.
  destruct a as [i|i|i]; simpl; destruct (sy_subs s !! i) as [sub|] eqn:Hi; try done.
  - destruct (sub_backlog sub) as [|e rest]; [done|]. case_decide; [done|].
    intros [= <-]. by eapply set_sub_src.
  - case_decide; [|done]. intros [= <-]. by eapply set_sub_src.
  - case_decide; [|done]. intros [= <-]. by eapply set_sub_src.
Qed.

Lemma rtc_step_src s s' : rtc step s s' -> sub_src <$> sy_subs s' = sub_src <$> sy_subs s.
Proof.
  induction 1 as [|x y z Hxy _ IH]; [done|]. rewrite IH.
  destruct Hxy as [a x s'' He]. rewrite fire_subs. by eapply exec_src.
Qed.

Lemma init_src logs : sub_src <$> sy_subs (init_sync logs) = logs.
Proof.
  unfold init_sync. rewrite fire_subs; simpl. rewrite <-list_fmap_compose. unfold compose, sub_src; simpl.
  induction logs as [|[r l] logs IH]; simpl; [done|]. by f_equal.
Qed.

Lemma wait_stable_src logs acts : sub_src <$> sy_subs (wait_stable logs acts) = logs.
Proof. rewrite (rtc_step_src _ _ (wait_stable_rtc logs acts)). apply init_src. Qed.

(** ** What a finished wait shows *)

Lemma eosed_delivered subs :
  Forall sub_ok subs -> Forall (fun sub => sub_status sub = Eosed) subs ->
  sub_delivered <$> subs = sub_log <$> subs.
Proof.
  induction 1 as [|sub subs [Hdl Heos] _ IH]; intros Hall; [done|].
  apply Forall_cons in Hall as [He Hall]. rewrite !fmap_cons, IH by done.
  f_equal. by rewrite <-Hdl, Heos, app_nil_r.
Qed.

Lemma wait_stable_logs logs acts : sub_log <$> sy_subs (wait_stable logs acts) = snd <$> logs.
Proof.
  pose proof (wait_stable_src logs acts) as E. rewrite <-E at 2.
  rewrite <-list_fmap_compose. by apply list_fmap_ext.
Qed.

Lemma wait_stable_replay logs acts :
  sy_reducer (wait_stable logs acts) = replay init_state (sy_delivered (wait_stable logs acts)).
Proof. by destruct (wait_stable_inv logs acts) as [(Hr & _) _]. Qed.

Lemma concat_delivered_log subs e :
  Forall sub_ok subs -> e ∈ concat (sub_delivered <$> subs) -> e ∈ concat (sub_log <$> subs).
Proof.
  induction 1 as [|sub subs [Hdl _] _ IH]; [done|]. rewrite !fmap_cons. simpl.
  rewrite !elem_of_app, <-Hdl, elem_of_app. intros [|]; auto.
Qed.

(** Every event the session saw is stored by one of the relays. *)
Lemma wait_stable_delivered_in_logs logs acts e :
  e ∈ sy_delivered (wait_stable logs acts) -> e ∈ concat (snd <$> logs).
Proof.
  destruct (wait_stable_inv logs acts) as [(_ & Hok & Hp & _) _]. intros He.
  rewrite <-(wait_stable_logs logs acts). apply concat_delivered_log; [done|]. by rewrite <-Hp.
Qed.

Lemma nsteps_measure n s s' : nsteps step n s s' -> (n + measure s' <= measure s)%nat.
Proof. induction 1 as [|n x y z Hxy _ IH]; [lia|]. pose proof (step_measure _ _ Hxy). lia. Qed.

Lemma init_measure logs :
  (measure (init_sync logs) <= sum_list_with (fun rl => length rl.2 + 2) logs + 1)%nat.
Proof.
  unfold init_sync. etrans; [apply fire_measure|]. unfold measure; simpl.
  apply Nat.add_le_mono_r. induction logs as [|rl logs IH]; simpl; [done|].
  unfold weight at 1, streaming at 1; simpl.
  apply Nat.add_le_mono_l, IH.
Qed.

(** C13: the barrier fires, once.  Whatever the network does before
    the wait elapses, the session's run is a run of the engine from the
    opened subscriptions, it ends with [Stable] fired exactly once, and
    no relay is still streaming. *)
Theorem wait_stable_fires_once logs acts :
  rtc step (init_sync logs) (wait_stable logs acts) /\
  sy_stable (wait_stable logs acts) = true /\ sy_fired (wait_stable logs acts) = 1%nat /\
  Forall (fun sub => sub_status sub <> Streaming) (sy_subs (wait_stable logs acts)).
Proof.
  pose proof (wait_stable_stable logs acts) as Hst.
  destruct (wait_stable_inv logs acts) as [(_ & _ & _ & Hf & Hs) _].
  split_and!; [apply wait_stable_rtc|done|by rewrite Hf, Hst|].
  eapply Forall_impl; [by apply Hs|]. intros sub Hn. unfold streaming in Hn.
  by apply bool_decide_eq_false in Hn.
Qed.

(** C14: termination.  Every run of the engine from the opened
    subscriptions has at most as many steps as the logs have events,
    plus two per relay, plus one; the session's run is one of them. *)
Theorem wait_stable_terminates logs acts :
  (exists n, nsteps step n (init_sync logs) (wait_stable logs acts)) /\
  (forall n s, nsteps step n (init_sync logs) s ->
     (n <= sum_list_with (fun rl => length rl.2 + 2) logs + 1)%nat).
Proof.
  split; [apply rtc_nsteps, wait_stable_rtc|].
  intros n s' Hn. pose proof (nsteps_measure _ _ _ Hn). pose proof (init_measure logs). lia.
Qed.

(** C12: refinement.  When the wait ends, the wallet state is the
    replay of the events delivered, in the order of delivery; these are
    a permutation of the concatenation of one prefix of each relay's log
    (the whole log for a relay that sent EOSE); and the events reported as processed are
    the delivered ones, once per identifier, in delivery order. *)
Theorem wait_stable_refines logs acts :
  let s := wait_stable logs acts in
  sy_reducer s = replay init_state (sy_delivered s) /\
  sy_delivered s ≡ₚ concat (sub_delivered <$> sy_subs s) /\
  Forall2 (fun rl sub => sub_delivered sub `prefix_of` rl.2 /\
                         (sub_status sub = Eosed -> sub_delivered sub = rl.2)) logs (sy_subs s) /\
  NoDup (ev_id <$> sy_processed s) /\ sy_processed s `sublist_of` sy_delivered s /\
  (forall e, e ∈ sy_delivered s -> ev_id e ∈ ev_id <$> sy_processed s).
Proof.
  intros s. destruct (wait_stable_inv logs acts) as [(Hr & Hok & Hp & _) _].
  destruct (wait_stable_proc logs acts) as (Hnd & Hseen & Hsub).
  split_and!; try done.
  - rewrite <-(wait_stable_src logs acts). apply Forall2_fmap_l, Forall_Forall2_diag.
    eapply Forall_impl; [exact Hok|]. intros sub [Hdl Heos]. unfold sub_src; simpl.
    split; [exists (sub_backlog sub); by rewrite Hdl|]. intros Hst. by rewrite <-Hdl, Heos, app_nil_r.
  - intros e He. apply Hseen. rewrite Hr. by apply rs_seen_replay.
Qed.

(** Completeness: when every relay sent EOSE before the wait elapsed,
    the wallet state is the replay of all the relays' logs, in whatever
    order they were delivered, provided the events are pairwise
    compatible. *)
Lemma wait_stable_complete logs acts :
  Forall (fun sub => sub_status sub = Eosed) (sy_subs (wait_stable logs acts)) ->
  (forall e1 e2, e1 ∈ concat (snd <$> logs) -> e2 ∈ concat (snd <$> logs) -> events_compat e1 e2) ->
  sy_reducer (wait_stable logs acts) = replay init_state (concat (snd <$> logs)).
Proof.
  intros Heos Hc. destruct (wait_stable_inv logs acts) as [(Hr & Hok & Hp & _) _].
  rewrite eosed_delivered, wait_stable_logs in Hp by done. rewrite Hr.
  apply replay_perm; [done|]. intros e1 e2 H1 H2. apply Hc; by rewrite <-Hp.
Qed.

(** ** Witnesses: two relays storing an overlapping log *)

Definition wlogs : list (string * list LogEvent) :=
  [("wss://a", [ev_recv]); ("wss://b", [ev_recv; ev_mints])].
(** Relay b delivers first, relay a re-delivers the receive, both send EOSE. *)
Definition wacts : list action := [Deliver 1; Deliver 0; Eose 0; Deliver 1; Eose 1].

Lemma wait_stable_terminates_witness :
  exists n, nsteps step n (init_sync wlogs) (wait_stable wlogs wacts) /\ (n <= 8)%nat.
Proof.
  destruct (wait_stable_terminates wlogs wacts) as [[n Hn] Hb]. exists n.
  split; [exact Hn | exact (Hb n _ Hn)].
Defined.

End Sync.
