(* ===== verification/Publish.v ===== *)
(** * Publish fan-out and the callbacks of [prepareWallet]

    [prepareWallet] (src/wallet.go 16-82) installs two callbacks on the
    wallet:
    - [w.Processed] (lines 33-39), called for every replayed event: a
      verbose line when the event applied, an error line when it did not
      ([processed]);
    - [w.PublishUpdate] (lines 41-75), called for every event a wallet
      operation emits: it chooses a description of the update
      ([update_description]), publishes the event to the wallet relays
      through [sys.Pool.PublishMany] and reports every relay's outcome on
      one line ([report_result], [report_loop], [publish_update]).
    The relay pool is the [RelayPool] class: [publish_many] yields one
    outcome per destination relay.  Its outcomes are only reported: the
    callback returns nothing, so a failing relay never fails the
    operation that emitted the event. *)

From S2P Require Import Prelude Cashu Ledger Reducer.
Import Cashu Reducer.

Module Publish.

(** One element of the stream [PublishMany] yields. *)
Record PublishResult := mkPublishResult {
  relay_url : string;
  res_error : option string
}.

(** The relay pool's publish primitive: one outcome per destination. *)
Class RelayPool := {
  publish_many : list string -> LogEvent -> list PublishResult;
  publish_many_relays relays ev : relay_url <$> publish_many relays ev ≡ₚ relays
}.

(** The arguments of [PublishUpdate(event, deleted, received, change, isHistory)]. *)
Record Update := mkUpdate {
  up_event : LogEvent;
  up_deleted : option Token;
  up_received : option Token;
  up_change : option Token;
  up_history : bool
}.

(** The Nostr kind of the event carrying a payload (NIP-60: 7375 token,
    7376 history, 17375 wallet, 10019 nutzap info, 9321 nutzap, 5
    deletion). *)
Definition event_kind (e : LogEvent) : N :=
  match ev_payload e with
  | History => 7376
  | TokenReceived _ | TokenChange _ => 7375
  | TokenDeleted _ => 5
  | MintList _ _ | PrivKeyReg _ => 17375
  | NutzapInfo => 10019
  | Nutzap _ _ _ _ => 9321
  | Malformed => 0
  end.

Section Callbacks.
(** The presentation helpers of the CLI: [colors.errorf],
    [colors.successf], and the [%s] of an event and of an error. *)
Context (color_error color_success : string -> string)
        (show_event : LogEvent -> string) (show_error : error -> string).

(** [w.Processed = func(evt, err) {...}] *)
Definition processed (evt : LogEvent) (err : option error) : out :=
  match err with
  | None => LogVerbose ("processed event " +:+ show_event evt +:+ nl)
  | Some e => Log ("error processing event " +:+ show_event evt +:+ ": "
                   +:+ show_error e +:+ nl)
  end.

(** ["%s with %d proofs totalling %d"] on a token, the mint without its
    ["https://"] prefix. *)
Definition token_summary (t : Token) : string :=
  (cut_prefix (token_mint t) "https://").1 +:+ " with "
  +:+ fmt_d (N.of_nat (length (token_proofs t))) +:+ " proofs totalling "
  +:+ fmt_d (proofs_amount (token_proofs t)).

(** The [desc] chosen by the if/else-if chain of lines 42-57. *)
Definition update_description (u : Update) : string :=
  match up_received u, up_change u, up_deleted u with
  | Some t, _, _ => "received from " +:+ token_summary t
  | None, Some t, _ => "change from " +:+ token_summary t
  | None, None, Some t => "deleting a used token from " +:+ token_summary t
  | None, None, None => if up_history u then "history entry" else "wallet"
  end.

(** [cleanUrl, _ := strings.CutPrefix(res.RelayURL, "wss://")], line 62. *)
Definition clean_url (u : string) : string := (cut_prefix u "wss://").1.

(** The body of the loop over the outcomes, lines 62-72. *)
Definition report_result (r : PublishResult) : string :=
  let cleanUrl := clean_url (relay_url r) in
  match res_error r with
  | Some e => color_error cleanUrl +:+ ": " +:+ e
  | None => color_success cleanUrl +:+ ": ok"
  end.

(** The loop with its [first] flag, lines 60-73: a [", "] before every
    outcome but the first. *)
Fixpoint report_loop (first : bool) (rs : list PublishResult) : list out :=
  match rs with
  | [] => []
  | r :: rs' => (if first then [] else [Log ", "]) ++ Log (report_result r) :: report_loop false rs'
  end.

(** The whole [PublishUpdate] callback. *)
Definition publish_update `{RelayPool} (relays : list string) (u : Update) : list out :=
  Log ("- saving kind:" +:+ fmt_d (event_kind (up_event u)) +:+ " event ("
       +:+ update_description u +:+ ")... ")
  :: report_loop true (publish_many relays (up_event u)) ++ [Log nl].

End Callbacks.

(** The text written to standard error by a list of outputs. *)
Definition log_text (os : list out) : string :=
  foldr (fun o acc => match o with Log s => s +:+ acc | _ => acc end) "" os.

(** The relays that accepted an event, and those that did not. *)
Definition successes (rs : list PublishResult) : list string :=
  relay_url <$> filter (fun r => res_error r = None) rs.
Definition failures (rs : list PublishResult) : list string :=
  relay_url <$> filter (fun r => res_error r <> None) rs.

(** ** Theorems *)

Section Theorems.
Context (color_error color_success : string -> string).

Lemma report_loop_false rs :
  log_text (report_loop color_error color_success false rs)
  = foldr (fun r acc => ", " +:+ report_result color_error color_success r +:+ acc) "" rs.
Proof. induction rs as [|r rs IH]; simpl; [done|]. by rewrite IH. Qed.

Lemma sep_foldr_concat (f : PublishResult -> string) r rs :
  f r +:+ foldr (fun r acc => ", " +:+ f r +:+ acc) "" rs = String.concat ", " (f <$> r :: rs).
Proof.
  revert r. induction rs as [|r' rs IH]; intros r.
  - apply str_app_nil_r.
  - change (String.concat ", " (f <$> r :: r' :: rs))
      with (f r +:+ ", " +:+ String.concat ", " (f <$> r' :: rs)).
    rewrite <-IH. reflexivity.
Qed.

Lemma report_loop_join rs :
  log_text (report_loop color_error color_success true rs)
  = String.concat ", " (report_result color_error color_success <$> rs).
Proof.
  destruct rs as [|r rs]; [done|]. simpl.
  rewrite report_loop_false. apply sep_foldr_concat.
Qed.

Lemma log_text_app os1 os2 : log_text (os1 ++ os2) = log_text os1 +:+ log_text os2.
Proof.
  induction os1 as [|o os1 IH]; [done|]. simpl. rewrite IH.
  destruct o; [done| apply str_app_assoc | done | done].
Qed.

(** C15: the [PublishUpdate] callback logs one line: the kind and the
    description of the update, then one entry per destination relay
    (the outcomes [PublishMany] yields, one per relay), joined by
    [", "], with no leading or trailing separator. *)
Theorem publish_update_log `{RelayPool} relays u :
  log_text (publish_update color_error color_success relays u)
  = "- saving kind:" +:+ fmt_d (event_kind (up_event u)) +:+ " event ("
    +:+ update_description u +:+ ")... "
    +:+ (String.concat ", " (report_result color_error color_success <$> publish_many relays (up_event u))
         +:+ nl) /\
  relay_url <$> publish_many relays (up_event u) ≡ₚ relays.
Proof.
  split; [|apply publish_many_relays].
  unfold publish_update. simpl. rewrite log_text_app, report_loop_join. simpl.
  by rewrite str_app_nil_r, <-!str_app_assoc.
Qed.

(** The outcomes of a publish partition the destination relays into
    those that accepted the event and those that failed. *)
(** The callbacks write to standard error only. *)
Lemma processed_is_log show_event show_error e err : is_log (processed show_event show_error e err).
Proof. by destruct err. Qed.

Lemma report_loop_logs first rs : Forall is_log (report_loop color_error color_success first rs).
Proof.
  revert first. induction rs as [|r rs IH]; intros first; simpl; [constructor|].
  apply Forall_app. split; [destruct first; repeat constructor | by constructor].
Qed.

Lemma publish_update_logs `{RelayPool} relays u :
  Forall is_log (publish_update color_error color_success relays u).
Proof.
  constructor; [done|]. apply Forall_app. split; [apply report_loop_logs | by repeat constructor].
Qed.

Lemma publish_outcomes_partition `{RelayPool} relays ev :
  successes (publish_many relays ev) ++ failures (publish_many relays ev) ≡ₚ relays.
Proof.
  unfold successes, failures. rewrite <-fmap_app, filter_app_complement.
  apply publish_many_relays.
Qed.
End Theorems.

(** ** The scenario of one relay timing out *)

(** A pool in which the relay ["wss://dead"] times out. *)
Definition timeout_publish (relays : list string) (ev : LogEvent) : list PublishResult :=
  (fun r => mkPublishResult r (if decide (r = "wss://dead") then Some "timeout" else None))
    <$> relays.

Lemma timeout_publish_relays relays ev : relay_url <$> timeout_publish relays ev ≡ₚ relays.
Proof. unfold timeout_publish. by rewrite <-list_fmap_compose, list_fmap_id. Qed.

#[local] Instance timeout_pool : RelayPool :=
  {| publish_many := timeout_publish; publish_many_relays := timeout_publish_relays |}.

(** A test run: publishing a received token's event to three relays, one of
    which times out, reports two successes and one failure on one line,
    and the callback completes: the operation is not failed. *)
Example publish_update_one_timeout :
  let u := mkUpdate (mkEvent "e1" (TokenReceived (mkToken "https://a" [mkProof "https://a" 5 "s1"])))
             None (Some (mkToken "https://a" [mkProof "https://a" 5 "s1"])) None false in
  let relays := ["wss://r1"; "wss://r2"; "wss://dead"] in
  log_text (publish_update id id relays u)
    = "- saving kind:7375 event (received from a with 1 proofs totalling 5)... r1: ok, r2: ok, dead: timeout" +:+ nl
  /\ successes (publish_many relays (up_event u)) = ["wss://r1"; "wss://r2"]
  /\ failures (publish_many relays (up_event u)) = ["wss://dead"].
Proof. vm_compute. auto. Qed.

End Publish.
