(* ===== verification/Ops.v ===== *)
(** * Mutation operations: send, pay and receive

    The wallet operations the commands [nak wallet send], [pay] and
    [receive] call (src/wallet.go 247, 286, 208), modelled from the
    specification (4.1, 4.5):
    - [choose_tokens]: proof selection from ONE mint: for each candidate
      mint (the one given with [--mint], or every mint holding tokens),
      live tokens of that mint are taken in order until their value
      reaches the amount ([take_until]); no candidate reaching it is
      [InsufficientFunds];
    - the mint is the [MintService] class: [swap] re-issues the chosen
      proofs as the amount to send and a change, [melt] pays an invoice;
    - [send], [pay_bolt11] and [receive] return their result together
      with the payloads of the log events that describe the change of
      the ledger (deletions of the spent tokens, a change token, a
      received token); nothing is emitted on an error, so a failing
      mint leaves the ledger as it was. *)

From S2P Require Import Prelude Cashu Ledger Reducer.
Import Cashu Ledger Reducer.

Module Ops.

(** The mint collaborator and the promises the wallet relies on. *)
Class MintService := {
  swap : string -> list Proof -> N -> result (list Proof * list Proof);
  swap_amounts mint ps a send change :
    swap mint ps a = Ok (send, change) ->
    proofs_amount send = a /\ proofs_amount send + proofs_amount change = proofs_amount ps;
  quote_invoice : string -> string -> result N;
  melt : string -> list Proof -> string -> result (string * list Proof);
  melt_amounts mint ps inv pre change :
    melt mint ps inv = Ok (pre, change) ->
    exists a, quote_invoice mint inv = Ok a /\ proofs_amount change + a = proofs_amount ps
}.

(** Take tokens in order until their value reaches [need]. *)
Fixpoint take_until (need : N) (ts : list (TokenId * Token))
    : option (list (TokenId * Token)) :=
  if decide (need = 0) then Some []
  else match ts with
       | [] => None
       | t :: ts' =>
           if decide (need <= token_amount t.2) then Some [t]
           else (t ::.) <$> take_until (need - token_amount t.2) ts'
       end.

Definition sel_total (sel : list (TokenId * Token)) : N :=
  sumN (fun kv => token_amount kv.2) sel.

Definition sel_proofs (sel : list (TokenId * Token)) : list Proof :=
  concat ((fun kv => token_proofs kv.2) <$> sel).

Definition tokens_of_mint (m : string) (ts : list (TokenId * Token)) :=
  filter (fun kv => token_mint kv.2 = m) ts.

(** The mints tried, in order: the requested one, or every mint that
    holds a live token. *)
Definition candidate_mints (w : Wallet) (mint_opt : option string) : list string :=
  match mint_opt with
  | Some m => [m]
  | None => remove_dups ((fun kv => token_mint kv.2) <$> map_to_list (tokens w))
  end.

Fixpoint first_choice (amount : N) (ts : list (TokenId * Token)) (ms : list string)
    : option (string * list (TokenId * Token)) :=
  match ms with
  | [] => None
  | m :: ms' =>
      match take_until amount (tokens_of_mint m ts) with
      | Some sel => Some (m, sel)
      | None => first_choice amount ts ms'
      end
  end.

(** Proof selection among the mints [ms], in their order. *)
Definition choose_from (w : Wallet) (amount : N) (ms : list string)
    : result (string * list (TokenId * Token)) :=
  match first_choice amount (map_to_list (tokens w)) ms with
  | Some c => Ok c
  | None => Err InsufficientFunds
  end.

Definition choose_tokens (w : Wallet) (amount : N) (mint_opt : option string)
    : result (string * list (TokenId * Token)) :=
  choose_from w amount (candidate_mints w mint_opt).

(** The payloads that retire the spent tokens and store the change. *)
Definition spend_payloads (m : string) (sel : list (TokenId * Token)) (change : list Proof)
    : list payload :=
  ((fun kv => TokenDeleted kv.1) <$> sel)
  ++ match change with [] => [] | _ => [TokenChange (mkToken m change)] end.

(** The log events carrying the payloads of an operation, with the
    identifiers the signer gives them. *)
Definition emit (ids : list string) (ps : list payload) : list LogEvent :=
  zip_with mkEvent ids ps.

Section WithMint.
Context `{MintService}.

(** [w.Send(ctx, amount, opts...)]: the proofs to hand over, their mint,
    and the payloads of the events published. *)
Definition send (w : Wallet) (amount : N) (mint_opt : option string)
    : result (list Proof * string * list payload) :=
  match choose_tokens w amount mint_opt with
  | Err e => Err e
  | Ok (m, sel) =>
      match swap m (sel_proofs sel) amount with
      | Err e => Err e
      | Ok (sp, change) => Ok (sp, m, spend_payloads m sel change)
      end
  end.

(** [w.PayBolt11(ctx, invoice, opts...)]: the amount is quoted by the
    mint; the selection is committed only after the mint paid. *)
Definition pay_bolt11 (w : Wallet) (invoice : string) (mint_opt : option string)
    : result (string * list payload) :=
  let m0 := match mint_opt with Some m => m | None => default "" (head (mints w)) end in
  match quote_invoice m0 invoice with
  | Err e => Err e
  | Ok amount =>
      match choose_tokens w amount (Some m0) with
      | Err e => Err e
      | Ok (m, sel) =>
          match melt m (sel_proofs sel) invoice with
          | Err e => Err e
          | Ok (preimage, change) => Ok (preimage, spend_payloads m sel change)
          end
      end
  end.

(** [w.Receive(ctx, proofs, mint, opts...)]: store the proofs, swapped
    first into the destination mint when one is given. *)
Definition receive (proofs : list Proof) (mint : string) (dest : option string)
    : result (list payload) :=
  match dest with
  | Some d =>
      if decide (d = mint) then Ok [TokenReceived (mkToken mint proofs)]
      else match swap d proofs (proofs_amount proofs) with
           | Err _ => Err UntrustedMint
           | Ok (ps, _) => Ok [TokenReceived (mkToken d ps)]
           end
  | None => Ok [TokenReceived (mkToken mint proofs)]
  end.
(** The spend of [nip61.SendNutzap]: a [Send] restricted to the mints
    the recipient accepts, tried in the order the recipient lists them. *)
Definition nutzap_spend (w : Wallet) (accepted : list string) (amount : N)
    : result (list Proof * string * list payload) :=
  match choose_from w amount accepted with
  | Err e => Err e
  | Ok (m, sel) =>
      match swap m (sel_proofs sel) amount with
      | Err e => Err e
      | Ok (sp, change) => Ok (sp, m, spend_payloads m sel change)
      end
  end.

End WithMint.

(** ** Proof selection *)

Lemma sel_total_app l1 l2 : sel_total (l1 ++ l2) = sel_total l1 + sel_total l2.
Proof. apply sumN_app. Qed.

Lemma proofs_amount_sel_proofs sel : proofs_amount (sel_proofs sel) = sel_total sel.
Proof.
  induction sel as [|kv sel IH]; [done|].
  change (sel_proofs (kv :: sel)) with (token_proofs kv.2 ++ sel_proofs sel).
  rewrite proofs_amount_app, IH. reflexivity.
Qed.

Lemma take_until_some n ts sel :
  take_until n ts = Some sel -> (exists rest, ts = sel ++ rest) /\ n <= sel_total sel.
Proof.
  revert n sel. induction ts as [|t ts IH]; intros n sel; simpl;
    case_decide; intros Hs; simplify_eq.
  - split; [by exists [] | simpl; lia].
  - split; [by exists (t :: ts) | simpl; lia].
  - case_decide; simplify_eq.
    + split; [by exists ts | unfold sel_total; simpl; lia].
    + destruct (take_until _ ts) as [sel'|] eqn:E; simplify_eq/=.
      destruct (IH _ _ E) as [[rest ->] Hle]. split; [by exists rest|].
      unfold sel_total in *; simpl. lia.
Qed.

Lemma take_until_none n ts : take_until n ts = None <-> sel_total ts < n.
Proof.
  revert n. induction ts as [|t ts IH]; intros n; simpl; case_decide as Hn;
    unfold sel_total in *; simpl.
  - split; [discriminate|lia].
  - split; [intros _; lia|done].
  - split; [discriminate|lia].
  - case_decide as Hle; [split; [discriminate|lia]|].
    rewrite fmap_None, IH. lia.
Qed.

Lemma first_choice_some amount ts ms m sel :
  first_choice amount ts ms = Some (m, sel) ->
  m ∈ ms /\ take_until amount (tokens_of_mint m ts) = Some sel.
Proof.
  induction ms as [|m' ms IH]; simpl; [done|].
  destruct (take_until amount (tokens_of_mint m' ts)) eqn:E.
  - intros [= <- <-]. split; [left|done].
  - intros H. destruct (IH H). split; [by right|done].
Qed.

Lemma first_choice_none amount ts ms :
  first_choice amount ts ms = None <->
  forall m, m ∈ ms -> sel_total (tokens_of_mint m ts) < amount.
Proof.
  induction ms as [|m ms IH]; simpl.
  - split; [intros _ m Hm; by apply elem_of_nil in Hm | done].
  - destruct (take_until amount (tokens_of_mint m ts)) eqn:E.
    + split; [done|]. intros H. specialize (H m (list_elem_of_here _ _)).
      apply take_until_none in H. congruence.
    + apply take_until_none in E. rewrite IH.
      split; [intros H x Hx; apply elem_of_cons in Hx as [->|Hx]; auto
             | intros H x Hx; apply H; by right].
Qed.

(** selection fails with [InsufficientFunds] exactly when no
    candidate mint holds, in live tokens of that mint alone, the amount. *)
Lemma choose_tokens_insufficient w amount mint_opt :
  choose_tokens w amount mint_opt = Err InsufficientFunds <->
  forall m, m ∈ candidate_mints w mint_opt ->
    sel_total (tokens_of_mint m (map_to_list (tokens w))) < amount.
Proof.
  unfold choose_tokens, choose_from. rewrite <-first_choice_none.
  destruct (first_choice _ _ _); split; congruence.
Qed.

(** a successful selection takes distinct live tokens, all of the
    chosen mint, worth at least the amount. *)
Lemma choose_from_ok w amount ms m sel :
  choose_from w amount ms = Ok (m, sel) ->
  NoDup (fst <$> sel) /\
  (forall kv, kv ∈ sel -> tokens w !! kv.1 = Some kv.2 /\ token_mint kv.2 = m) /\
  amount <= sel_total sel.
Proof.
  unfold choose_from. destruct (first_choice _ _ _) as [[m' sel']|] eqn:E; [|done].
  intros [= -> ->]. apply first_choice_some in E as [_ Ht].
  apply take_until_some in Ht as [[rest Hts] Hle].
  assert (sel `sublist_of` map_to_list (tokens w)) as Hsub.
  { transitivity (tokens_of_mint m (map_to_list (tokens w))); [|apply sublist_filter].
    rewrite Hts. by apply sublist_inserts_r. }
  split_and!; [| |done].
  - apply (sublist_NoDup _ (fst <$> map_to_list (tokens w))); [apply NoDup_fst_map_to_list|]. by apply fmap_sublist.
  - intros [i t] Hkv. split.
    + apply elem_of_map_to_list. by eapply elem_of_sublist.
    + assert ((i, t) ∈ tokens_of_mint m (map_to_list (tokens w))) as Hf
        by (rewrite Hts; set_solver).
      by apply list_elem_of_filter in Hf as [? _].
Qed.

(** ** Re-absorbing the events of an operation *)

Lemma replay_app s l1 l2 : replay s (l1 ++ l2) = replay (replay s l1) l2.
Proof. apply foldl_app. Qed.

Lemma elem_of_union_singleton {A} `{Countable A} (x y : A) (X : gset A) :
  x ∈ {[y]} ∪ X <-> x = y \/ x ∈ X.
Proof. by rewrite elem_of_union, elem_of_singleton. Qed.

Lemma replay_deletions s ids sel :
  length ids = length sel -> NoDup ids -> (forall i, i ∈ ids -> i ∉ rs_seen s) ->
  NoDup (fst <$> sel) -> (forall kv, kv ∈ sel -> tokens (rs_wallet s) !! kv.1 = Some kv.2) ->
  let s' := replay s (emit ids ((fun kv => TokenDeleted kv.1) <$> sel)) in
  balance (rs_wallet s') + sel_total sel = balance (rs_wallet s) /\
  (forall j, j ∉ fst <$> sel -> tokens (rs_wallet s') !! j = tokens (rs_wallet s) !! j) /\
  (forall j, j ∈ rs_tombs s' <-> j ∈ rs_tombs s \/ j ∈ fst <$> sel) /\
  (forall x, x ∈ rs_seen s' <-> x ∈ rs_seen s \/ x ∈ ids).
Proof.
  revert s ids. induction sel as [|[k t] sel IH]; intros s [|i ids] Hlen Hnd Hfresh Hnds Hlive;
    simpl in *; try lia.
  - split_and!; [unfold sel_total; simpl; lia | done | |];
      intros x; rewrite elem_of_nil; tauto.
  - change (list_fmap (TokenId * Token)%type payload ?f sel) with (f <$> sel) in *.
    apply NoDup_cons in Hnd as [Hi Hnd]. apply NoDup_cons in Hnds as [Hk Hnds].
    assert (i ∉ rs_seen s) as Hs by (apply Hfresh; left).
    set (s1 := apply_event (mkEvent i (TokenDeleted k)) s).
    assert (tokens (rs_wallet s1) = delete k (tokens (rs_wallet s)) /\
            rs_tombs s1 = {[k]} ∪ rs_tombs s /\ rs_seen s1 = {[i]} ∪ rs_seen s) as (Ht1 & Htb1 & Hs1)
      by (unfold s1; by rewrite apply_event_fresh).
    assert (balance (rs_wallet s1) + token_amount t = balance (rs_wallet s)) as Hb1
      by (apply (apply_event_delete_balance _ k); [done|done|apply (Hlive (k, t)); left]).
    destruct (IH s1 ids) as (Hb & Hl & Htb & Hsn); [lia|done| | done | |].
    { intros x Hx. rewrite Hs1, elem_of_union_singleton.
      intros [->|Hx']; [done|]. by apply (Hfresh x); [right|]. }
    { intros [k' t'] Hkv. rewrite Ht1, lookup_delete_ne.
      - apply (Hlive (k', t')). by right.
      - simpl. intros <-. apply Hk. apply list_elem_of_fmap. by exists (k, t'). }
    split_and!.
    + unfold sel_total in *; simpl. lia.
    + intros j Hj. rewrite elem_of_cons in Hj.
      rewrite Hl, Ht1, lookup_delete_ne; [done| |]; [intros ->|]; tauto.
    + intros j. rewrite Htb, Htb1, elem_of_union_singleton, elem_of_cons. tauto.
    + intros x. rewrite Hsn, Hs1, elem_of_union_singleton, elem_of_cons. tauto.
Qed.

(** The change token of a spend is fresh: neither tombstoned, nor live,
    nor deleted by the same operation. *)
Definition change_fresh (s : RState) (ps : list payload) : Prop :=
  forall t, TokenChange t ∈ ps ->
    (token_id t ∉ rs_tombs s) /\ tokens (rs_wallet s) !! token_id t = None /\
    TokenDeleted (token_id t) ∉ ps.

Definition change_fresh_b (s : RState) (ps : list payload) : bool :=
  forallb (fun p => match p with
                    | TokenChange t =>
                        bool_decide ((token_id t ∉ rs_tombs s) /\
                                     tokens (rs_wallet s) !! token_id t = None /\
                                     TokenDeleted (token_id t) ∉ ps)
                    | _ => true
                    end) ps.

Lemma change_fresh_b_sound s ps : change_fresh_b s ps = true -> change_fresh s ps.
Proof.
  intros H t Ht%list_elem_of_In. unfold change_fresh_b in H.
  rewrite forallb_forall in H. specialize (H _ Ht). simpl in H.
  by apply bool_decide_eq_true in H.
Qed.

Lemma ids_fresh (ids : list string) (X : gset string) :
  Forall (fun i => i ∉ X) ids -> forall i, i ∈ ids -> i ∉ X.
Proof. rewrite Forall_forall. intros H i Hi. by apply H. Qed.

(** Re-absorbing the events of a spend: the chosen tokens are retired,
    the change is stored, and the balance drops by what the change does
    not give back. *)
Lemma spend_conservation w a ms m sel change x s ids :
  choose_from w a ms = Ok (m, sel) ->
  proofs_amount change + x = sel_total sel -> rs_wallet s = w ->
  length ids = length (spend_payloads m sel change) -> NoDup ids ->
  (forall i, i ∈ ids -> i ∉ rs_seen s) -> change_fresh s (spend_payloads m sel change) ->
  balance (rs_wallet (replay s (emit ids (spend_payloads m sel change)))) + x = balance w.
Proof.
  intros Hc Hsum <- Hlen Hnd Hfresh Hchange.
  destruct (choose_from_ok _ _ _ _ _ Hc) as (Hnds & Hlive & _).
  unfold spend_payloads in *. rewrite length_app, length_fmap in Hlen.
  rewrite <-(take_drop (length sel) ids) in Hnd, Hfresh |- *.
  unfold emit. rewrite zip_with_app by (rewrite length_take, length_fmap; lia).
  rewrite replay_app. fold (emit (take (length sel) ids) ((fun kv => TokenDeleted kv.1) <$> sel)).
  apply NoDup_app in Hnd as (Hnd1 & Hdisj & Hnd2).
  destruct (replay_deletions s (take (length sel) ids) sel) as (Hb & Hl & Htb & Hsn);
    [rewrite length_take; lia | done | intros i Hi; apply Hfresh; set_solver | done
    | intros kv Hkv; by apply Hlive | ].
  destruct change as [|c ch].
  - simpl in Hlen.
    rewrite (nil_length_inv (drop _ ids)) by (rewrite length_drop; lia).
    change (replay ?x (zip_with mkEvent [] [])) with x.
    change (proofs_amount []) with 0 in Hsum. lia.
  - assert (length (drop (length sel) ids) = 1%nat) as Hl1
      by (rewrite length_drop; simpl in Hlen; lia).
    destruct (drop (length sel) ids) as [|i2 [|]] eqn:Ed; simpl in Hl1; try lia.
    set (ct := mkToken m (c :: ch)).
    change (replay ?x (zip_with mkEvent [i2] [TokenChange ct]))
      with (apply_event (mkEvent i2 (TokenChange ct)) x).
    destruct (Hchange ct) as (Htb0 & Hl0 & Hnotdel); [set_solver|].
    assert (token_id ct ∉ fst <$> sel) as Hnot.
    { intros (kv & Hkv & Hin)%list_elem_of_fmap. apply Hnotdel.
      apply elem_of_app. left. apply list_elem_of_fmap. exists kv. by rewrite Hkv. }
    rewrite (apply_event_receive_balance _ ct); [| done | | |].
    + unfold ct, token_amount. simpl token_proofs. lia.
    + rewrite Hsn. intros [Hx|Hx]; [apply (Hfresh i2); set_solver | apply (Hdisj i2); set_solver].
    + rewrite Htb. tauto.
    + rewrite Hl by done. done.
Qed.

Section Conservation.
Context `{MintService}.

Lemma send_amount w amount mint_opt sp m ps :
  send w amount mint_opt = Ok (sp, m, ps) -> proofs_amount sp = amount.
Proof.
  unfold send. destruct (choose_tokens w amount mint_opt) as [[m' sel]|]; [|done].
  destruct (swap m' (sel_proofs sel) amount) as [[sp' ch]|] eqn:Hs; [|done].
  intros [= <- _ _]. by destruct (swap_amounts _ _ _ _ _ Hs).
Qed.

(** A spend through the mint's swap: re-absorbing its events lowers
    the balance by exactly the amount swapped out. *)
Lemma swap_spend_conservation w amount ms m sel sp ch s ids :
  choose_from w amount ms = Ok (m, sel) -> swap m (sel_proofs sel) amount = Ok (sp, ch) ->
  rs_wallet s = w -> length ids = length (spend_payloads m sel ch) -> NoDup ids ->
  (forall i, i ∈ ids -> i ∉ rs_seen s) -> change_fresh s (spend_payloads m sel ch) ->
  balance (rs_wallet (replay s (emit ids (spend_payloads m sel ch)))) + amount = balance w.
Proof.
  intros Hc Hs. apply (spend_conservation w amount ms m sel ch amount s ids Hc).
  destruct (swap_amounts _ _ _ _ _ Hs) as [Hsp Hsum].
  rewrite proofs_amount_sel_proofs in Hsum. lia.
Qed.

(** conservation.  When [send] succeeds, re-absorbing the events
    it emits (the deletions of the spent tokens and the change token)
    leaves the balance lowered by exactly the amount sent. *)
Lemma send_conservation w amount mint_opt sp m ps s ids :
  send w amount mint_opt = Ok (sp, m, ps) -> rs_wallet s = w ->
  length ids = length ps -> NoDup ids -> (forall i, i ∈ ids -> i ∉ rs_seen s) ->
  change_fresh s ps ->
  balance (rs_wallet (replay s (emit ids ps))) + amount = balance w.
Proof.
  unfold send. destruct (choose_tokens w amount mint_opt) as [[m' sel]|] eqn:Hc; [|done].
  destruct (swap m' (sel_proofs sel) amount) as [[sp' ch]|] eqn:Hs; [|done].
  intros [= <- <- <-]. by eapply swap_spend_conservation.
Qed.

(** The nutzap's spend hands over proofs worth the amount, from a mint
    the recipient accepts. *)
Lemma nutzap_spend_amount w accepted amount sp m ps :
  nutzap_spend w accepted amount = Ok (sp, m, ps) -> proofs_amount sp = amount /\ m ∈ accepted.
Proof.
  unfold nutzap_spend, choose_from.
  destruct (first_choice _ _ accepted) as [[m' sel]|] eqn:Hc; [|done].
  destruct (swap m' (sel_proofs sel) amount) as [[sp' ch]|] eqn:Hs; [|done].
  intros [= <- <- _]. split; [by destruct (swap_amounts _ _ _ _ _ Hs)|].
  by apply first_choice_some in Hc as [? _].
Qed.

(** Conservation for the nutzap's spend, as for [send]. *)
Lemma nutzap_spend_conservation w accepted amount sp m ps s ids :
  nutzap_spend w accepted amount = Ok (sp, m, ps) -> rs_wallet s = w ->
  length ids = length ps -> NoDup ids -> (forall i, i ∈ ids -> i ∉ rs_seen s) ->
  change_fresh s ps ->
  balance (rs_wallet (replay s (emit ids ps))) + amount = balance w.
Proof.
  unfold nutzap_spend. destruct (choose_from w amount accepted) as [[m' sel]|] eqn:Hc; [|done].
  destruct (swap m' (sel_proofs sel) amount) as [[sp' ch]|] eqn:Hs; [|done].
  intros [= <- <- <-]. by eapply swap_spend_conservation.
Qed.

(** conservation for [pay_bolt11]: when the mint paid, re-absorbing
    the emitted events lowers the balance by exactly the quoted amount. *)
Lemma pay_conservation w invoice mint_opt m0 a pre ps s ids :
  m0 = match mint_opt with Some m => m | None => default "" (head (mints w)) end ->
  quote_invoice m0 invoice = Ok a ->
  pay_bolt11 w invoice mint_opt = Ok (pre, ps) -> rs_wallet s = w ->
  length ids = length ps -> NoDup ids -> (forall i, i ∈ ids -> i ∉ rs_seen s) ->
  change_fresh s ps ->
  balance (rs_wallet (replay s (emit ids ps))) + a = balance w.
Proof.
  intros Hm0 Hq. unfold pay_bolt11. rewrite <-Hm0, Hq.
  destruct (choose_tokens w a (Some m0)) as [[m sel]|] eqn:Hc; [|done].
  destruct (melt m (sel_proofs sel) invoice) as [[pre' ch]|] eqn:Hmelt; [|done].
  intros [= <- <-]. apply (spend_conservation w a (candidate_mints w (Some m0)) m sel ch a s ids Hc).
  destruct (melt_amounts _ _ _ _ _ Hmelt) as (a' & Hq' & Hsum).
  unfold choose_tokens, choose_from in Hc. simpl in Hc.
  destruct (take_until a _) eqn:?; simplify_eq.
  rewrite Hq in Hq'. simplify_eq. by rewrite proofs_amount_sel_proofs in Hsum.
Qed.

(** all-or-nothing payment: when the mint fails to pay, [pay_bolt11]
    fails with the mint's error and emits no event. *)
Lemma pay_bolt11_melt_failure w invoice m a sel e :
  quote_invoice m invoice = Ok a ->
  choose_tokens w a (Some m) = Ok (m, sel) ->
  melt m (sel_proofs sel) invoice = Err e ->
  pay_bolt11 w invoice (Some m) = Err e.
Proof. intros Hq Hc Hm. unfold pay_bolt11. by rewrite Hq, Hc, Hm. Qed.

(** round trip.  The token string printed by [nak wallet send]
    decodes to the proofs and mint that [send] returned, and receiving
    it into a new, empty ledger session gives a balance equal to the
    amount sent. *)
Lemma send_receive_roundtrip `{TokenCodec} w amount mint_opt sp m ps i :
  send w amount mint_opt = Ok (sp, m, ps) ->
  get_proofs_and_mint (make_token_string sp m) = Ok (sp, m) /\
  receive sp m None = Ok [TokenReceived (mkToken m sp)] /\
  balance (rs_wallet (replay init_state (emit [i] [TokenReceived (mkToken m sp)]))) = amount.
Proof.
  unfold send. destruct (choose_tokens w amount mint_opt) as [[m' sel]|]; [|done].
  destruct (swap m' (sel_proofs sel) amount) as [[sp' ch]|] eqn:Hs; [|done].
  intros [= <- <- _]. split_and!; [apply get_make_token_string | done |].
  destruct (swap_amounts _ _ _ _ _ Hs) as [Hsp _].
  change (replay init_state (emit [i] [TokenReceived (mkToken m' sp')]))
    with (apply_event (mkEvent i (TokenReceived (mkToken m' sp'))) init_state).
  rewrite (apply_event_receive_balance _ (mkToken m' sp')); try done.
Qed.
End Conservation.


(** ** A test mint, a test codec and the witnesses *)

Definition test_change (m : string) (total a : N) (secret : string) : list Proof :=
  if decide (a = total) then [] else [mkProof m (total - a) secret].

Lemma proofs_amount_test_change m total a secret :
  a <= total -> proofs_amount (test_change m total a secret) + a = total.
Proof.
  unfold test_change, proofs_amount, sumN. case_decide; simpl; lia.
Qed.

Definition test_swap (m : string) (ps : list Proof) (a : N) : result (list Proof * list Proof) :=
  if decide (a <= proofs_amount ps)
  then Ok ([mkProof m a "send-1"], test_change m (proofs_amount ps) a "change-1")
  else Err MintUnavailable.

Definition test_melt (m : string) (ps : list Proof) (inv : string) : result (string * list Proof) :=
  if decide (inv = "lnbc-bad") then Err MintUnavailable
  else if decide (3 <= proofs_amount ps)
  then Ok ("preimage", test_change m (proofs_amount ps) 3 "melt-change")
  else Err MintUnavailable.

Lemma test_swap_amounts m ps a send change :
  test_swap m ps a = Ok (send, change) ->
  proofs_amount send = a /\ proofs_amount send + proofs_amount change = proofs_amount ps.
Proof.
  unfold test_swap. case_decide as Hle; [|done]. intros [= <- <-].
  assert (proofs_amount [mkProof m a "send-1"] = a) as Ha
    by (unfold proofs_amount, sumN; simpl; lia).
  rewrite Ha. split; [done|].
  pose proof (proofs_amount_test_change m (proofs_amount ps) a "change-1" Hle). lia.
Qed.

Lemma test_melt_amounts m ps inv pre change :
  test_melt m ps inv = Ok (pre, change) ->
  exists a, (Ok 3 : result N) = Ok a /\ proofs_amount change + a = proofs_amount ps.
Proof.
  unfold test_melt. case_decide; [done|]. case_decide; [|done]. intros [= <- <-].
  exists 3. split; [done|]. by apply proofs_amount_test_change.
Qed.

#[local] Instance test_mint : MintService :=
  {| swap := test_swap; swap_amounts := test_swap_amounts;
     quote_invoice _ _ := Ok 3; melt := test_melt; melt_amounts := test_melt_amounts |}.

#[local] Instance Proof_countable : Countable Proof.
Proof.
  apply (inj_countable' (fun p => (proof_mint p, proof_amount p, proof_secret p))
                        (fun '(m, a, s) => mkProof m a s)).
  by intros [].
Defined.

(** A test codec: the decimal form of the [Countable] encoding. *)
Definition test_encode (ps : list Proof) (m : string) : string :=
  NilEmpty.string_of_uint (N.to_uint (Npos (encode (ps, m)))).

Definition test_decode (s : string) : result (list Proof * string) :=
  match NilEmpty.uint_of_string s with
  | Some d => match N.of_uint d with
              | Npos p => match decode p with Some x => Ok x | None => Err InvalidToken end
              | N0 => Err InvalidToken
              end
  | None => Err InvalidToken
  end.

Lemma test_decode_encode ps m : test_decode (test_encode ps m) = Ok (ps, m).
Proof.
  unfold test_decode, test_encode. rewrite NilEmpty.usu, Unsigned.of_to.
  by rewrite decode_encode.
Qed.

#[local] Instance test_codec : TokenCodec :=
  {| make_token_string := test_encode; get_proofs_and_mint := test_decode;
     get_make_token_string := test_decode_encode |}.

Definition tok5 : Token := mkToken "https://a" [mkProof "https://a" 5 "p5"].
Definition tok7 : Token := mkToken "https://a" [mkProof "https://a" 7 "p7"].

(** A wallet holding two tokens of mint [a], worth 5 and 7. *)
Definition state_5_7 : RState :=
  replay init_state [mkEvent "r5" (TokenReceived tok5); mkEvent "r7" (TokenReceived tok7)].

Definition send_10_payloads : list payload :=
  match send (rs_wallet state_5_7) 10 (Some "https://a") with
  | Ok (_, _, ps) => ps
  | Err _ => []
  end.

Definition pay_payloads : list payload :=
  match pay_bolt11 (rs_wallet state_5_7) "lnbc-ok" (Some "https://a") with
  | Ok (_, ps) => ps
  | Err _ => []
  end.

(** the scenario of the specification: from tokens worth 5 and 7
    of mint [a], sending 10 hands over proofs worth 10 of mint [a],
    emits a change token worth 2 of mint [a], and after the events are
    re-absorbed the balance is 2. *)
Example send_10_from_5_and_7_engine :
  (match send (rs_wallet state_5_7) 10 (Some "https://a") with
   | Ok (sp, m, ps) =>
       bool_decide (proofs_amount sp = 10 /\ m = "https://a" /\
         TokenChange (mkToken "https://a" [mkProof "https://a" 2 "change-1"]) ∈ ps /\
         balance (rs_wallet (replay state_5_7 (emit ["d1"; "d2"; "c1"] ps))) = 2)
   | Err _ => false
   end) = true.
Proof. vm_compute. reflexivity. Qed.

Lemma send_conservation_witness :
  balance (rs_wallet (replay state_5_7 (emit ["d1"; "d2"; "c1"] send_10_payloads))) + 10
  = balance (rs_wallet state_5_7).
Proof.
  apply (send_conservation _ 10 (Some "https://a") [mkProof "https://a" 10 "send-1"] "https://a");
    [vm_compute; reflexivity | reflexivity | vm_compute; reflexivity | decide_closed
    | apply ids_fresh; decide_closed | apply change_fresh_b_sound; vm_compute; reflexivity].
Defined.

Lemma pay_conservation_witness :
  balance (rs_wallet (replay state_5_7 (emit ["d1"; "c1"] pay_payloads))) + 3
  = balance (rs_wallet state_5_7).
Proof.
  apply (pay_conservation _ "lnbc-ok" (Some "https://a") "https://a" 3 "preimage");
    [reflexivity | reflexivity | vm_compute; reflexivity | reflexivity
    | vm_compute; reflexivity | decide_closed | apply ids_fresh; decide_closed
    | apply change_fresh_b_sound; vm_compute; reflexivity].
Defined.

Lemma pay_bolt11_melt_failure_witness :
  pay_bolt11 (rs_wallet state_5_7) "lnbc-bad" (Some "https://a") = Err MintUnavailable.
Proof.
  apply (pay_bolt11_melt_failure _ _ _ 3 (match choose_tokens (rs_wallet state_5_7) 3 (Some "https://a") with
                                          | Ok (_, sel) => sel | Err _ => [] end));
    vm_compute; reflexivity.
Defined.

Lemma send_receive_roundtrip_witness :
  get_proofs_and_mint (make_token_string [mkProof "https://a" 10 "send-1"] "https://a")
    = Ok ([mkProof "https://a" 10 "send-1"], "https://a") /\
  receive [mkProof "https://a" 10 "send-1"] "https://a" None
    = Ok [TokenReceived (mkToken "https://a" [mkProof "https://a" 10 "send-1"])] /\
  balance (rs_wallet (replay init_state
    (emit ["r1"] [TokenReceived (mkToken "https://a" [mkProof "https://a" 10 "send-1"])]))) = 10.
Proof.
  apply (send_receive_roundtrip (rs_wallet state_5_7) 10 (Some "https://a") _ _ send_10_payloads).
  vm_compute. reflexivity.
Defined.

Lemma choose_tokens_ok_witness :
  exists sel, choose_tokens (rs_wallet state_5_7) 10 (Some "https://a") = Ok ("https://a", sel) /\
  NoDup (fst <$> sel) /\ 10 <= sel_total sel.
Proof.
  eexists. split; [vm_compute; reflexivity|].
  destruct (choose_from_ok (rs_wallet state_5_7) 10 ["https://a"] "https://a"
    (match choose_tokens (rs_wallet state_5_7) 10 (Some "https://a") with
     | Ok (_, sel) => sel | Err _ => [] end)) as (Hnd & _ & Hle);
    [vm_compute; reflexivity|].
  split; assumption.
Defined.

Lemma choose_tokens_insufficient_witness :
  choose_tokens (rs_wallet state_5_7) 13 None = Err InsufficientFunds.
Proof.
  apply choose_tokens_insufficient. intros m Hm.
  vm_compute in Hm. apply list_elem_of_singleton in Hm as ->. vm_compute. reflexivity.
Defined.

End Ops.
