(* ===== verification/Cli.v ===== *)
(** * The [nak wallet] command handlers (src/wallet.go)

    Each handler of the [wallet] command tree is a computation in the
    [cli] monad: a Go [error] return ([result]) together with what the
    handler wrote ([out]: stdout, log, verbose log, [w.Close()]).  The
    collaborators the handlers call (key gathering, relay discovery, the
    network's schedule for the NIP-60 wallet loader and the relays'
    stored logs, URL normalisation, profile lookup, the discovery of a
    nutzap recipient) are the [Env] class; the relay pool, the mint and the token
    codec are the classes of [Publish], [Ops] and [Cashu].  A command's
    arguments and flags are a [Cmd]: urfave/cli returns the zero value
    for a flag that was not set, and for a name that is not a declared
    flag of the command. *)

From Stdlib Require Import Ascii.
From S2P Require Import Prelude Cashu Ledger Reducer Sync Publish Ops.
Import Cashu Ledger Reducer Sync Publish Ops.

Module Cli.

(** ** The command monad *)

Definition cli (A : Type) : Type := result A * list out.

Definition cret {A} (a : A) : cli A := (Ok a, []).
Definition cfail {A} (e : error) : cli A := (Err e, []).
Definition write (os : list out) : cli unit := (Ok tt, os).

Definition cbind {A B} (c : cli A) (k : A -> cli B) : cli B :=
  match c with
  | (Ok a, o) => let r := k a in (r.1, o ++ r.2)
  | (Err e, o) => (Err e, o)
  end.

Definition of_result {A} (r : result A) : cli A := (r, []).

Definition ok_or {A} (d : A) (r : result A) : A := match r with Ok a => a | Err _ => d end.

Declare Scope cli_scope.
Delimit Scope cli_scope with cli.
Notation "'do' x <- c ; k" := (cbind c (fun x => k))
  (at level 10, x name, c at level 100, k at level 200) : cli_scope.
Notation "'do' ' pat <- c ; k" := (cbind c (fun x => match x with pat => k end))
  (at level 10, pat pattern, c at level 100, k at level 200) : cli_scope.
Notation "c ;; k" := (cbind c (fun _ => k))
  (at level 100, k at level 200) : cli_scope.
Open Scope cli_scope.

(** ** Commands and collaborators *)

(** The parsed command line: positional arguments and flag values. *)
Record Cmd := mkCmd {
  args : list string;
  str_flag : string -> string;
  slice_flag : string -> list string;
  bool_flag : string -> bool;
  uint_flag : string -> N
}.

(** The profile [sys.FetchProfileFromInput] returns. *)
Record Profile := mkProfile {
  pm_pubkey : string;
  pm_short_name : string;
  pm_npub : string
}.

Class Env := {
  (** [gatherKeyerFromArguments] (it reads the key flags) and
      [kr.GetPublicKey] *)
  gather_keyer : (string -> string) -> result unit;
  get_public_key : result string;
  (** [sys.FetchOutboxRelays(ctx, pk, n)] and [sys.FetchWriteRelays] *)
  fetch_outbox_relays : string -> nat -> list string;
  fetch_write_relays : string -> nat -> list string;
  (** [nip60.LoadWallet] on the given relays: [None] for a nil wallet,
      otherwise what the network does (deliveries and EOSEs on the
      subscriptions, in order) before the bounded wait elapses *)
  load_wallet : list string -> option (list action);
  (** how many of those actions the engine has performed when line 33
      assigns [w.Processed]: [LoadWallet] has started its subscriptions
      before returning, and the events applied in the meantime meet a
      nil callback *)
  processed_delay : nat;
  (** the wallet events a relay stores, in the order it sends them *)
  relay_log : string -> list LogEvent;
  (** the creation time and identifier the signer gives a new event *)
  now : N;
  event_id_of : payload -> string;
  (** go-nostr's [NormalizeURL] *)
  normalize_url : string -> string;
  (** [sys.FetchSpecificEventFromInput]: the event's id and author *)
  fetch_specific_event : string -> result (string * string);
  fetch_profile : string -> result Profile;
  (** the recipient discovery of [nip61.SendNutzap] (its
      [sys.FetchInboxRelays] and [sys.FetchOutboxRelays(ctx, pubkey, 3)]
      arguments): the mints the recipient accepts, from its kind:10019
      event, and its inbox relays *)
  nutzap_recipient : string -> list string * list string;
  (** [sys.Pool.QuerySingle] for the author's kind:10019 event: the mints
      it lists, if one is found *)
  query_nutzap_info : list string -> string -> option (list string);
  (** the private-key registration of [w.SetPrivateKey] *)
  parse_private_key : string -> result string;
  (** [info.ToEvent(ctx, kr, &evt)]: the signed kind:10019 event *)
  sign_nutzap_info : list string -> result LogEvent
}.

(** [strconv.ParseUint(s, 10, 64)]: decimal digits only, not empty, and
    at most [2^64 - 1]. *)
Definition parse_uint64 (s : string) : option N :=
  if decide (s = "") then None
  else match NilEmpty.uint_of_string s with
       | None => None
       | Some d => let n := N.of_uint d in if decide (n < u64_modulus) then Some n else None
       end.

(** The loop of Go's [strconv.ParseUint(s, 10, 64)] (strconv/atoi.go),
    the reference [parse_uint64] is checked against: a byte that is not
    a decimal digit is a syntax error; before the accumulator is
    multiplied by ten it is compared with [cutoff = maxUint64/10 + 1],
    and after the digit is added a sum that wrapped around [2^64]
    (it became smaller) is a range error. *)
Definition digit_of (c : ascii) : option N :=
  let b := Ascii.N_of_ascii c in
  if decide (Ascii.N_of_ascii "0" <= b <= Ascii.N_of_ascii "9") then Some (b - Ascii.N_of_ascii "0")
  else None.

Definition parse_cutoff : N := (u64_modulus - 1) / 10 + 1.

Fixpoint parse_uint_loop (n : N) (s : string) : option N :=
  match s with
  | EmptyString => Some n
  | String c s' =>
      match digit_of c with
      | None => None
      | Some d =>
          if decide (parse_cutoff <= n) then None
          else let n0 := n * 10 in
               let n1 := (n0 + d) mod u64_modulus in
               if decide (n1 < n0) then None else parse_uint_loop n1 s'
      end
  end.

Definition go_parse_uint (s : string) : option N :=
  if decide (s = "") then None else parse_uint_loop 0 s.

(** The unbounded value of a string of decimal digits, read from the
    left into the accumulator, and of a [Decimal.uint]. *)
Fixpoint digits_value (acc : N) (s : string) : option N :=
  match s with
  | EmptyString => Some acc
  | String c s' => match digit_of c with None => None | Some d => digits_value (acc * 10 + d) s' end
  end.

Fixpoint uint_value (d : Decimal.uint) (acc : N) : N :=
  match d with
  | Decimal.Nil => acc
  | Decimal.D0 d => uint_value d (10 * acc) | Decimal.D1 d => uint_value d (1 + 10 * acc)
  | Decimal.D2 d => uint_value d (2 + 10 * acc) | Decimal.D3 d => uint_value d (3 + 10 * acc)
  | Decimal.D4 d => uint_value d (4 + 10 * acc) | Decimal.D5 d => uint_value d (5 + 10 * acc)
  | Decimal.D6 d => uint_value d (6 + 10 * acc) | Decimal.D7 d => uint_value d (7 + 10 * acc)
  | Decimal.D8 d => uint_value d (8 + 10 * acc) | Decimal.D9 d => uint_value d (9 + 10 * acc)
  end.

(** ** The command tree *)

(** The sub-commands of [wallet] (lines 84-477). *)
Inductive WalletSub :=
| WBalance | WMints | WMintsAdd | WMintsRemove | WTokens
| WReceive | WSend | WPay | WNutzap | WNutzapSetup.

(** The name path that selects each of them. *)
Definition sub_path (w : WalletSub) : list string :=
  match w with
  | WBalance => ["wallet"]
  | WMints => ["wallet"; "mints"]
  | WMintsAdd => ["wallet"; "mints"; "add"]
  | WMintsRemove => ["wallet"; "mints"; "remove"]
  | WTokens => ["wallet"; "tokens"]
  | WReceive => ["wallet"; "receive"]
  | WSend => ["wallet"; "send"]
  | WPay => ["wallet"; "pay"]
  | WNutzap => ["wallet"; "nutzap"]
  | WNutzapSetup => ["wallet"; "nutzap"; "setup"]
  end.

(** The [Usage] line of each command (lines 86, 104, 160, 178, 218,
    260, 299, 392); [mints add] and [mints remove] have none. *)
Definition usage (w : WalletSub) : string :=
  match w with
  | WBalance => "displays the current wallet balance"
  | WMints => "lists, adds or remove default mints from the wallet"
  | WMintsAdd | WMintsRemove => ""
  | WTokens => "lists existing tokens with their mints and aggregated amounts"
  | WReceive => "takes a cashu token string as an argument and adds it to the wallet"
  | WSend => "prints a cashu token with the given amount for sending to someone else"
  | WPay => "pays a bolt11 lightning invoice and outputs the preimage"
  | WNutzap => "sends a nip61 nutzap to one or more Nostr profiles and/or events"
  | WNutzapSetup => "setup your wallet private key and kind:10019 event for receiving nutzaps"
  end.

(** The [ArgsUsage] of each command (lines 123, 141, 179, 219, 261,
    300): the positional arguments its help announces. *)
Definition args_usage (w : WalletSub) : string :=
  match w with
  | WMintsAdd | WMintsRemove => "<mint>..."
  | WReceive => "<token>"
  | WSend => "<amount>"
  | WPay => "<invoice>"
  | WNutzap => "<amount> <target>"
  | _ => ""
  end.

(** The [Description] of [wallet] and [nutzap] (lines 87 and 301). *)
Definition description (w : WalletSub) : string :=
  match w with
  | WBalance => "all wallet data is stored on Nostr relays, signed and encrypted with the given key, and reloaded again from relays on every call."
                +:+ nl +:+ nl +:+ "the same data can be accessed by other compatible nip60 clients."
  | WNutzap => "<amount> is in satoshis, <target> can be an npub, nprofile, nevent or hex pubkey."
  | _ => ""
  end.

(** The flags each command declares in its [Flags] field, with their
    [Usage] (lines 181-186, 221-226, 263-268, 303-312, 394-408).  A flag
    given by an alias ([-f] for [--force]) is recorded under its name. *)
Definition flags_of (w : WalletSub) : list (string * string) :=
  match w with
  | WReceive => [("mint", "mint to swap the token into")]
  | WSend => [("mint", "send from a specific mint")]
  | WPay => [("mint", "pay from a specific mint")]
  | WNutzap => [("mint", "send from a specific mint"); ("message", "attach a message to the nutzap")]
  | WNutzapSetup => [("mint", "mints to receive nutzaps in");
                     ("private-key", "private key used for receiving nutzaps");
                     ("force", "forces replacement of private-key")]
  | _ => []
  end.

Definition declared_flags (w : WalletSub) : list string := fst <$> flags_of w.

(** The [Cmd] urfave/cli hands an action: the flags set on the command
    line ([name, value] in order) seen through the declared ones; a
    name that is not declared reads as the zero value. *)
Definition flag_values (declared : list string) (set : list (string * string)) (n : string)
    : list string :=
  if decide (n ∈ declared) then snd <$> filter (fun nv => nv.1 = n) set else [].

Definition parse_cmd (declared : list string) (a : list string) (set : list (string * string)) : Cmd :=
  mkCmd a
    (fun n => default "" (last (flag_values declared set n)))
    (flag_values declared set)
    (fun n => bool_decide (last (flag_values declared set n) = Some "true"))
    (fun n => match last (flag_values declared set n) with
              | Some v => default 0 (parse_uint64 v)
              | None => 0
              end).

(** The [closew] function [prepareWallet] returns, lines 79-81. *)
Definition closew : cli unit := write [CloseWallet].

Section Helpers.
Context `{Env}.

(** [strings.Split(s, sep)[1]]: the field after the first separator;
    indexing a one-field result panics. *)
Definition split_1 (s sep : string) : result string :=
  match String.index 0 sep s with
  | None => Err (Panic "index out of range [1] with length 1")
  | Some i =>
      let rest := String.substring (i + String.length sep) (String.length s) s in
      Ok (match String.index 0 sep rest with
          | None => rest
          | Some j => String.substring 0 j rest
          end)
  end.
(** [mint = "http" + nostr.NormalizeURL(mint)[2:]] for a non-empty
    [--mint] flag (lines 243-246, 281-284, 349-352); the slice panics
    on a normalised URL shorter than two bytes. *)
Definition mint_option (flag : string) : result (option string) :=
  if decide (flag = "") then Ok None
  else let n := normalize_url flag in
       if decide (String.length n < 2)%nat
       then Err (Panic "slice bounds out of range [2:1]")
       else Ok (Some ("http" +:+ String.substring 2 (String.length n - 2) n)).
(** The options of lines 203-206: one [WithMintDestination] per
    [--mint]; each sets the same field, so the last one given wins. *)
Definition receive_destination (urls : list string) : option string := last urls.
(** Lines 327-339: a [nevent1] target is resolved to its event's id
    and author; any other target is used as it is, with no event id. *)
Definition nutzap_target (target : string) : result (string * string) :=
  if String.prefix "nevent1" target then fetch_specific_event target
  else Ok ("", target).
End Helpers.

(** ** [strconv.ParseUint] *)

Lemma fmt_d_nonempty n : fmt_d n <> "".
Proof.
  unfold fmt_d. intros Hs.
  assert (N.to_uint n = Decimal.Nil) as Hn.
  { pose proof (NilEmpty.usu (N.to_uint n)) as Hd. rewrite Hs in Hd.
    simpl in Hd. congruence. }
  pose proof (Unsigned.of_to n) as Hof. rewrite Hn in Hof. simpl in Hof. subst n.
  discriminate.
Qed.

Lemma uint_value_acc d p : Npos (Pos.of_uint_acc d p) = uint_value d (Npos p).
Proof.
  revert p. induction d; intros p; simpl; rewrite ?IHd; f_equal; lia.
Qed.

Lemma of_uint_value d : N.of_uint d = uint_value d 0.
Proof.
  induction d; simpl; try done; rewrite ?uint_value_acc; simpl; try done.
Qed.

Lemma digits_value_uint s acc :
  digits_value acc s = (fun d => uint_value d acc) <$> NilEmpty.uint_of_string s.
Proof.
  revert acc. induction s as [|c s IH]; intros acc; [done|]. simpl.
  destruct (NilEmpty.uint_of_string s) as [d|] eqn:E;
    destruct c as [[] [] [] [] [] [] [] []];
    match goal with |- context [digit_of ?c] =>
      let v := eval vm_compute in (digit_of c) in change (digit_of c) with v end;
    simpl; rewrite ?IH, ?E; simpl; try done; do 2 f_equal; lia.
Qed.

Lemma digits_value_mono acc s v : digits_value acc s = Some v -> acc <= v.
Proof.
  revert acc. induction s as [|c s IH]; intros acc; simpl; [by intros [= ->]|].
  destruct (digit_of c); [|done]. intros Hv%IH. lia.
Qed.

Lemma parse_uint_loop_value n s :
  n < u64_modulus ->
  parse_uint_loop n s =
    match digits_value n s with Some v => if decide (v < u64_modulus) then Some v else None | None => None end.
Proof.
  assert (parse_cutoff = 1844674407370955162) as Hc by reflexivity.
  assert (u64_modulus = 18446744073709551616) as Hm by reflexivity.
  revert n. induction s as [|c s IH]; intros n Hn; simpl.
  - by rewrite decide_True.
  - destruct (digit_of c) as [d|] eqn:Hd; [|done].
    assert (d < 10) by (unfold digit_of in Hd; case_decide; simplify_eq; simpl in *; lia).
    destruct (digits_value (n * 10 + d) s) as [v|] eqn:Hv;
      [pose proof (digits_value_mono _ _ _ Hv)|].
    + case_decide.
      * rewrite decide_False by lia. done.
      * destruct (decide (n * 10 + d < 18446744073709551616)).
        -- rewrite N.mod_small by lia. rewrite decide_False by lia. rewrite IH, Hv by lia. done.
        -- rewrite decide_True; [by rewrite decide_False by lia|].
           rewrite N_mod_wrap; lia.
    + case_decide; [done|]. destruct (decide (n * 10 + d < 18446744073709551616)).
      * rewrite N.mod_small by lia. rewrite decide_False by lia. rewrite IH, Hv by lia. done.
      * case_decide as Hlt; [done|]. exfalso. rewrite N_mod_wrap in Hlt by lia. lia.
Qed.


(** C16: equivalence.  [parse_uint64] is Go's [strconv.ParseUint(s,
    10, 64)]: on every string it accepts exactly when Go's digit loop,
    with its cutoff and its wrap-around check on a 64-bit accumulator,
    accepts, and then with the same value. *)
Theorem parse_uint64_go s : parse_uint64 s = go_parse_uint s.
Proof.
  unfold parse_uint64, go_parse_uint. case_decide; [done|].
  rewrite parse_uint_loop_value by (unfold u64_modulus; lia).
  rewrite digits_value_uint. destruct (NilEmpty.uint_of_string s); simpl; [|done].
  by rewrite of_uint_value.
Qed.

(** C17: round trip.  The decimal form of every uint64 parses back to
    it, and the decimal form of a larger number is refused. *)
Theorem parse_uint64_fmt_d n : parse_uint64 (fmt_d n) = if decide (is_u64 n) then Some n else None.
Proof.
  unfold parse_uint64. rewrite decide_False by apply fmt_d_nonempty.
  unfold fmt_d. rewrite NilEmpty.usu, Unsigned.of_to. unfold is_u64.
  by destruct (decide (n < u64_modulus)).
Qed.
(** ** The [--mint] rewriting *)

Lemma substring_0_length (s : string) : String.substring 0 (String.length s) s = s.
Proof. induction s as [|a s IH]; simpl; [done|]. by rewrite IH. Qed.

Section MintOption.
Context `{Env}.

(** C25: a mint given as a host name, which [NormalizeURL] turns into
    a [wss://] relay URL, is rewritten to the [https://] URL of the mint. *)
Theorem mint_option_wss flag h :
  flag <> "" -> normalize_url flag = "wss://" +:+ h ->
  mint_option flag = Ok (Some ("https://" +:+ h)).
Proof.
  intros Hf Hn. unfold mint_option. rewrite decide_False by done. rewrite Hn.
  change ("wss://" +:+ h) with (String "w"%char (String "s"%char ("s://" +:+ h))).
  rewrite decide_False by (simpl; lia). simpl.
  by rewrite substring_0_length.
Qed.
End MintOption.

(** A computation that succeeds is [Ok] of its value: this lets a
    concrete run be checked by evaluating [is_ok] alone. *)
Lemma cli_ok_eq {A} (m : cli A) (d : A) : is_ok m.1 = true -> m = (Ok (ok_or d m.1), m.2).
Proof. destruct m as [[a|e] o]; simpl; [done|discriminate]. Qed.

Lemma flag_values_undeclared d set n : n ∉ d -> flag_values d set n = [].
Proof. intros Hn. unfold flag_values. by rewrite decide_False. Qed.

(** ** A test environment *)

(** ** A test environment and the witnesses *)

Definition test_env (loads any_profile : bool) : Env := {|
  gather_keyer _ := Ok tt;
  get_public_key := Ok "pk";
  fetch_outbox_relays _ _ := ["wss://r1"; "wss://dead"];
  fetch_write_relays _ _ := ["wss://r1"];
  load_wallet _ := if loads then Some [Deliver 0; Deliver 0; Eose 0] else None;
  processed_delay := 0;
  relay_log r := if decide (r = "wss://r1") then [mkEvent "r5" (TokenReceived tok5);
                                                  mkEvent "r7" (TokenReceived tok7)] else [];
  now := 100;
  event_id_of p := match p with
    | TokenReceived t => "recv-" +:+ String.concat "," (proof_secret <$> token_proofs t)
    | TokenChange t => "change-" +:+ String.concat "," (proof_secret <$> token_proofs t)
    | TokenDeleted i => "del-" +:+ String.concat "," (elements i)
    | MintList ts _ => "mints-" +:+ fmt_d ts
    | PrivKeyReg k => "key-" +:+ k
    | _ => "other"
    end;
  normalize_url u := if String.prefix "ws" u || String.prefix "http" u then u else "wss://" +:+ u;
  fetch_specific_event _ := Err (Errorf "event not found");
  fetch_profile t := if decide (t = "" /\ any_profile = false) then Err (Errorf "profile not found")
                     else Ok (mkProfile t "bob" "npub1bob");
  nutzap_recipient _ := (["https://a"], ["wss://inbox"]);
  query_nutzap_info _ _ := None;
  parse_private_key sk := Ok sk;
  sign_nutzap_info _ := Ok (mkEvent "info" NutzapInfo)
|}.

(** A command line with the given arguments and flags. *)
Definition test_cmd (a : list string) (strs : list (string * string)) : Cmd :=
  mkCmd a (fun n => default "" (list_to_map (M:=gmap string string) strs !! n))
        (fun _ => []) (fun n => bool_decide (n = "force")) (fun _ => 0).

Definition show_any {A} (_ : A) : string := "?".



Lemma mint_option_wss_witness :
  @mint_option (test_env true false) "mint.example" = Ok (Some "https://mint.example").
Proof. apply (@mint_option_wss (test_env true false)); [discriminate | reflexivity]. Defined.

End Cli.
