(* ===== verification/Session.v ===== *)
(** * The wallet session: [prepareWallet] (src/wallet.go 16-82)

    Every wallet command starts with [prepareWallet]: it gathers the
    key, loads the NIP-60 wallet from the owner's outbox relays, reports
    the events processed once it has installed the [Processed] callback
    (line 33, after the subscriptions started), installs the
    [PublishUpdate] callback that publishes the events the wallet emits,
    and blocks on [Stable].  This file models that session
    ([prepare_wallet]) and the publication of emitted events ([publish],
    [publish_all]); its theorems say what the wallet a command sees is:
    the replay of the loaded log, independent of the order and the
    duplication of its delivery. *)

From S2P Require Import Prelude Cashu Ledger Reducer Sync Publish Ops Cli.
Import Cashu Ledger Reducer Sync Publish Ops Cli.

Module Session.

Section Session.
Context `{Env} `{RelayPool}.
Context (color_error color_success : string -> string)
        (show_event : LogEvent -> string) (show_error : error -> string).

(** The subscriptions [nip60.LoadWallet] opens: one per relay, with
    the events the relay stores. *)
Definition relay_logs (relays : list string) : list (string * list LogEvent) :=
  (fun r => (r, relay_log r)) <$> relays.

(** The events the engine applied before line 33 installed the
    [Processed] callback: those of the first [processed_delay] actions
    of the network. *)
Definition unreported (relays : list string) (acts : list action) : list LogEvent :=
  sy_processed (run_until_stable (take processed_delay acts) (init_sync (relay_logs relays))).

(** [prepareWallet], lines 16-82: gather the key, load the wallet from
    the outbox relays (line 28, which starts the subscriptions), install
    the [Processed] callback (line 33), which reports the events
    processed from then on, wait for [Stable] (line 77), return the
    wallet the sync engine built. *)
Definition prepare_wallet (c : Cmd) : cli (RState * list string) :=
  do _ <- of_result (gather_keyer (str_flag c));
  do pk <- of_result get_public_key;
  let relays := fetch_outbox_relays pk 3 in
  match load_wallet relays with
  | None => cfail (Errorf "error loading walle")
  | Some acts =>
      let sy := wait_stable (relay_logs relays) acts in
      let reported := drop (length (unreported relays acts)) (sy_processed sy) in
      write ((fun e => processed show_event show_error e (event_error e)) <$> reported) ;;
      cret (sy_reducer sy, relays)
  end.
(** The event the signer makes of a payload. *)
Definition signed (p : payload) : LogEvent := mkEvent (event_id_of p) p.
(** The arguments the wallet passes to [w.PublishUpdate] for an event
    it emits from the wallet [w]: the token received, the change token,
    the token a deletion retires (still live in [w]), or the history
    flag. *)
Definition update_of (w : Wallet) (ev : LogEvent) : Update :=
  match ev_payload ev with
  | TokenReceived t => mkUpdate ev None (Some t) None false
  | TokenChange t => mkUpdate ev None None (Some t) false
  | TokenDeleted i => mkUpdate ev (tokens w !! i) None None false
  | History => mkUpdate ev None None None true
  | _ => mkUpdate ev None None None false
  end.
(** [w.PublishUpdate] on an event the wallet emits. *)
Definition publish (relays : list string) (w : Wallet) (p : payload) : cli unit :=
  write (publish_update color_error color_success relays (update_of w (signed p))).
(** Every event a wallet operation emits goes through [PublishUpdate]. *)
Fixpoint publish_all (relays : list string) (w : Wallet) (ps : list payload) : cli unit :=
  match ps with
  | [] => cret tt
  | p :: ps' => publish relays w p ;; publish_all relays w ps'
  end.
End Session.

(** ** Replays of a delivered log *)

(** The events a handler publishes for the payloads [ps]. *)
Lemma emit_signed `{Env} ps : emit (event_id_of <$> ps) ps = signed <$> ps.
Proof.
  induction ps as [|p ps IH]; [done|].
  change (mkEvent (event_id_of p) p :: emit (event_id_of <$> ps) ps = signed p :: (signed <$> ps)).
  by rewrite IH.
Qed.

(** Fresh payloads give fresh event identifiers. *)
Lemma signed_ids_fresh `{Env} (seen : gset string) (ps : list payload) :
  (forall p, p ∈ ps -> event_id_of p ∉ seen) -> forall i, i ∈ event_id_of <$> ps -> i ∉ seen.
Proof. intros Hf i (p & -> & Hp)%list_elem_of_fmap. by apply Hf. Qed.

Section SessionTheorems.
Context `{Env} `{RelayPool}.
Context (color_error color_success : string -> string)
        (show_event : LogEvent -> string) (show_error : error -> string).

Abbreviation publish_all' := (publish_all color_error color_success).

Lemma publish_all_ok relays w ps : (publish_all' relays w ps).1 = Ok tt.
Proof.
  induction ps as [|p ps IH]; [done|]. simpl.
  destruct (publish_all' relays w ps) as [r o]. simpl in *. by subst.
Qed.

Lemma publish_all_logs relays w ps : Forall is_log (publish_all' relays w ps).2.
Proof.
  induction ps as [|p ps IH]; [constructor|].
  change (Forall is_log (publish_update color_error color_success relays (update_of w (signed p))
                         ++ (publish_all' relays w ps).2)).
  apply Forall_app. split; [apply publish_update_logs | exact IH].
Qed.

(** What a successful [prepareWallet] returns: the wallet the sync
    engine built on the owner's outbox relays when [Stable] fired, after
    one [Processed] line per event it applied once the callback was
    installed. *)
Lemma prepare_wallet_ok c s relays os :
  prepare_wallet show_event show_error c = (Ok (s, relays), os) ->
  exists pk acts, relays = fetch_outbox_relays pk 3 /\ load_wallet relays = Some acts /\
    s = sy_reducer (wait_stable (relay_logs relays) acts) /\
    os = (fun e => processed show_event show_error e (event_error e)) <$>
           drop (length (unreported relays acts)) (sy_processed (wait_stable (relay_logs relays) acts)).
Proof.
  unfold prepare_wallet, cbind, of_result.
  destruct (gather_keyer (str_flag c)); [|done]. destruct get_public_key as [pk|]; [|done].
  simpl. destruct (load_wallet (fetch_outbox_relays pk 3)) as [acts|] eqn:E; [|done].
  simpl. rewrite !app_nil_r. intros [= <- <- <-]. by exists pk, acts.
Qed.

Lemma relay_logs_snd relays : snd <$> relay_logs relays = relay_log <$> relays.
Proof. unfold relay_logs. by rewrite <-list_fmap_compose. Qed.

(** C18: [prepareWallet] fails with its (misspelt) message when the
    wallet cannot be loaded, before any output. *)
Theorem prepare_wallet_load_failure c pk :
  gather_keyer (str_flag c) = Ok tt -> get_public_key = Ok pk ->
  load_wallet (fetch_outbox_relays pk 3) = None ->
  prepare_wallet show_event show_error c = (Err (Errorf "error loading walle"), []).
Proof. intros Hk Hp Hl. unfold prepare_wallet. rewrite Hk, Hp. simpl. by rewrite Hl. Qed.

(** [prepareWallet] writes to standard error only: it neither prints
    nor closes the wallet. *)
Lemma prepare_wallet_logs c : Forall is_log (prepare_wallet show_event show_error c).2.
Proof.
  unfold prepare_wallet, cbind, of_result.
  destruct (gather_keyer (str_flag c)); simpl; [|constructor].
  destruct get_public_key; simpl; [|constructor].
  destruct (load_wallet _); simpl; [|constructor].
  rewrite ?app_nil_l, ?app_nil_r. apply Forall_fmap, Forall_forall. intros e _.
  apply processed_is_log.
Qed.

Lemma prepare_wallet_no_close c : CloseWallet ∉ (prepare_wallet show_event show_error c).2.
Proof. apply logs_no_close, prepare_wallet_logs. Qed.

(** C1: order independence.  When every outbox relay sent EOSE before
    the wait elapsed, the wallet [prepareWallet] hands to a command is
    the replay of all the relays' logs, whatever the interleaving of
    the deliveries and however many relays store the same event, when
    the events are pairwise compatible (one identifier names one event,
    two key registrations carry the same key). *)
Theorem prepare_wallet_order_independent c s relays os acts :
  prepare_wallet show_event show_error c = (Ok (s, relays), os) -> load_wallet relays = Some acts ->
  Forall (fun sub => sub_status sub = Eosed) (sy_subs (wait_stable (relay_logs relays) acts)) ->
  (forall e1 e2, e1 ∈ concat (relay_log <$> relays) -> e2 ∈ concat (relay_log <$> relays) ->
     events_compat e1 e2) ->
  s = replay init_state (concat (relay_log <$> relays)).
Proof.
  intros Hp Hl Heos Hc. destruct (prepare_wallet_ok c s relays os Hp) as (pk & acts0 & _ & Hl0 & -> & _).
  rewrite Hl in Hl0. injection Hl0 as <-. rewrite <-relay_logs_snd in *.
  by apply wait_stable_complete.
Qed.

(** C3: the [Processed] lines and the callback race.  The events the
    returned wallet has applied are, in order, those the engine applied
    before line 33 installed the callback (the first [processed_delay]
    actions of the network: they get no line) followed by those it
    reports, one line each; no identifier is applied or reported twice,
    however many relays deliver the same event.  Only when the callback
    is in place before the network acts does every applied event get
    its line. *)
Theorem prepare_wallet_processed_once c s relays os acts :
  prepare_wallet show_event show_error c = (Ok (s, relays), os) -> load_wallet relays = Some acts ->
  exists early ps,
    early = unreported relays acts /\
    os = (fun e => processed show_event show_error e (event_error e)) <$> ps /\
    NoDup (ev_id <$> early ++ ps) /\ (forall x, x ∈ rs_seen s <-> x ∈ ev_id <$> early ++ ps) /\
    (processed_delay = 0%nat -> early = []).
Proof.
  intros Hp Hl. destruct (prepare_wallet_ok c s relays os Hp) as (pk & acts0 & _ & Hl0 & -> & ->).
  rewrite Hl in Hl0. injection Hl0 as <-.
  destruct (wait_stable_processed_prefix processed_delay (relay_logs relays) acts) as [ps Hps].
  destruct (wait_stable_proc (relay_logs relays) acts) as (Hnd & Hseen & _).
  exists (unreported relays acts), ps. unfold unreported at 2 3 4. rewrite Hps in Hnd, Hseen |- *.
  rewrite drop_app_length. split_and!; try done.
  intros Hd. unfold unreported. rewrite Hd, take_0, run_until_stable_nil.
  unfold init_sync, fire. by destruct (_ && _).
Qed.

(** C4: a token deleted by an event delivered before [Stable] is not
    live in the wallet [prepareWallet] returns, whether the deletion
    arrived before or after the receive, when identifiers name one
    event each across the relays' logs. *)
Theorem prepare_wallet_deleted_not_live c s relays os acts ed i :
  prepare_wallet show_event show_error c = (Ok (s, relays), os) -> load_wallet relays = Some acts ->
  ed ∈ sy_delivered (wait_stable (relay_logs relays) acts) -> ev_payload ed = TokenDeleted i ->
  (forall e1 e2, e1 ∈ concat (relay_log <$> relays) -> e2 ∈ concat (relay_log <$> relays) ->
     ev_id e1 = ev_id e2 -> e1 = e2) ->
  tokens (rs_wallet s) !! i = None.
Proof.
  intros Hp Hl Hin Hd Hid. destruct (prepare_wallet_ok c s relays os Hp) as (pk & acts0 & _ & Hl0 & -> & _).
  rewrite Hl in Hl0. injection Hl0 as <-. rewrite wait_stable_replay.
  destruct (reachable_rs_inv (replay init_state (sy_delivered (wait_stable (relay_logs relays) acts))))
    as [_ Ht]; [apply replay_reachable, reachable_init|].
  apply Ht, (replay_deleted _ _ ed); [done|done| |].
  - intros Hs. by apply not_elem_of_empty in Hs.
  - intros e He Heq. rewrite <-relay_logs_snd in Hid.
    apply Hid; [by eapply wait_stable_delivered_in_logs.. | done].
Qed.

(** C5: every wallet [prepareWallet] returns stores each live token
    under its own identifier and keeps no tombstoned identifier live. *)
Theorem prepare_wallet_invariant c s relays os :
  prepare_wallet show_event show_error c = (Ok (s, relays), os) -> rs_inv s.
Proof.
  intros Hp. destruct (prepare_wallet_ok c s relays os Hp) as (pk & acts & _ & _ & -> & _).
  rewrite wait_stable_replay. apply reachable_rs_inv, replay_reachable, reachable_init.
Qed.

(** C26: the nutzap private key of the wallet [prepareWallet] returns
    depends on the order in which the relays deliver two registrations
    of different keys: the first one delivered is kept. *)
Theorem prepare_wallet_key_first_wins c s relays os acts e1 e2 a b :
  prepare_wallet show_event show_error c = (Ok (s, relays), os) -> load_wallet relays = Some acts ->
  sy_delivered (wait_stable (relay_logs relays) acts) = [e1; e2] ->
  ev_payload e1 = PrivKeyReg a -> ev_payload e2 = PrivKeyReg b -> ev_id e1 <> ev_id e2 ->
  private_key (rs_wallet s) = Some a.
Proof.
  intros Hw Hl Hd Ha Hb Hne. destruct (prepare_wallet_ok c s relays os Hw) as (pk & acts0 & _ & Hl0 & -> & _).
  rewrite Hl in Hl0. injection Hl0 as <-. rewrite wait_stable_replay, Hd.
  by destruct (privkey_first_wins init_state e1 e2 a b Ha Hb eq_refl
                 (not_elem_of_empty _) (not_elem_of_empty _) Hne).
Qed.

(** C38: well-formed tokens.  When every token the outbox relays
    store is well-formed (its proofs all belong to its mint), so is
    every live token of the wallet [prepareWallet] returns, whatever
    the network delivered before [Stable]. *)
Theorem prepare_wallet_tokens_wf c s relays os :
  prepare_wallet show_event show_error c = (Ok (s, relays), os) ->
  Forall (fun e => payload_wf (ev_payload e)) (concat (relay_log <$> relays)) ->
  tokens_wf (tokens (rs_wallet s)).
Proof.
  intros Hp Hwf. destruct (prepare_wallet_ok c s relays os Hp) as (pk & acts & _ & _ & -> & _).
  rewrite wait_stable_replay. apply replay_wf; [|apply map_Forall_empty].
  apply Forall_forall. intros e He. rewrite Forall_forall in Hwf. apply Hwf.
  rewrite <-relay_logs_snd. by eapply wait_stable_delivered_in_logs.
Qed.

End SessionTheorems.

(** ** Witnesses: the handlers run in a test environment *)

(** An environment whose outbox relays store [logs], the network
    acting as [acts] before the wait elapses. *)
Definition net_env (logs : string -> list LogEvent) (acts : list action) (delay : nat) : Env := {|
  gather_keyer _ := Ok tt;
  get_public_key := Ok "pk";
  fetch_outbox_relays _ _ := ["wss://r1"; "wss://r2"];
  fetch_write_relays _ _ := ["wss://r1"];
  load_wallet _ := Some acts;
  processed_delay := delay;
  relay_log := logs;
  now := 100;
  event_id_of := @event_id_of (test_env true false);
  normalize_url := @normalize_url (test_env true false);
  fetch_specific_event _ := Err (Errorf "event not found");
  fetch_profile t := Ok (mkProfile t "bob" "npub1bob");
  nutzap_recipient _ := (["https://a"], ["wss://inbox"]);
  query_nutzap_info _ _ := None;
  parse_private_key sk := Ok sk;
  sign_nutzap_info _ := Ok (mkEvent "info" NutzapInfo)
|}.

(** Relay r1 stores [evs] and delivers them, then EOSE; relay r2 stores
    nothing and never answers: it times out. *)
Definition cmd_env (evs : list LogEvent) : Env :=
  net_env (fun r => if decide (r = "wss://r1") then evs else [])
          (((fun _ => Deliver 0) <$> evs) ++ [Eose 0]) 0.

Definition session_cmd : Cmd := test_cmd ["10"] [].

Definition r5 : LogEvent := mkEvent "r5" (TokenReceived tok5).
Definition r7 : LogEvent := mkEvent "r7" (TokenReceived tok7).
Definition d5 : LogEvent := mkEvent "d5" (TokenDeleted (token_id tok5)).

(** The run, state and relays of [prepareWallet] in an environment. *)
Definition prep_in (E : Env) (c : Cmd) := @prepare_wallet E show_any show_any c.
Definition st_in (E : Env) (c : Cmd) : RState := (ok_or (init_state, []) (prep_in E c).1).1.
Definition rel_in (E : Env) (c : Cmd) : list string := (ok_or (init_state, []) (prep_in E c).1).2.
Definition prep (evs : list LogEvent) := prep_in (cmd_env evs).
Definition st (evs : list LogEvent) := st_in (cmd_env evs).
Definition rel (evs : list LogEvent) := rel_in (cmd_env evs).

(** A run that succeeds, checked by evaluating [is_ok] alone. *)
Lemma prep_in_eq E c :
  is_ok (prep_in E c).1 = true -> prep_in E c = (Ok (st_in E c, rel_in E c), (prep_in E c).2).
Proof. intros H. unfold st_in, rel_in. rewrite <-surjective_pairing. by apply cli_ok_eq. Qed.

Lemma prepare_wallet_load_failure_witness :
  @prepare_wallet (test_env false false) show_any show_any (test_cmd ["10"] [])
  = (Err (Errorf "error loading walle"), []).
Proof. apply (@prepare_wallet_load_failure (test_env false false)) with (pk := "pk"); reflexivity. Defined.

(** Both relays store [r7]; r2 delivers first, then r1 re-delivers it. *)
Definition mirror_env : Env :=
  net_env (fun r => if decide (r = "wss://r1") then [r5; r7] else [r7])
          [Deliver 1; Deliver 0; Eose 1; Deliver 0; Eose 0] 1.

Lemma prepare_wallet_order_independent_witness :
  st_in mirror_env session_cmd
  = replay init_state (concat (@relay_log mirror_env <$> rel_in mirror_env session_cmd)).
Proof.
  apply (@prepare_wallet_order_independent mirror_env show_any show_any session_cmd
           _ _ (prep_in mirror_env session_cmd).2
           [Deliver 1; Deliver 0; Eose 1; Deliver 0; Eose 0]).
  - apply prep_in_eq. vm_compute. reflexivity.
  - vm_compute. reflexivity.
  - apply (bool_decide_unpack _). vm_compute. reflexivity.
  - apply stream_compat_b_sound. vm_compute. reflexivity.
Defined.

(** In [mirror_env] the callback is installed after the first action:
    [r7], delivered first by relay r2, is applied but never reported;
    its re-delivery by r1 is not processed again. *)
Lemma prepare_wallet_processed_once_witness :
  exists early ps,
    early = @unreported mirror_env (rel_in mirror_env session_cmd) [Deliver 1; Deliver 0; Eose 1; Deliver 0; Eose 0] /\
    (prep_in mirror_env session_cmd).2 = (fun e => processed show_any show_any e (event_error e)) <$> ps /\
    NoDup (ev_id <$> early ++ ps) /\
    (forall x, x ∈ rs_seen (st_in mirror_env session_cmd) <-> x ∈ ev_id <$> early ++ ps) /\
    (@processed_delay mirror_env = 0%nat -> early = []).
Proof.
  apply (@prepare_wallet_processed_once mirror_env show_any show_any session_cmd _
           (rel_in mirror_env session_cmd)).
  - apply prep_in_eq. vm_compute. reflexivity.
  - vm_compute. reflexivity.
Defined.

(** The event applied before the callback is [r7], and the one line
    written is for [r5]. *)
Example mirror_env_unreported :
  @unreported mirror_env (rel_in mirror_env session_cmd) [Deliver 1; Deliver 0; Eose 1; Deliver 0; Eose 0] = [r7]
  /\ (prep_in mirror_env session_cmd).2 = [processed show_any show_any r5 (event_error r5)].
Proof. split; vm_compute; reflexivity. Qed.

Lemma prepare_wallet_deleted_not_live_witness :
  tokens (rs_wallet (st [d5; r5; r7] session_cmd)) !! token_id tok5 = None.
Proof.
  apply (@prepare_wallet_deleted_not_live (cmd_env [d5; r5; r7]) show_any show_any session_cmd
           _ (rel [d5; r5; r7] session_cmd) (prep [d5; r5; r7] session_cmd).2
           [Deliver 0; Deliver 0; Deliver 0; Eose 0] d5).
  - apply prep_in_eq. vm_compute. reflexivity.
  - vm_compute. reflexivity.
  - apply (bool_decide_unpack _). vm_compute. reflexivity.
  - reflexivity.
  - intros e1 e2 He1 He2. refine (proj1 (stream_compat_b_sound _ _ e1 e2 He1 He2)).
    vm_compute. reflexivity.
Defined.

Lemma prepare_wallet_invariant_witness : rs_inv (st [d5; r5; r7] session_cmd).
Proof.
  apply (@prepare_wallet_invariant (cmd_env [d5; r5; r7]) show_any show_any session_cmd
           _ (rel [d5; r5; r7] session_cmd) (prep [d5; r5; r7] session_cmd).2).
  apply prep_in_eq. vm_compute. reflexivity.
Defined.

Definition k1 : LogEvent := mkEvent "k1" (PrivKeyReg "a").
Definition k2 : LogEvent := mkEvent "k2" (PrivKeyReg "b").

Lemma prepare_wallet_key_first_wins_witness :
  private_key (rs_wallet (st [k1; k2] session_cmd)) = Some "a".
Proof.
  apply (@prepare_wallet_key_first_wins (cmd_env [k1; k2]) show_any show_any session_cmd _
           (rel [k1; k2] session_cmd) (prep [k1; k2] session_cmd).2
           [Deliver 0; Deliver 0; Eose 0] k1 k2 "a" "b").
  - apply prep_in_eq. vm_compute. reflexivity.
  - vm_compute. reflexivity.
  - vm_compute. reflexivity.
  - reflexivity.
  - reflexivity.
  - discriminate.
Defined.

Lemma prepare_wallet_tokens_wf_witness :
  tokens_wf (tokens (rs_wallet (st_in mirror_env session_cmd))).
Proof.
  apply (@prepare_wallet_tokens_wf mirror_env show_any show_any session_cmd _
           (rel_in mirror_env session_cmd) (prep_in mirror_env session_cmd).2).
  - apply prep_in_eq. vm_compute. reflexivity.
  - apply (bool_decide_unpack _). vm_compute. reflexivity.
Defined.

End Session.
