(* ===== verification/Handlers.v ===== *)
(** * The [nak wallet] command handlers (src/wallet.go 84-477)

    Each [Action] of the wallet command tree is a computation in the
    [cli] monad ([Cli]): it checks its arguments, opens the session
    ([Session.prepare_wallet]), calls one wallet operation ([Ledger],
    [Ops]), publishes the events the operation emits and prints its
    result.  The theorems say what each command does on its success and
    error paths, and what the events it publishes do to the balance when
    the next command reads them back. *)

From Stdlib Require Import Ascii.
From S2P Require Import Prelude Cashu Ledger Reducer Publish Ops Cli Session.
Import Cashu Ledger Reducer Publish Ops Cli Session.

Module Handlers.

Section Handlers.
Context `{Env} `{RelayPool} `{MintService} `{TokenCodec}.
Context (color_error color_success : string -> string)
        (show_event : LogEvent -> string) (show_error : error -> string)
        (show_token_id : TokenId -> string).

(** [nak wallet], lines 90-100: print the balance. *)
Definition wallet_cmd (c : Cmd) : cli unit :=
  do '(s, _) <- prepare_wallet show_event show_error c;
  write [Stdout (fmt_d (balance (rs_wallet s)))] ;;
  closew.
(** The [for _, url := range w.Mints] loop of lines 112-114. *)
Fixpoint print_mints (urls : list string) : cli unit :=
  match urls with
  | [] => cret tt
  | u :: us => do h <- of_result (split_1 u "://"); write [Stdout h] ;; print_mints us
  end.
(** [nak wallet mints], lines 106-118. *)
Definition mints_cmd (c : Cmd) : cli unit :=
  do '(s, _) <- prepare_wallet show_event show_error c;
  print_mints (mints (rs_wallet s)) ;;
  closew.
(** [nak wallet mints add], lines 124-136: [w.AddMint] stores the new
    list in a wallet event and publishes it. *)
Definition mints_add_cmd (c : Cmd) : cli unit :=
  do '(s, relays) <- prepare_wallet show_event show_error c;
  let w := add_mint (args c) (rs_wallet s) in
  publish color_error color_success relays (rs_wallet s) (MintList now (mints w)) ;;
  closew.
(** [nak wallet mints remove], lines 142-154. *)
Definition mints_remove_cmd (c : Cmd) : cli unit :=
  do '(s, relays) <- prepare_wallet show_event show_error c;
  let w := remove_mint (args c) (rs_wallet s) in
  publish color_error color_success relays (rs_wallet s) (MintList now (mints w)) ;;
  closew.
(** The [for _, token := range w.Tokens] loop of lines 168-170:
    [stdout(token.ID(), token.Proofs.Amount(), host)]. *)
Fixpoint print_tokens (ts : list (TokenId * Token)) : cli unit :=
  match ts with
  | [] => cret tt
  | (i, t) :: ts' =>
      do h <- of_result (split_1 (token_mint t) "://");
      write [Stdout (show_token_id i +:+ " " +:+ fmt_d (token_amount t) +:+ " " +:+ h)] ;;
      print_tokens ts'
  end.
(** [nak wallet tokens], lines 162-174. *)
Definition tokens_cmd (c : Cmd) : cli unit :=
  do '(s, _) <- prepare_wallet show_event show_error c;
  print_tokens (map_to_list (tokens (rs_wallet s))) ;;
  closew.
(** [nak wallet receive <token>], lines 187-214. *)
Definition receive_cmd (c : Cmd) : cli unit :=
  match args c with
  | [tok] =>
      do '(s, relays) <- prepare_wallet show_event show_error c;
      do '(proofs, mint) <- of_result (get_proofs_and_mint tok);
      let dest := receive_destination (slice_flag c "mint") in
      do ps <- of_result (receive proofs mint dest);
      publish_all color_error color_success relays (rs_wallet s) ps ;;
      closew
  | _ => cfail (Errorf "must be called as `nak wallet receive <token>")
  end.
(** [nak wallet send <amount>], lines 227-256. *)
Definition send_cmd (c : Cmd) : cli unit :=
  match args c with
  | [a] =>
      match parse_uint64 a with
      | None => cfail (Errorf ("amount '" +:+ a +:+ "' is invalid"))
      | Some amount =>
          do '(s, relays) <- prepare_wallet show_event show_error c;
          do mint_opt <- of_result (mint_option (str_flag c "mint"));
          do '(sp, m, ps) <- of_result (send (rs_wallet s) amount mint_opt);
          publish_all color_error color_success relays (rs_wallet s) ps ;;
          write [Stdout (make_token_string sp m)] ;;
          closew
      end
  | _ => cfail (Errorf "must be called as `nak wallet send <amount>")
  end.
(** [nak wallet pay <invoice>], lines 269-295. *)
Definition pay_cmd (c : Cmd) : cli unit :=
  match args c with
  | [inv] =>
      do '(s, relays) <- prepare_wallet show_event show_error c;
      do mint_opt <- of_result (mint_option (str_flag c "mint"));
      do '(preimage, ps) <- of_result (pay_bolt11 (rs_wallet s) inv mint_opt);
      publish_all color_error color_success relays (rs_wallet s) ps ;;
      write [Stdout preimage] ;;
      closew
  | _ => cfail (Errorf "must be called as `nak wallet pay <invoice>")
  end.
(** Lines 371-384: the outcomes of the nutzap's publication, on one line. *)
Definition nutzap_report (results : list PublishResult) : list out :=
  Log "- publishing nutzap... " :: report_loop color_error color_success true results.
(** Lines 324-325: the amount and the target of a nutzap, read from
    the flags ["amount"] and ["target"]. *)
Definition nutzap_inputs (c : Cmd) : N * string := (uint_flag c "amount", str_flag c "target").
(** [nak wallet nutzap <amount> <target>], lines 313-388.  The amount
    and the target are read from the flags ["amount"] and ["target"],
    which the command does not declare; the [--mint] option is built
    but not passed to [SendNutzap].  [nip61.SendNutzap] (lines 350-361)
    discovers the recipient ([nutzap_recipient]), spends from a mint it
    accepts ([nutzap_spend]; the spend's events go through
    [PublishUpdate]) and publishes the nutzap to the recipient's inbox
    relays, whose outcomes the loop of lines 367-384 reports. *)
Definition nutzap_cmd (c : Cmd) : cli unit :=
  if decide (length (args c) < 2)%nat
  then cfail (Errorf "must be called as `nak wallet nutzap <amount> <target>...")
  else
    do '(s, relays) <- prepare_wallet show_event show_error c;
    let '(amount, target) := nutzap_inputs c in
    do '(event_id, target') <- of_result (nutzap_target target);
    do pm <- of_result (fetch_profile target');
    write [Log ("sending " +:+ fmt_d amount +:+ " sat to '" +:+ pm_short_name pm
                +:+ "' (" +:+ pm_npub pm +:+ ")")] ;;
    do _ <- of_result (mint_option (str_flag c "mint"));
    let '(accepted, inbox) := nutzap_recipient (pm_pubkey pm) in
    do '(sp, m, ps) <- of_result (nutzap_spend (rs_wallet s) accepted amount);
    publish_all color_error color_success relays (rs_wallet s) ps ;;
    let zap := signed (Nutzap (mkToken m sp) (pm_pubkey pm) event_id (str_flag c "message")) in
    write (nutzap_report (publish_many inbox zap)) ;;
    closew.
(** The private-key part of [nak wallet nutzap setup], lines 415-425. *)
Definition setup_key (relays : list string) (w : Wallet) (sk : string) (force : bool)
    : cli Wallet :=
  match private_key w with
  | None =>
      if decide (sk = "") then cfail (Errorf "missing --private-key")
      else do k <- of_result (parse_private_key sk);
           publish color_error color_success relays w (PrivKeyReg k) ;;
           cret (mkWallet (mints w) (tokens w) (Some k))
  | Some _ =>
      if decide (sk <> "" /\ force = false)
      then cfail (Errorf "refusing to replace existing private key, use the --force flag")
      else cret w
  end.
(** Lines 431-443: the mints of the kind:10019 event, those of the
    one found on the relays, or the wallet's when neither the ["mints"]
    flag nor that event gives any. *)
Definition setup_info_mints (c : Cmd) (w : Wallet) (found : option (list string)) : list string :=
  let info_mints := default [] found in
  if decide (slice_flag c "mints" = [] /\ info_mints = []) then mints w else info_mints.
(** Lines 453-469: the signed kind:10019 event on standard output,
    then the outcomes of its publication on one line. *)
Definition setup_report (evt : LogEvent) (rs : list PublishResult) : list out :=
  Stdout (show_event evt) :: Log "- saving kind:10019 event... "
  :: report_loop color_error color_success true rs.
(** Lines 427-429: the signer's key and its six write relays; the
    errors of [gatherKeyerFromArguments] and [GetPublicKey] are
    discarded, an unknown key reading as the empty string. *)
Definition setup_relays : string * list string :=
  let pk := match get_public_key with Ok pk => pk | Err _ => "" end in
  (pk, fetch_write_relays pk 6).
(** [nak wallet nutzap setup], lines 409-473. *)
Definition setup_cmd (c : Cmd) : cli unit :=
  do '(s, relays) <- prepare_wallet show_event show_error c;
  do w <- setup_key relays (rs_wallet s) (str_flag c "private-key") (bool_flag c "force");
  let '(pk, relays6) := setup_relays in
  let info_mints := setup_info_mints c w (query_nutzap_info relays6 pk) in
  if decide (info_mints = []) then cfail (Errorf "missing --mint")
  else
    do evt <- of_result (sign_nutzap_info info_mints);
    write (setup_report evt (publish_many relays6 evt)) ;;
    closew.
(** The action the command tree runs for each sub-command. *)
Definition run_wallet (w : WalletSub) (c : Cmd) : cli unit :=
  match w with
  | WBalance => wallet_cmd c
  | WMints => mints_cmd c
  | WMintsAdd => mints_add_cmd c
  | WMintsRemove => mints_remove_cmd c
  | WTokens => tokens_cmd c
  | WReceive => receive_cmd c
  | WSend => send_cmd c
  | WPay => pay_cmd c
  | WNutzap => nutzap_cmd c
  | WNutzapSetup => setup_cmd c
  end.
End Handlers.

(** Whatever the command line, [nutzap] reads the zero values of its
    two undeclared flags. *)
Lemma nutzap_inputs_undeclared a set :
  nutzap_inputs (parse_cmd (declared_flags WNutzap) a set) = (0, "").
Proof.
  unfold nutzap_inputs. cbn [parse_cmd str_flag uint_flag].
  by rewrite !(flag_values_undeclared (declared_flags WNutzap)) by (simpl; set_solver).
Qed.

(** Printing mint urls that all split prints their hosts first. *)
Lemma print_mints_app good l :
  Forall (fun u => is_ok (split_1 u "://") = true) good ->
  print_mints (good ++ l) =
    ((print_mints l).1, ((fun u => Stdout (ok_or "" (split_1 u "://"))) <$> good) ++ (print_mints l).2).
Proof.
  induction 1 as [|u good Hu _ IH]; simpl; [by destruct (print_mints l)|].
  destruct (split_1 u "://") as [h|e]; [|done]. simpl. rewrite IH. done.
Qed.

Section HandlerTheorems.
Context `{Env} `{RelayPool} `{MintService} `{TokenCodec}.
Context (color_error color_success : string -> string)
        (show_event : LogEvent -> string) (show_error : error -> string).

Abbreviation prepare := (prepare_wallet show_event show_error).
Abbreviation publish_all' := (publish_all color_error color_success).

(** C19: [nak wallet send] on its success path: the wallet events are
    published, the token string is printed, and the wallet is closed. *)
Theorem send_cmd_ok c a amount s relays os mint_opt sp m ps :
  args c = [a] -> parse_uint64 a = Some amount ->
  prepare c = (Ok (s, relays), os) ->
  mint_option (str_flag c "mint") = Ok mint_opt ->
  send (rs_wallet s) amount mint_opt = Ok (sp, m, ps) ->
  send_cmd color_error color_success show_event show_error c =
    (Ok tt, os ++ (publish_all' relays (rs_wallet s) ps).2
               ++ [Stdout (make_token_string sp m); CloseWallet]).
Proof.
  intros Ha Hp Hw Hm Hs. unfold send_cmd. rewrite Ha, Hp, Hw. simpl.
  rewrite Hm, Hs. simpl. pose proof (publish_all_ok color_error color_success relays (rs_wallet s) ps) as Hpub.
  destruct (publish_all' relays (rs_wallet s) ps) as [r o]. simpl in Hpub. by subst r.
Qed.

(** C20: when the wallet operation of [nak wallet send] fails, the
    handler returns its error with the output of the loading only: the
    wallet is not closed on this path. *)
Theorem send_cmd_error_leaves_wallet_open c a amount s relays os mint_opt e :
  args c = [a] -> parse_uint64 a = Some amount ->
  prepare c = (Ok (s, relays), os) ->
  mint_option (str_flag c "mint") = Ok mint_opt ->
  send (rs_wallet s) amount mint_opt = Err e ->
  send_cmd color_error color_success show_event show_error c = (Err e, os) /\
  CloseWallet ∉ os.
Proof.
  intros Ha Hp Hw Hm Hs. unfold send_cmd. rewrite Ha, Hp, Hw. simpl.
  rewrite Hm, Hs. simpl. rewrite !app_nil_r. split; [done|].
  pose proof (prepare_wallet_no_close show_event show_error c) as Hn. by rewrite Hw in Hn.
Qed.

(** C21: [nak wallet nutzap] does not read its positional arguments:
    with two arguments or more, its behaviour is the same whatever they
    are, because the amount and the target are read from flags the
    command does not declare. *)
Theorem nutzap_ignores_arguments a1 a2 sf slf bf uf :
  (2 <= length a1)%nat -> (2 <= length a2)%nat ->
  nutzap_cmd color_error color_success show_event show_error (mkCmd a1 sf slf bf uf)
  = nutzap_cmd color_error color_success show_event show_error (mkCmd a2 sf slf bf uf).
Proof.
  intros Hl1 Hl2. unfold nutzap_cmd. simpl.
  rewrite !decide_False by lia. reflexivity.
Qed.

(** C22: whatever command line [nak wallet nutzap] is given, it sends
    0 sat to the profile of the empty target: the amount and the target
    are read from flags the command does not declare, which urfave/cli
    reads as zero values. *)
Theorem nutzap_sends_zero_to_empty_target a set s relays os pm :
  (2 <= length a)%nat ->
  prepare (parse_cmd (declared_flags WNutzap) a set) = (Ok (s, relays), os) ->
  fetch_profile "" = Ok pm ->
  exists r rest,
    nutzap_cmd color_error color_success show_event show_error (parse_cmd (declared_flags WNutzap) a set)
    = (r, os ++ Log ("sending " +:+ fmt_d 0 +:+ " sat to '" +:+ pm_short_name pm
                     +:+ "' (" +:+ pm_npub pm +:+ ")") :: rest).
Proof.
  intros Hl Hp Hf. unfold nutzap_cmd. simpl length. rewrite decide_False by lia.
  rewrite Hp, nutzap_inputs_undeclared. simpl. rewrite Hf. simpl.
  by eexists _, _.
Qed.

(** C23: [nak wallet nutzap setup --private-key k --force] on a wallet
    that has a key keeps the old key and publishes nothing: the flag
    does not force a replacement. *)
Theorem setup_key_force_keeps_key relays w k sk :
  private_key w = Some k ->
  setup_key color_error color_success relays w sk true = (Ok w, []).
Proof.
  intros Hk. unfold setup_key. rewrite Hk. rewrite decide_False; [done|]. intros [_ ?]; done.
Qed.

(** C24: [nak wallet nutzap setup] does not read its [--mint] flag: it
    reads ["mints"], a flag it does not declare, so the same run
    results whatever mints are given. *)
Theorem setup_ignores_mint_flag a sf slf bf uf ms :
  setup_cmd color_error color_success show_event show_error (mkCmd a sf slf bf uf)
  = setup_cmd color_error color_success show_event show_error
      (mkCmd a sf (fun n => if decide (n = "mint") then ms else slf n) bf uf).
Proof. reflexivity. Qed.

(** C2: conservation.  When [nak wallet send <amount>] succeeds, it
    prints a token worth exactly the amount, and the events it published
    (the deletions of the spent tokens and the change), read back by the
    next command, lower the balance by exactly the amount, when the
    signer gives them fresh identifiers and the change is a new token. *)
Theorem send_cmd_conservation c a amount s relays os o :
  args c = [a] -> parse_uint64 a = Some amount ->
  prepare c = (Ok (s, relays), os) ->
  send_cmd color_error color_success show_event show_error c = (Ok tt, o) ->
  exists sp m ps,
    o = os ++ (publish_all color_error color_success relays (rs_wallet s) ps).2
          ++ [Stdout (make_token_string sp m); CloseWallet] /\
    proofs_amount sp = amount /\
    (NoDup (event_id_of <$> ps) -> (forall p, p ∈ ps -> event_id_of p ∉ rs_seen s) ->
     change_fresh s ps ->
     balance (rs_wallet (replay s (signed <$> ps))) + amount = balance (rs_wallet s)).
Proof.
  intros Ha Hp Hw Hc. unfold send_cmd in Hc. rewrite Ha, Hp, Hw in Hc. simpl in Hc.
  destruct (mint_option (str_flag c "mint")) as [mo|e] eqn:Hm; simpl in Hc; [|congruence].
  destruct (send (rs_wallet s) amount mo) as [[[sp m] ps]|e] eqn:Hs; simpl in Hc; [|congruence].
  pose proof (publish_all_ok color_error color_success relays (rs_wallet s) ps) as Hok.
  destruct (publish_all _ _ relays (rs_wallet s) ps) as [r o'] eqn:E.
  simpl in Hok, Hc. subst r. injection Hc as <-.
  exists sp, m, ps. split; [by rewrite E|]. split; [by eapply send_amount|].
  intros Hnd Hfresh Hch. rewrite <-emit_signed.
  eapply send_conservation;
    [exact Hs | done | by rewrite length_fmap | done | by apply signed_ids_fresh | done].
Qed.

(** C9: [nak wallet send <amount>] fails with [InsufficientFunds]
    when no candidate mint holds the amount in live tokens of that mint
    alone; it then publishes nothing, prints nothing and, returning
    early, does not close the wallet. *)
Theorem send_cmd_insufficient c a amount s relays os mo :
  args c = [a] -> parse_uint64 a = Some amount ->
  prepare c = (Ok (s, relays), os) -> mint_option (str_flag c "mint") = Ok mo ->
  (forall m, m ∈ candidate_mints (rs_wallet s) mo ->
     sel_total (tokens_of_mint m (map_to_list (tokens (rs_wallet s)))) < amount) ->
  send_cmd color_error color_success show_event show_error c = (Err InsufficientFunds, os).
Proof.
  intros Ha Hp Hw Hm Hns. unfold send_cmd. rewrite Ha, Hp, Hw. simpl. rewrite Hm. simpl.
  unfold send. rewrite (proj2 (choose_tokens_insufficient _ _ _) Hns). simpl.
  by rewrite !app_nil_r.
Qed.

(** C6: round trip.  The token string [nak wallet send <amount>]
    prints, given to [nak wallet receive] (without [--mint]) on any
    wallet, decodes to the token that is stored, worth exactly the
    amount: read back, the receiving wallet's balance grows by the
    amount. *)
Theorem send_then_receive c a amount s relays os o tok c' s' relays' os' :
  args c = [a] -> parse_uint64 a = Some amount ->
  prepare c = (Ok (s, relays), os) ->
  send_cmd color_error color_success show_event show_error c = (Ok tt, o) -> Stdout tok ∈ o ->
  args c' = [tok] -> prepare c' = (Ok (s', relays'), os') -> slice_flag c' "mint" = [] ->
  exists t,
    get_proofs_and_mint tok = Ok (token_proofs t, token_mint t) /\
    receive_cmd color_error color_success show_event show_error c'
    = (Ok tt, os' ++ (publish_all color_error color_success relays' (rs_wallet s') [TokenReceived t]).2
                  ++ [CloseWallet]) /\
    token_amount t = amount /\
    (event_id_of (TokenReceived t) ∉ rs_seen s' -> token_id t ∉ rs_tombs s' ->
     tokens (rs_wallet s') !! token_id t = None ->
     balance (rs_wallet (replay s' [signed (TokenReceived t)])) = balance (rs_wallet s') + amount).
Proof.
  intros Ha Hp Hw Hc Hout Ha' Hw' Hf. unfold send_cmd in Hc. rewrite Ha, Hp, Hw in Hc. simpl in Hc.
  destruct (mint_option (str_flag c "mint")) as [mo|e] eqn:Hm; simpl in Hc; [|congruence].
  destruct (send (rs_wallet s) amount mo) as [[[sp m] ps]|e] eqn:Hs; simpl in Hc; [|congruence].
  pose proof (publish_all_ok color_error color_success relays (rs_wallet s) ps) as Hok.
  pose proof (publish_all_logs color_error color_success relays (rs_wallet s) ps) as Hlog.
  destruct (publish_all _ _ relays (rs_wallet s) ps) as [r o''] eqn:E.
  simpl in Hok, Hc, Hlog. subst r. injection Hc as <-.
  pose proof (prepare_wallet_logs show_event show_error c) as Hlog0. rewrite Hw in Hlog0.
  assert (tok = make_token_string sp m) as ->.
  { revert Hout. rewrite !elem_of_app.
    intros [Hin|[Hin|Hin]]; [by apply logs_no_stdout in Hin|by apply logs_no_stdout in Hin|].
    apply elem_of_cons in Hin as [Heq|Hin]; [by injection Heq|by apply list_elem_of_singleton in Hin]. }
  exists (mkToken m sp). unfold receive_cmd. rewrite Ha', Hw'. simpl.
  rewrite get_make_token_string. split; [done|]. simpl. rewrite Hf. simpl.
  pose proof (publish_all_ok color_error color_success relays' (rs_wallet s') [TokenReceived (mkToken m sp)]) as Hok'.
  destruct (publish_all _ _ relays' (rs_wallet s') [TokenReceived (mkToken m sp)]) as [r o'] eqn:E'.
  simpl in Hok'. subst r. split; [done|].
  assert (token_amount (mkToken m sp) = amount) as Hamt by (by eapply send_amount).
  split; [done|]. intros Hid Htb Hl. rewrite <-Hamt.
  by apply (apply_event_receive_balance (signed (TokenReceived (mkToken m sp)))).
Qed.

(** C8: all-or-nothing payment.  When the mint fails to pay the invoice,
    [nak wallet pay] returns the mint's error having published no event
    and printed nothing: the selected tokens stay live. *)
Theorem pay_cmd_melt_failure c inv s relays os m a sel e :
  args c = [inv] -> prepare c = (Ok (s, relays), os) ->
  mint_option (str_flag c "mint") = Ok (Some m) ->
  quote_invoice m inv = Ok a -> choose_tokens (rs_wallet s) a (Some m) = Ok (m, sel) ->
  melt m (sel_proofs sel) inv = Err e ->
  pay_cmd color_error color_success show_event show_error c = (Err e, os).
Proof.
  intros Ha Hw Hm Hq Hc Hmelt. unfold pay_cmd. rewrite Ha, Hw. simpl. rewrite Hm. simpl.
  rewrite (pay_bolt11_melt_failure _ _ _ _ _ _ Hq Hc Hmelt). simpl. by rewrite !app_nil_r.
Qed.

(** C7: conservation for [nak wallet pay]: when it succeeds it prints
    the preimage, and the events it published, read back, lower the
    balance by exactly the amount the mint quoted for the invoice. *)
Theorem pay_cmd_conservation c inv s relays os o :
  args c = [inv] -> prepare c = (Ok (s, relays), os) ->
  pay_cmd color_error color_success show_event show_error c = (Ok tt, o) ->
  exists mo pre ps a,
    mint_option (str_flag c "mint") = Ok mo /\
    quote_invoice (match mo with Some m => m | None => default "" (head (mints (rs_wallet s))) end) inv = Ok a /\
    o = os ++ (publish_all color_error color_success relays (rs_wallet s) ps).2
          ++ [Stdout pre; CloseWallet] /\
    (NoDup (event_id_of <$> ps) -> (forall p, p ∈ ps -> event_id_of p ∉ rs_seen s) ->
     change_fresh s ps ->
     balance (rs_wallet (replay s (signed <$> ps))) + a = balance (rs_wallet s)).
Proof.
  intros Ha Hw Hc. unfold pay_cmd in Hc. rewrite Ha, Hw in Hc. simpl in Hc.
  destruct (mint_option (str_flag c "mint")) as [mo|e] eqn:Hm; simpl in Hc; [|congruence].
  destruct (pay_bolt11 (rs_wallet s) inv mo) as [[pre ps]|e] eqn:Hpay; simpl in Hc; [|congruence].
  set (m0 := match mo with Some m => m | None => default "" (head (mints (rs_wallet s))) end).
  destruct (quote_invoice m0 inv) as [a|e] eqn:Hq;
    [|unfold pay_bolt11 in Hpay; fold m0 in Hpay; by rewrite Hq in Hpay].
  pose proof (publish_all_ok color_error color_success relays (rs_wallet s) ps) as Hok.
  destruct (publish_all _ _ relays (rs_wallet s) ps) as [r o'] eqn:E.
  simpl in Hok, Hc. subst r. injection Hc as <-.
  exists mo, pre, ps, a. split_and!; [done | done | by rewrite E |].
  intros Hnd Hfresh Hch. rewrite <-emit_signed.
  eapply (pay_conservation _ _ _ m0); [done | exact Hq | exact Hpay | done | by rewrite length_fmap
                                     | done | by apply signed_ids_fresh | done].
Qed.

(** C10: [nak wallet mints add <url>...] publishes a mint list without
    duplicates that holds exactly the old mints and the new urls, the old
    ones first in their order, and closes the wallet. *)
Theorem mints_add_cmd_list c s relays os :
  prepare c = (Ok (s, relays), os) -> NoDup (mints (rs_wallet s)) ->
  exists L,
    mints_add_cmd color_error color_success show_event show_error c
    = (Ok tt, os ++ (publish color_error color_success relays (rs_wallet s) (MintList now L)).2
                 ++ [CloseWallet]) /\
    NoDup L /\ (forall x, x ∈ L <-> x ∈ args c \/ x ∈ mints (rs_wallet s)) /\
    prefix (mints (rs_wallet s)) L.
Proof.
  intros Hw Hnd. exists (mints (add_mint (args c) (rs_wallet s))).
  destruct (add_mint_correct (args c) (rs_wallet s) Hnd) as (HL & Hx & Hpre & _).
  split_and!; [| done | done | done].
  unfold mints_add_cmd. rewrite Hw. reflexivity.
Qed.

(** C11: [nak wallet mints remove <url>...] publishes the old mint list
    without the named urls, and closes the wallet. *)
Theorem mints_remove_cmd_list c s relays os :
  prepare c = (Ok (s, relays), os) ->
  exists L,
    mints_remove_cmd color_error color_success show_event show_error c
    = (Ok tt, os ++ (publish color_error color_success relays (rs_wallet s) (MintList now L)).2
                 ++ [CloseWallet]) /\
    (forall x, x ∈ L <-> x ∈ mints (rs_wallet s) /\ x ∉ args c).
Proof.
  intros Hw. exists (mints (remove_mint (args c) (rs_wallet s))). split.
  - unfold mints_remove_cmd. rewrite Hw. reflexivity.
  - intros x. apply remove_mint_correct.
Qed.

(** C37: [nak wallet nutzap] moves no funds.  Whatever its command
    line, when it succeeds the nutzap it publishes carries proofs worth
    0, from a mint the recipient accepts, and the wallet events of its
    spend, read back, leave the balance unchanged: the amount is read
    from a flag the command does not declare. *)
Theorem nutzap_moves_no_funds a set s relays os o :
  (2 <= length a)%nat ->
  prepare (parse_cmd (declared_flags WNutzap) a set) = (Ok (s, relays), os) ->
  nutzap_cmd color_error color_success show_event show_error (parse_cmd (declared_flags WNutzap) a set)
  = (Ok tt, o) ->
  exists pm sp m ps,
    fetch_profile "" = Ok pm /\ m ∈ (nutzap_recipient (pm_pubkey pm)).1 /\ proofs_amount sp = 0 /\
    nutzap_spend (rs_wallet s) (nutzap_recipient (pm_pubkey pm)).1 0 = Ok (sp, m, ps) /\
    (NoDup (event_id_of <$> ps) -> (forall p, p ∈ ps -> event_id_of p ∉ rs_seen s) ->
     change_fresh s ps ->
     balance (rs_wallet (replay s (signed <$> ps))) = balance (rs_wallet s)).
Proof.
  intros Hl Hp Hc. unfold nutzap_cmd in Hc. simpl length in Hc. rewrite decide_False in Hc by lia.
  rewrite Hp, nutzap_inputs_undeclared in Hc. unfold nutzap_target in Hc.
  change (String.prefix "nevent1" "") with false in Hc. simpl in Hc.
  destruct (fetch_profile "") as [pm|e] eqn:Hf; simpl in Hc; [|congruence].
  destruct (mint_option _) as [mo|e]; simpl in Hc; [|congruence].
  destruct (nutzap_recipient (pm_pubkey pm)) as [acc inbox] eqn:Hr.
  destruct (nutzap_spend (rs_wallet s) acc 0) as [[[sp m] ps]|e] eqn:Hs; simpl in Hc; [|congruence].
  destruct (nutzap_spend_amount _ _ _ _ _ _ Hs) as [Ha Hm].
  exists pm, sp, m, ps. rewrite Hr. split_and!; try done.
  intros Hnd Hfresh Hch. rewrite <-emit_signed.
  pose proof (nutzap_spend_conservation _ _ _ _ _ _ s (event_id_of <$> ps) Hs eq_refl
                (length_fmap _ _) Hnd (signed_ids_fresh _ _ Hfresh) Hch). lia.
Qed.

(** C39: [nak wallet mints] panics on a mint url without ["://"]
    ([strings.Split(url, "://")[1]] indexes a one-field slice): the
    hosts of the mints before it are printed, then the command fails
    with the runtime panic, and the wallet is not closed. *)
Theorem mints_cmd_panics c s relays os good bad rest :
  prepare c = (Ok (s, relays), os) ->
  mints (rs_wallet s) = good ++ bad :: rest ->
  Forall (fun u => is_ok (split_1 u "://") = true) good ->
  String.index 0 "://" bad = None ->
  mints_cmd show_event show_error c
  = (Err (Panic "index out of range [1] with length 1"),
     os ++ ((fun u => Stdout (ok_or "" (split_1 u "://"))) <$> good)).
Proof.
  intros Hp Hm Hgood Hbad.
  assert (print_mints (bad :: rest) = (Err (Panic "index out of range [1] with length 1"), [])) as Hb
    by (cbn [print_mints]; unfold split_1 at 1; by rewrite Hbad).
  unfold mints_cmd. rewrite Hp. simpl. rewrite Hm, print_mints_app, Hb by done.
  simpl. by rewrite !app_nil_r.
Qed.

End HandlerTheorems.

(** ** Witnesses in the test environments *)

#[local] Instance test_pool : RelayPool :=
  {| publish_many := timeout_publish; publish_many_relays := timeout_publish_relays |}.
#[local] Instance test_mint_service : MintService :=
  {| swap := test_swap; swap_amounts := test_swap_amounts;
     quote_invoice _ _ := Ok 3; melt := test_melt; melt_amounts := test_melt_amounts |}.
#[local] Instance test_token_codec : TokenCodec :=
  {| make_token_string := test_encode; get_proofs_and_mint := test_decode;
     get_make_token_string := test_decode_encode |}.


Definition send_ok_cmd : Cmd := test_cmd ["10"] [("mint", "a")].

Abbreviation tenv := (test_env true false).
Definition prep_ok := prep_in tenv send_ok_cmd.
Definition send_100_cmd : Cmd := test_cmd ["100"] [("mint", "a")].

(** Closes a hypothesis of a witness by evaluation: a successful
    [prepareWallet] run through [prep_in_eq], anything else directly. *)
Ltac run_ok := first [apply prep_in_eq; vm_compute; reflexivity | vm_compute; reflexivity].

Lemma send_cmd_ok_witness :
  exists o, @send_cmd (test_env true false) _ _ _ id id show_any show_any send_ok_cmd = (Ok tt, o).
Proof.
  eexists.
  apply (@send_cmd_ok (test_env true false) _ _ _ id id show_any show_any send_ok_cmd "10" 10
    (st_in tenv send_ok_cmd) (rel_in tenv send_ok_cmd) prep_ok.2 (Some "https://a")
    [mkProof "https://a" 10 "send-1"] "https://a"
    (match send (rs_wallet (st_in tenv send_ok_cmd)) 10 (Some "https://a") with
     | Ok (_, _, ps) => ps | Err _ => [] end));
    [reflexivity | vm_compute; reflexivity | apply prep_in_eq; vm_compute; reflexivity
    | vm_compute; reflexivity | vm_compute; reflexivity].
Defined.

(** A test run of the specification's scenario through the command:
    [nak wallet send 10 --mint a] on a wallet holding tokens worth 5 and
    7 at that mint succeeds, hands over proofs worth 10, and the events
    it publishes, read back, leave a balance of 2 (the change), not 0. *)
Example send_10_from_5_and_7 :
  (send_cmd (H:=test_env true false) id id show_any show_any send_ok_cmd).1 = Ok tt /\
  match prep_ok.1 with
  | Ok (s, _) =>
      balance (rs_wallet s) = 12 /\
      match send (rs_wallet s) 10 (Some "https://a") with
      | Ok (sp, _, ps) =>
          proofs_amount sp = 10 /\
          balance (rs_wallet (replay s (signed (H:=test_env true false) <$> ps))) = 2
      | Err _ => False
      end
  | Err _ => False
  end.
Proof. vm_compute. auto. Qed.

Lemma send_cmd_error_leaves_wallet_open_witness :
  @send_cmd (test_env true false) _ _ _ id id show_any show_any send_100_cmd
  = (Err InsufficientFunds, (prep_in tenv send_100_cmd).2) /\ CloseWallet ∉ (prep_in tenv send_100_cmd).2.
Proof.
  apply (@send_cmd_error_leaves_wallet_open (test_env true false) _ _ _ id id show_any show_any
    send_100_cmd "100" 100
    (st_in tenv send_100_cmd) (rel_in tenv send_100_cmd) (prep_in tenv send_100_cmd).2 (Some "https://a"));
    [reflexivity | vm_compute; reflexivity | apply prep_in_eq; vm_compute; reflexivity
    | vm_compute; reflexivity | vm_compute; reflexivity].
Defined.

Lemma nutzap_ignores_arguments_witness :
  @nutzap_cmd (test_env true false) _ _ id id show_any show_any (test_cmd ["21"; "npub1bob"] [])
  = @nutzap_cmd (test_env true false) _ _ id id show_any show_any (test_cmd ["5"; "npub1alice"] []).
Proof. apply (@nutzap_ignores_arguments (test_env true false)); simpl; lia. Defined.

(** With any arguments, the test run of [nak wallet nutzap 21 npub1bob]
    looks up the profile of the empty target and fails. *)
Example nutzap_reads_empty_target :
  (@nutzap_cmd (test_env true false) _ _ id id show_any show_any (test_cmd ["21"; "npub1bob"] [])).1
  = Err (Errorf "profile not found").
Proof. vm_compute. reflexivity. Qed.

Lemma setup_key_force_keeps_key_witness :
  @setup_key (test_env true false) _ id id ["wss://r1"] (mkWallet [] ∅ (Some "old")) "new" true
  = (Ok (mkWallet [] ∅ (Some "old")), []).
Proof. apply (@setup_key_force_keeps_key (test_env true false)) with (k := "old"). reflexivity. Defined.

Definition nutzap_line : Cmd := parse_cmd (declared_flags WNutzap) ["21"; "npub1bob"] [("message", "hi")].
Definition prep_any := prep_in (test_env true true) nutzap_line.

Lemma nutzap_sends_zero_to_empty_target_witness :
  exists r rest,
    @nutzap_cmd (test_env true true) _ _ id id show_any show_any nutzap_line
    = (r, prep_any.2 ++ Log ("sending " +:+ fmt_d 0 +:+ " sat to '" +:+ "bob"
                             +:+ "' (" +:+ "npub1bob" +:+ ")") :: rest).
Proof.
  apply (@nutzap_sends_zero_to_empty_target (test_env true true) _ _ id id show_any show_any
    ["21"; "npub1bob"] [("message", "hi")]
    (st_in (test_env true true) nutzap_line) (rel_in (test_env true true) nutzap_line) prep_any.2
    (mkProfile "" "bob" "npub1bob"));
    [simpl; lia | apply prep_in_eq; vm_compute; reflexivity | reflexivity].
Defined.

Lemma nutzap_moves_no_funds_witness :
  exists pm sp m ps,
    @fetch_profile (test_env true true) "" = Ok pm /\
    m ∈ (@nutzap_recipient (test_env true true) (pm_pubkey pm)).1 /\ proofs_amount sp = 0 /\
    nutzap_spend (rs_wallet (st_in (test_env true true) nutzap_line))
      (@nutzap_recipient (test_env true true) (pm_pubkey pm)).1 0 = Ok (sp, m, ps) /\
    (NoDup (@event_id_of (test_env true true) <$> ps) ->
     (forall p, p ∈ ps -> @event_id_of (test_env true true) p ∉ rs_seen (st_in (test_env true true) nutzap_line)) ->
     change_fresh (st_in (test_env true true) nutzap_line) ps ->
     balance (rs_wallet (replay (st_in (test_env true true) nutzap_line) (@signed (test_env true true) <$> ps)))
     = balance (rs_wallet (st_in (test_env true true) nutzap_line))).
Proof.
  apply (@nutzap_moves_no_funds (test_env true true) _ _ id id show_any show_any
    ["21"; "npub1bob"] [("message", "hi")] (st_in (test_env true true) nutzap_line)
    (rel_in (test_env true true) nutzap_line) prep_any.2
    (@nutzap_cmd (test_env true true) _ _ id id show_any show_any nutzap_line).2);
    [simpl; lia | apply prep_in_eq; vm_compute; reflexivity | vm_compute; reflexivity].
Defined.

Definition pay_ok_cmd : Cmd := test_cmd ["lnbc-ok"] [("mint", "a")].
Definition pay_bad_cmd : Cmd := test_cmd ["lnbc-bad"] [("mint", "a")].
Definition add_cmd : Cmd := test_cmd ["https://b"] [].

Definition evs57 : list LogEvent := [r5; r7].
Definition send_out (c : Cmd) := (@send_cmd (cmd_env evs57) _ _ _ id id show_any show_any c).2.
Definition pay_out (c : Cmd) := (@pay_cmd (cmd_env evs57) _ _ id id show_any show_any c).2.

Lemma send_cmd_conservation_witness :
  exists sp m ps,
    send_out send_ok_cmd = (prep evs57 send_ok_cmd).2
      ++ (@publish_all (cmd_env evs57) _ id id (rel evs57 send_ok_cmd) (rs_wallet (st evs57 send_ok_cmd)) ps).2
      ++ [Stdout (make_token_string sp m); CloseWallet] /\
    proofs_amount sp = 10 /\
    (NoDup (@event_id_of (cmd_env evs57) <$> ps) ->
     (forall p, p ∈ ps -> @event_id_of (cmd_env evs57) p ∉ rs_seen (st evs57 send_ok_cmd)) ->
     change_fresh (st evs57 send_ok_cmd) ps ->
     balance (rs_wallet (replay (st evs57 send_ok_cmd) (@signed (cmd_env evs57) <$> ps))) + 10
     = balance (rs_wallet (st evs57 send_ok_cmd))).
Proof.
  apply (@send_cmd_conservation (cmd_env evs57) _ _ _ id id show_any show_any send_ok_cmd "10");
    run_ok.
Defined.

Lemma send_cmd_insufficient_witness :
  @send_cmd (cmd_env evs57) _ _ _ id id show_any show_any (test_cmd ["13"] [])
  = (Err InsufficientFunds, (prep evs57 (test_cmd ["13"] [])).2).
Proof.
  apply (@send_cmd_insufficient (cmd_env evs57) _ _ _ id id show_any show_any (test_cmd ["13"] []) "13" 13
           (st evs57 (test_cmd ["13"] [])) (rel evs57 (test_cmd ["13"] [])) _ None);
    [reflexivity | vm_compute; reflexivity | run_ok | vm_compute; reflexivity |].
  intros m Hm. vm_compute in Hm.
  apply elem_of_cons in Hm as [->|Hm]; [vm_compute; reflexivity | by apply elem_of_nil in Hm].
Defined.

(** The receiving command is given the token string the send printed. *)
Definition sent_token : string := default "" (head (stdout_text (send_out send_ok_cmd))).
Definition recv_cmd : Cmd := test_cmd [sent_token] [].

Lemma send_then_receive_witness :
  exists t,
    get_proofs_and_mint sent_token = Ok (token_proofs t, token_mint t) /\
    @receive_cmd (cmd_env evs57) _ _ _ id id show_any show_any recv_cmd
    = (Ok tt, (prep evs57 recv_cmd).2
              ++ (@publish_all (cmd_env evs57) _ id id (rel evs57 recv_cmd)
                    (rs_wallet (st evs57 recv_cmd)) [TokenReceived t]).2 ++ [CloseWallet]) /\
    token_amount t = 10 /\
    balance (rs_wallet (replay (st evs57 recv_cmd) [@signed (cmd_env evs57) (TokenReceived t)]))
    = balance (rs_wallet (st evs57 recv_cmd)) + 10.
Proof.
  destruct (@send_then_receive (cmd_env evs57) _ _ _ id id show_any show_any send_ok_cmd "10" 10
              (st evs57 send_ok_cmd) (rel evs57 send_ok_cmd) (prep evs57 send_ok_cmd).2
              (send_out send_ok_cmd) sent_token recv_cmd (st evs57 recv_cmd) (rel evs57 recv_cmd)
              (prep evs57 recv_cmd).2)
    as (t & Hdec & Hrecv & Hamt & Hbal);
    [run_ok | run_ok | run_ok | run_ok | decide_closed | reflexivity | run_ok | reflexivity |].
  exists t. split_and!; [done..|]. destruct t as [tm tp]. vm_compute in Hdec. injection Hdec as <- <-.
  apply Hbal; [decide_closed | decide_closed | vm_compute; reflexivity].
Defined.

Lemma pay_cmd_melt_failure_witness :
  @pay_cmd (cmd_env evs57) _ _ id id show_any show_any pay_bad_cmd
  = (Err MintUnavailable, (prep evs57 pay_bad_cmd).2).
Proof.
  apply (@pay_cmd_melt_failure (cmd_env evs57) _ _ id id show_any show_any pay_bad_cmd "lnbc-bad"
           (st evs57 pay_bad_cmd) (rel evs57 pay_bad_cmd) _ "https://a" 3
           (match choose_tokens (rs_wallet (st evs57 pay_bad_cmd)) 3 (Some "https://a") with
            | Ok (_, sel) => sel | Err _ => [] end));
    run_ok.
Defined.

Lemma pay_cmd_conservation_witness :
  exists mo pre ps a,
    @mint_option (cmd_env evs57) (str_flag pay_ok_cmd "mint") = Ok mo /\
    quote_invoice (match mo with Some m => m
                   | None => default "" (head (mints (rs_wallet (st evs57 pay_ok_cmd)))) end) "lnbc-ok" = Ok a /\
    pay_out pay_ok_cmd = (prep evs57 pay_ok_cmd).2
      ++ (@publish_all (cmd_env evs57) _ id id (rel evs57 pay_ok_cmd) (rs_wallet (st evs57 pay_ok_cmd)) ps).2
      ++ [Stdout pre; CloseWallet] /\
    (NoDup (@event_id_of (cmd_env evs57) <$> ps) ->
     (forall p, p ∈ ps -> @event_id_of (cmd_env evs57) p ∉ rs_seen (st evs57 pay_ok_cmd)) ->
     change_fresh (st evs57 pay_ok_cmd) ps ->
     balance (rs_wallet (replay (st evs57 pay_ok_cmd) (@signed (cmd_env evs57) <$> ps))) + a
     = balance (rs_wallet (st evs57 pay_ok_cmd))).
Proof.
  apply (@pay_cmd_conservation (cmd_env evs57) _ _ id id show_any show_any pay_ok_cmd "lnbc-ok");
    run_ok.
Defined.

Lemma mints_add_cmd_list_witness :
  exists L,
    @mints_add_cmd (cmd_env evs57) _ id id show_any show_any add_cmd
    = (Ok tt, (prep evs57 add_cmd).2
        ++ (@publish (cmd_env evs57) _ id id (rel evs57 add_cmd) (rs_wallet (st evs57 add_cmd)) (MintList 100 L)).2
        ++ [CloseWallet]) /\
    NoDup L /\ (forall x, x ∈ L <-> x ∈ args add_cmd \/ x ∈ mints (rs_wallet (st evs57 add_cmd))) /\
    prefix (mints (rs_wallet (st evs57 add_cmd))) L.
Proof.
  apply (@mints_add_cmd_list (cmd_env evs57) _ id id show_any show_any add_cmd);
    [run_ok | decide_closed].
Defined.

Lemma mints_remove_cmd_list_witness :
  exists L,
    @mints_remove_cmd (cmd_env evs57) _ id id show_any show_any add_cmd
    = (Ok tt, (prep evs57 add_cmd).2
        ++ (@publish (cmd_env evs57) _ id id (rel evs57 add_cmd) (rs_wallet (st evs57 add_cmd)) (MintList 100 L)).2
        ++ [CloseWallet]) /\
    (forall x, x ∈ L <-> x ∈ mints (rs_wallet (st evs57 add_cmd)) /\ x ∉ args add_cmd).
Proof.
  apply (@mints_remove_cmd_list (cmd_env evs57) _ id id show_any show_any add_cmd).
  run_ok.
Defined.

(** A mint list whose second url has no scheme. *)
Definition evm : list LogEvent := [mkEvent "m1" (MintList 1 ["https://a"; "mint.b"; "https://c"])].

Lemma mints_cmd_panics_witness :
  @mints_cmd (cmd_env evm) show_any show_any session_cmd
  = (Err (Panic "index out of range [1] with length 1"),
     (prep evm session_cmd).2 ++ ((fun u => Stdout (ok_or "" (split_1 u "://"))) <$> ["https://a"])).
Proof.
  apply (@mints_cmd_panics (cmd_env evm) show_any show_any session_cmd (st evm session_cmd)
           (rel evm session_cmd) _ ["https://a"] "mint.b" ["https://c"]).
  - apply prep_in_eq. vm_compute. reflexivity.
  - vm_compute. reflexivity.
  - apply (bool_decide_unpack _). vm_compute. reflexivity.
  - reflexivity.
Defined.

End Handlers.
