(* ===== verification/Serve.v ===== *)
(** * [nak serve]: the local test relay (src/serve.go)

    [serve] picks an event store ([choose_backend]: the in-memory slice
    store unless both [--dburl] and [--etcdurl] are given), fills it from
    a JSON-lines source read with a [bufio.Scanner] ([load_lines]), wires
    the store into a khatru relay whose reject hooks accept everything
    and log it ([relay_info], [relay_handle_event]), and reports the
    number of stored events ([total_events], [print_status]) through a
    two-second debouncer ([serve_requests] over timed requests).  The
    start of the relay is the protocol of two goroutines and the
    channels [started] and [exited] ([thread_step], [run_threads]).
    The store is the [EventStore] class (save, query, count, delete:
    the contract the specification names); [SliceStore] is its
    in-memory instance. *)

From Stdlib Require Import ZArith Sorting.Sorted.
From S2P Require Import Prelude.

Module Serve.

(** A Nostr event as the relay stores it. *)
Record NEvent := mkNEvent {
  ne_id : string;
  ne_pubkey : string;
  ne_kind : N;
  ne_created_at : N;
  ne_content : string
}.

#[export] Instance NEvent_eq_dec : EqDecision NEvent.
Proof. solve_decision. Defined.

(** A query filter; [None] fields do not constrain. *)
Record Filter := mkFilter {
  f_ids : option (list string);
  f_kinds : option (list N);
  f_authors : option (list string);
  f_limit : option N
}.

Definition empty_filter : Filter := mkFilter None None None None.

Definition field_matches {A} `{EqDecision A} (f : option (list A)) (x : A) : bool :=
  match f with None => true | Some xs => bool_decide (x ∈ xs) end.

Definition matches (f : Filter) (e : NEvent) : bool :=
  field_matches (f_ids f) (ne_id e) && field_matches (f_kinds f) (ne_kind e)
  && field_matches (f_authors f) (ne_pubkey e).

(** The store contract. *)
Class EventStore (S : Type) := {
  store_save : NEvent -> S -> result unit * S;
  store_query : Filter -> S -> list NEvent;
  store_count : Filter -> S -> nat;
  store_delete : NEvent -> S -> S;
  store_count_query f s : store_count f s = length (store_query f s)
}.

(** The in-memory slice store: the events in the order they were saved,
    duplicates refused, queries cut at [min(limit, MaxLimit)]. *)
Record SliceStore := mkSliceStore {
  ss_max_limit : N;
  ss_events : list NEvent
}.

Definition slice_save (e : NEvent) (s : SliceStore) : result unit * SliceStore :=
  if decide (ne_id e ∈ ne_id <$> ss_events s)
  then (Err (Errorf "duplicate: event already exists"), s)
  else (Ok tt, mkSliceStore (ss_max_limit s) (ss_events s ++ [e])).

(** The first [n] elements of a list, for a limit that is a machine
    integer. *)
Fixpoint take_n {A} (n : N) (l : list A) : list A :=
  match l with
  | [] => []
  | x :: l' => if decide (n = 0) then [] else x :: take_n (n - 1) l'
  end.

Definition slice_query (f : Filter) (s : SliceStore) : list NEvent :=
  let lim := match f_limit f with
             | Some l => N.min l (ss_max_limit s)
             | None => ss_max_limit s
             end in
  take_n lim (filter (fun e => matches f e = true) (ss_events s)).

Definition slice_delete (e : NEvent) (s : SliceStore) : SliceStore :=
  mkSliceStore (ss_max_limit s) (filter (fun e' => ne_id e' <> ne_id e) (ss_events s)).

#[export] Instance slice_event_store : EventStore SliceStore := {|
  store_save := slice_save;
  store_query := slice_query;
  store_count f s := length (slice_query f s);
  store_delete := slice_delete;
  store_count_query f s := eq_refl
|}.

(** [math.MaxInt] on a 64-bit platform. *)
Definition max_int : N := 2 ^ 63 - 1.

(** The flags of [nak serve], lines 25-50, with their defaults: a flag
    that is not given reads as its [Value], or as the zero value. *)
Record ServeFlags := mkServeFlags {
  sf_hostname : string;
  sf_port : N;
  sf_events : string;
  sf_dburl : string;
  sf_etcdurl : string
}.

Definition serve_defaults : ServeFlags := mkServeFlags "localhost" 10547 "" "" "".

(** [port := int(c.Uint("port"))], line 117: the uint64 flag read as
    Go's 64-bit [int], which wraps above [2^63 - 1]. *)
Definition port_of_flag (u : N) : Z :=
  if decide (u < 2 ^ 63) then Z.of_N u else (Z.of_N u - 2 ^ 64)%Z.

(** [fmt]'s [%d] on a signed integer. *)
Definition fmt_z (z : Z) : string :=
  if decide (z < 0)%Z then "-" +:+ fmt_d (Z.to_N (- z)) else fmt_d (Z.to_N z).

(** The two backends of lines 56-74. *)
Inductive Backend :=
| SliceBackend (max_limit : N)
| MySQLBackend (etcd_url db_url : string) (query_limit query_ids_limit query_tags_limit
                 query_kinds_limit query_authors_limit : N).

Definition choose_backend (db_url etcd_url : string) : Backend :=
  if decide (db_url = "" \/ etcd_url = "") then SliceBackend max_int
  else MySQLBackend etcd_url db_url 1000 500 500 500 2000.

(** Lines 53-74: the backend, with [db.Init()] called on the MySQL one
    only. *)
Definition open_backend (init : Backend -> result unit) (show_error : error -> string)
    (db_url etcd_url : string) : result Backend :=
  match choose_backend db_url etcd_url with
  | SliceBackend m => Ok (SliceBackend m)
  | b => match init b with
         | Ok _ => Ok b
         | Err e => Err (Errorf ("failed to initialize database: " +:+ show_error e))
         end
  end.

(** [bufio.Scanner] with [scanner.Buffer(..., 256*1024*1024)]: a line
    that with its newline does not fit in the maximum token size (it
    has [max_token_size] bytes or more) stops the scan with
    [ErrTooLong]. *)
Definition max_token_size : N := 256 * 1024 * 1024.

(** The relay information of lines 103-106. *)
Record RelayInfo := mkRelayInfo {
  ri_name : string;
  ri_description : string;
  ri_software : string;
  ri_version : string
}.

Definition relay_info (version : string) : RelayInfo :=
  mkRelayInfo "nak serve" "a local relay for testing, debugging and development."
              "https://github.com/fiatjaf/nak" version.

Section Serve.
Context {Store : Type} `{EventStore Store}.
(** [json.Unmarshal] of one line into an event, and the [%s] of its
    error. *)
Context (unmarshal : string -> result NEvent) (show_error : error -> string).

(** The loop of lines 90-98 over the scanned lines, counting from [i],
    with a scanner whose buffer holds [max_size] bytes: the buffer is
    full before the line's newline is found when the line has
    [max_size] bytes or more.  [SaveEvent]'s error is not checked, and
    neither is [scanner.Err()] when a line is too long. *)
Fixpoint load_lines (max_size : N) (i : nat) (lines : list string) (db : Store) : result Store :=
  match lines with
  | [] => Ok db
  | l :: ls =>
      if decide (max_size <= N.of_nat (String.length l)) then Ok db
      else match unmarshal l with
           | Err e => Err (Errorf ("invalid event received at line " +:+ fmt_d (N.of_nat i)
                                   +:+ ": " +:+ show_error e +:+ " (`" +:+ l +:+ "`)"))
           | Ok ev => load_lines max_size (S i) ls (store_save ev db).2
           end
  end.

(** Lines 77-87: where the scanner reads from. *)
Inductive Source := FromFile (path : string) | FromStdin | NoScanner.

Definition scanner_source (path : string) (piped : bool) : Source :=
  if decide (path <> "") then FromFile path
  else if piped then FromStdin
  else NoScanner.

(** Lines 77-99: open the source and run the loop over its lines. *)
Definition load_events (path : string) (open_file : string -> result (list string))
    (piped : bool) (stdin : list string) (db : Store) : result Store :=
  match scanner_source path piped with
  | FromFile p =>
      match open_file p with
      | Err e => Err (Errorf ("failed to file at '" +:+ p +:+ "': " +:+ show_error e))
      | Ok lines => load_lines max_token_size 0 lines db
      end
  | FromStdin => load_lines max_token_size 0 stdin db
  | NoScanner => Ok db
  end.

(** The count of [printStatus], lines 146-150: the events the query
    with the empty filter yields. *)
Definition total_events (db : Store) : nat := length (store_query empty_filter db).

(** The line [printStatus] logs, line 153, with [color.HiMagentaString]
    and the number of open subscriptions. *)
Definition print_status (magenta : string -> string) (subs : nat) (db : Store) : out :=
  Log ("  " +:+ magenta "•" +:+ " events stored: " +:+ magenta (fmt_d (N.of_nat (total_events db)))
       +:+ ", subscriptions opened: " +:+ magenta (fmt_d (N.of_nat subs)) +:+ nl).

(** The relay of lines 101-111: its information and the store behind
    its four handlers ([QueryEvents], [CountEvents], [DeleteEvent],
    [StoreEvent]). *)
Record Relay := mkRelay {
  rl_info : RelayInfo;
  rl_db : Store
}.

Definition new_relay (version : string) (db : Store) : Relay := mkRelay (relay_info version) db.

(** The four handlers of lines 108-111: the store's [QueryEvents],
    [CountEvents], [DeleteEvent] and [SaveEvent]. *)
Definition relay_query (rl : Relay) (f : Filter) : list NEvent := store_query f (rl_db rl).
Definition relay_count (rl : Relay) (f : Filter) : nat := store_count f (rl_db rl).
Definition relay_delete (rl : Relay) (e : NEvent) : Relay :=
  mkRelay (rl_info rl) (store_delete e (rl_db rl)).
Definition relay_store (rl : Relay) (e : NEvent) : result unit * Relay :=
  let r := store_save e (rl_db rl) in (r.1, mkRelay (rl_info rl) r.2).

(** The three reject hooks of lines 127-141: each logs what it got
    ([%v] in italics, in its colour), calls [printStatus] and accepts.
    The call of [printStatus] only arms the debouncer: its effect is
    modelled where the requests are served ([serve_requests]). *)
Definition reject_filter (yellow italic : string -> string) (show_filter : Filter -> string)
    (f : Filter) : out * bool :=
  (Log ("    got " +:+ yellow "request" +:+ " " +:+ italic (show_filter f) +:+ nl), false).

Definition reject_count_filter (cyan italic : string -> string) (show_filter : Filter -> string)
    (f : Filter) : out * bool :=
  (Log ("    got " +:+ cyan "count request" +:+ " " +:+ italic (show_filter f) +:+ nl), false).

Definition reject_event (blue italic : string -> string) (show_event : NEvent -> string)
    (e : NEvent) : out * bool :=
  (Log ("    got " +:+ blue "event" +:+ " " +:+ italic (show_event e) +:+ nl), false).

(** khatru's handling of a published event: the reject hook, then
    [StoreEvent] (the store's [SaveEvent]) unless it rejected. *)
Definition relay_handle_event (blue italic : string -> string) (show_event : NEvent -> string)
    (rl : Relay) (e : NEvent) : out * result unit * Relay :=
  let '(o, rej) := reject_event blue italic show_event e in
  if rej then (o, Err (Errorf "blocked"), rl)
  else let r := relay_store rl e in (o, r.1, r.2).

(** What a client sends the relay: a subscription's filter, a count
    request, or an event to publish. *)
Inductive Request := ReqFilter (f : Filter) | ReqCount (f : Filter) | ReqEvent (e : NEvent).

(** [d := debounce.New(time.Second * 2)], line 142, in milliseconds. *)
Definition status_delay : N := 2000.

(** The debouncer's contract: a call schedules the function [delay]
    after it and cancels the one pending, so the call at [t] runs its
    function when no call follows before [t + delay]. *)
Definition debounce_runs (delay t : N) (next : option N) : bool :=
  match next with None => true | Some t' => bool_decide (t + delay <= t') end.

Section Requests.
Context (yellow cyan blue italic magenta : string -> string)
        (show_filter : Filter -> string) (show_event : NEvent -> string).

(** The line a request's reject hook logs. *)
Definition request_line (rq : Request) : out :=
  match rq with
  | ReqFilter f => (reject_filter yellow italic show_filter f).1
  | ReqCount f => (reject_count_filter cyan italic show_filter f).1
  | ReqEvent e => (reject_event blue italic show_event e).1
  end.

(** The relay serving requests at times [t] (lines 123-155): the hook
    logs at [t] and calls [printStatus]; an event is then stored; the
    debounced status runs [status_delay] after a call that no other call
    follows within the delay, and counts the store as it is then
    ([subs_at]: the subscriptions open at a time). *)
Fixpoint serve_requests (subs_at : N -> nat) (rl : Relay) (rqs : list (N * Request))
    : list (N * out) * Relay :=
  match rqs with
  | [] => ([], rl)
  | (t, rq) :: rqs' =>
      let rl1 := match rq with
                 | ReqEvent e => (relay_handle_event blue italic show_event rl e).2
                 | _ => rl
                 end in
      let st := if debounce_runs status_delay t (fst <$> head rqs')
                then [(t + status_delay, print_status magenta (subs_at (t + status_delay)) (rl_db rl1))]
                else [] in
      let r := serve_requests subs_at rl1 rqs' in
      ((t, request_line rq) :: st ++ r.1, r.2)
  end.
End Requests.

(** Line 158: the line logged once the relay listens. *)
Definition running_line (red : string -> string) (bold : string -> string)
    (hostname : string) (port : Z) : out :=
  Log (red ">" +:+ " relay running at " +:+ bold ("ws://" +:+ hostname +:+ ":" +:+ fmt_z port) +:+ nl).

(** The outcome of [rl.Start(hostname, port, started)]: the listener
    could not be opened (the error is returned before [started] is
    closed), or the relay listened and later exited with an error or
    nil. *)
Inductive StartOutcome := ListenFailed (e : error) | Listened (exit : result unit).

(** What the action does: return an error (or nil), or block forever
    on a channel no goroutine will write. *)
Inductive ServeOutcome := Exits (r : result unit) | Blocks.

(** ** The start protocol: two goroutines and two channels

    Lines 113-122 and 157-160: the action makes the channels [started]
    and [exited] (unbuffered), runs [rl.Start(hostname, port, started)]
    in a goroutine that then sends its error on [exited], waits on
    [<-started], logs the address, and returns [<-exited].  [rl.Start]
    returns the listener's error at once, or closes [started] and
    serves until the server stops. *)
Inductive MainPc := MainRecvStarted | MainRecvExited | MainReturned (r : result unit).
Inductive GoPc := GoStart (o : StartOutcome) | GoServing (r : result unit)
                | GoSendExited (r : result unit) | GoDone.

(** The two goroutines, whether [started] is closed, and the log. *)
Record Threads := mkThreads {
  th_main : MainPc;
  th_go : GoPc;
  th_started : bool;
  th_out : list out
}.

Definition init_threads (o : StartOutcome) : Threads := mkThreads MainRecvStarted (GoStart o) false [].

(** The moves of the relay's goroutine alone (lines 119-122 and
    [rl.Start]); its send on [exited] is a rendezvous with the main
    goroutine. *)
Definition go_moves (g : GoPc) (started : bool) : list (GoPc * bool) :=
  match g with
  | GoStart (ListenFailed e) => [(GoSendExited (Err e), started)]
  | GoStart (Listened r) => [(GoServing r, true)]
  | GoServing r => [(GoSendExited r, started)]
  | _ => []
  end.

Section Threads.
Context (line : out).

(** The interleaving of the two goroutines: a move of the relay's
    goroutine; [<-started] once [started] is closed, followed by the
    log of line 158; the rendezvous on [exited]. *)
Inductive thread_step : Threads -> Threads -> Prop :=
| step_go m g st o g' st' :
    (g', st') ∈ go_moves g st -> thread_step (mkThreads m g st o) (mkThreads m g' st' o)
| step_started g o :
    thread_step (mkThreads MainRecvStarted g true o) (mkThreads MainRecvExited g true (o ++ [line]))
| step_exited r st o :
    thread_step (mkThreads MainRecvExited (GoSendExited r) st o) (mkThreads (MainReturned r) GoDone st o).

(** The moves possible from a state, relay goroutine first. *)
Definition thread_next (t : Threads) : list Threads :=
  ((fun gs => mkThreads (th_main t) gs.1 gs.2 (th_out t)) <$> go_moves (th_go t) (th_started t))
  ++ match th_main t, th_started t with
     | MainRecvStarted, true => [mkThreads MainRecvExited (th_go t) true (th_out t ++ [line])]
     | _, _ => []
     end
  ++ match th_main t, th_go t with
     | MainRecvExited, GoSendExited r => [mkThreads (MainReturned r) GoDone (th_started t) (th_out t)]
     | _, _ => []
     end.

(** A scheduler: take the first possible move, [fuel] times at most. *)
Fixpoint run_threads (fuel : nat) (t : Threads) : Threads :=
  match fuel with
  | O => t
  | S n => match thread_next t with [] => t | t' :: _ => run_threads n t' end
  end.
End Threads.

(** The outcome of the action once no goroutine can move: the main
    goroutine returned, or it waits forever. *)
Definition outcome (t : Threads) : ServeOutcome :=
  match th_main t with MainReturned r => Exits r | _ => Blocks end.

(** The relay the action builds over the loaded store, lines 77-111. *)
Definition serve_relay (path : string) (open_file : string -> result (list string))
    (piped : bool) (stdin : list string) (db : Store) (version : string) : result Relay :=
  match load_events path open_file piped stdin db with
  | Err e => Err e
  | Ok db' => Ok (new_relay version db')
  end.

(** The action of lines 77-160 once the backend is open: load the
    events, build the relay, then run the start protocol; four moves
    end every run of it. *)
Definition serve_with_store (path : string) (open_file : string -> result (list string))
    (piped : bool) (stdin : list string) (db : Store) (version : string)
    (red bold : string -> string) (hostname : string) (port : Z) (start : StartOutcome)
    : ServeOutcome * list out :=
  match serve_relay path open_file piped stdin db version with
  | Err e => (Exits (Err e), [])
  | Ok _ =>
      let t := run_threads (running_line red bold hostname port) 4 (init_threads start) in
      (outcome t, th_out t)
  end.

(** Lines 115-117: [hostname := c.String("hostname")] and
    [port := int(c.Uint("port"))]. *)
Definition serve_address (fl : ServeFlags) : string * Z := (sf_hostname fl, port_of_flag (sf_port fl)).

(** The action of lines 51-161: open the backend ([open_store] gives the
    store of an opened backend), then run over it. *)
Definition serve_cmd (init : Backend -> result unit) (open_store : Backend -> Store)
    (fl : ServeFlags) (open_file : string -> result (list string))
    (piped : bool) (stdin : list string) (version : string)
    (red bold : string -> string) (start : StartOutcome) : ServeOutcome * list out :=
  match open_backend init show_error (sf_dburl fl) (sf_etcdurl fl) with
  | Err e => (Exits (Err e), [])
  | Ok b => let '(hostname, port) := serve_address fl in
            serve_with_store (sf_events fl) open_file piped stdin (open_store b) version red bold
              hostname port start
  end.
End Serve.

(** ** Theorems *)

Lemma take_n_all {A} (n : N) (l : list A) : N.of_nat (length l) <= n -> take_n n l = l.
Proof.
  revert n. induction l as [|x l IH]; intros n Hn; simpl in *; [done|].
  rewrite decide_False by lia. f_equal. apply IH. lia.
Qed.

Lemma slice_save_ids e s x :
  x ∈ ne_id <$> ss_events (slice_save e s).2 <-> x = ne_id e \/ x ∈ ne_id <$> ss_events s.
Proof.
  unfold slice_save. case_decide as Hin; simpl.
  - split; [tauto|]. intros [->|]; done.
  - rewrite fmap_app, elem_of_app, fmap_cons, fmap_nil, list_elem_of_singleton. tauto.
Qed.

Lemma filter_empty_filter (l : list NEvent) :
  filter (fun e => matches empty_filter e = true) l = l.
Proof. induction l as [|e l IH]; [done|]. rewrite filter_cons_True by done. by f_equal. Qed.

Section LoadTheorems.
Context {St : Type} {HSt : EventStore St}.
Context (unm : string -> result NEvent) (show_err : error -> string) (mx : N).

Definition line_ok (l : string) : Prop :=
  N.of_nat (String.length l) < mx /\ is_ok (unm l) = true.

#[export] Instance line_ok_dec l : Decision (line_ok l).
Proof. unfold line_ok. apply _. Defined.

Lemma load_lines_app i good rest db :
  Forall line_ok good ->
  load_lines unm show_err mx i (good ++ rest) db
  = match load_lines unm show_err mx i good db with
    | Ok db' => load_lines unm show_err mx (i + length good) rest db'
    | Err e => Err e
    end.
Proof.
  revert i db. induction good as [|l good IH]; intros i db Hok; simpl.
  - by rewrite Nat.add_0_r.
  - apply Forall_cons in Hok as [[Hlen Hp] Hok].
    rewrite !decide_False by lia. destruct (unm l); [|done].
    rewrite IH by done. simpl.
    by replace (i + S (length good))%nat with (S (i + length good)) by lia.
Qed.

(** C27: the first line that is not a JSON event stops the load with
    its index, counted from 0, in the message. *)
Theorem load_lines_first_error good bad rest db e :
  Forall line_ok good -> N.of_nat (String.length bad) < mx ->
  unm bad = Err e ->
  load_lines unm show_err mx 0 (good ++ bad :: rest) db =
    Err (Errorf ("invalid event received at line " +:+ fmt_d (N.of_nat (length good))
                 +:+ ": " +:+ show_err e +:+ " (`" +:+ bad +:+ "`)")).
Proof.
  intros Hok Hlen Hbad. rewrite load_lines_app by done.
  destruct (load_lines _ _ _ 0 good db) as [db'|e'] eqn:Hg.
  - simpl. rewrite decide_False by lia. by rewrite Hbad.
  - exfalso. clear -Hok Hg. revert db Hg. generalize 0%nat.
    induction good as [|l good IH]; intros i db Hg; simpl in Hg; [done|].
    apply Forall_cons in Hok as [[Hlen Hp] Hok].
    rewrite decide_False in Hg by lia.
    destruct (unm l); [|done]. by eapply IH.
Qed.

(** C28: a line of the scanner's maximum token size or longer ends the
    load silently: it and every later line are ignored and no error is
    returned, because [scanner.Err()] is not checked. *)
Theorem load_lines_long_line_stops good long rest db :
  Forall line_ok good -> mx <= N.of_nat (String.length long) ->
  load_lines unm show_err mx 0 (good ++ long :: rest) db
  = load_lines unm show_err mx 0 good db /\
  is_ok (load_lines unm show_err mx 0 good db) = true.
Proof.
  intros Hok Hlong. rewrite load_lines_app by done.
  destruct (load_lines _ _ _ 0 good db) as [db'|e'] eqn:Hg.
  - simpl. by rewrite decide_True by lia.
  - exfalso. clear -Hok Hg. revert db Hg. generalize 0%nat.
    induction good as [|l good IH]; intros i db Hg; simpl in Hg; [done|].
    apply Forall_cons in Hok as [[Hlen Hp] Hok].
    rewrite decide_False in Hg by lia.
    destruct (unm l); [|done]. by eapply IH.
Qed.
End LoadTheorems.

(** C29: into the slice store, a load that succeeds stores every event
    of the file: duplicates are dropped, nothing else is lost. *)
Theorem load_lines_slice_stores unmarshal show_error mx i lines db db' l ev :
  load_lines unmarshal show_error mx i lines db = Ok db' ->
  l ∈ lines -> unmarshal l = Ok ev ->
  (forall l', l' ∈ lines -> N.of_nat (String.length l') < mx) ->
  ne_id ev ∈ ne_id <$> ss_events db'.
Proof.
  revert i db. induction lines as [|l0 ls IH]; intros i db Hload Hin Hev Hall;
    [by apply elem_of_nil in Hin|].
  simpl in Hload. rewrite decide_False in Hload by (specialize (Hall l0 (list_elem_of_here _ _)); lia).
  destruct (unmarshal l0) as [ev0|] eqn:E0; [|done].
  assert (forall db1, load_lines unmarshal show_error mx (S i) ls db1 = Ok db' ->
            forall x, x ∈ ne_id <$> ss_events db1 -> x ∈ ne_id <$> ss_events db') as Hmono.
  { clear -Hall. revert i. induction ls as [|l1 ls IH]; intros i db1 Hl1 x Hx; simpl in Hl1.
    - by injection Hl1 as <-.
    - assert (N.of_nat (String.length l1) < mx) by (apply Hall; set_solver).
      rewrite decide_False in Hl1 by lia.
      destruct (unmarshal l1); [|done].
      eapply IH; [intros; apply Hall; set_solver | exact Hl1 |].
      apply slice_save_ids. by right. }
  apply elem_of_cons in Hin as [->|Hin].
  - rewrite Hev in E0. injection E0 as <-. eapply Hmono; [exact Hload|].
    apply slice_save_ids. by left.
  - eapply IH; [exact Hload | done | done | intros; apply Hall; set_solver].
Qed.

(** C30: the in-memory store is opened whenever one of [--dburl] and
    [--etcdurl] is missing, whatever the database would answer, so giving
    only one of them silently starts an in-memory relay; with both the
    MySQL backend is opened or its initialisation error returned. *)
Theorem open_backend_slice init show_error db_url etcd_url :
  open_backend init show_error db_url etcd_url = Ok (SliceBackend max_int)
  <-> db_url = "" \/ etcd_url = "".
Proof.
  unfold open_backend, choose_backend. case_decide; [tauto|].
  destruct (init _); split; (discriminate || tauto).
Qed.

(** C34: [nak serve --port p] turns the uint64 flag into a Go [int]: a
    port below [2^63] is kept, a larger one wraps to a negative number,
    which the relay then reports in its address; the result is always a
    64-bit signed integer. *)
Theorem port_of_flag_bounds u :
  is_u64 u ->
  (u < 2 ^ 63 -> port_of_flag u = Z.of_N u) /\
  (2 ^ 63 <= u -> (port_of_flag u < 0)%Z) /\
  (- 2 ^ 63 <= port_of_flag u < 2 ^ 63)%Z.
Proof.
  unfold is_u64, u64_modulus, port_of_flag. intros Hu.
  case_decide as H; split_and!; intros; lia.
Qed.

(** ** The start protocol *)

Section StartTheorems.
Context (line : out).

Ltac step_inv := match goal with H : thread_step _ _ _ |- _ => inversion H; subst; clear H end.
Ltac singleton_inv :=
  repeat match goal with
         | H : _ ∈ [_] |- _ => apply list_elem_of_singleton in H; simplify_eq
         | H : _ ∈ [] |- _ => by apply elem_of_nil in H
         end.

Lemma thread_next_step t t' : t' ∈ thread_next line t -> thread_step line t t'.
Proof.
  destruct t as [m g st o]. unfold thread_next; simpl. rewrite !elem_of_app.
  intros [(gs & -> & Hg)%list_elem_of_fmap|[Hs|Hr]].
  - destruct gs as [g' st']. by constructor.
  - destruct m, st; singleton_inv. constructor.
  - destruct m, g; singleton_inv. constructor.
Qed.

Lemma run_threads_rtc n t : rtc (thread_step line) t (run_threads line n t).
Proof.
  revert t. induction n as [|n IH]; intros t; simpl; [done|].
  destruct (thread_next line t) as [|t' ts] eqn:E; [done|].
  eapply rtc_l; [apply thread_next_step; rewrite E; left|apply IH].
Qed.

(** A set of states closed under the moves holds every state reached
    from one of its members. *)
Lemma reach_closed (L : list Threads) :
  (forall t t', t ∈ L -> thread_step line t t' -> t' ∈ L) ->
  forall t t', t ∈ L -> rtc (thread_step line) t t' -> t' ∈ L.
Proof. intros Hc t t' Hin Hr. induction Hr; eauto. Qed.

Ltac closed_by_cases :=
  intros x y Hin Hs;
  repeat (apply elem_of_cons in Hin as [->|Hin]; [step_inv; simpl in *; singleton_inv; set_solver|]);
  by apply elem_of_nil in Hin.

(** After a failed listen, [started] is never closed: the main
    goroutine stays at [<-started], the relay's goroutine ends blocked
    on its send on [exited]. *)
Definition failed_states (e : error) : list Threads :=
  [init_threads (ListenFailed e); mkThreads MainRecvStarted (GoSendExited (Err e)) false []].

Lemma listen_failed_reach e t :
  rtc (thread_step line) (init_threads (ListenFailed e)) t -> t ∈ failed_states e.
Proof. apply reach_closed; [unfold failed_states; closed_by_cases | by left]. Qed.

(** After a successful listen the run goes through these states. *)
Definition listened_states (r : result unit) : list Threads :=
  [init_threads (Listened r); mkThreads MainRecvStarted (GoServing r) true [];
   mkThreads MainRecvStarted (GoSendExited r) true [];
   mkThreads MainRecvExited (GoServing r) true [line];
   mkThreads MainRecvExited (GoSendExited r) true [line];
   mkThreads (MainReturned r) GoDone true [line]].

Lemma listened_reach r t :
  rtc (thread_step line) (init_threads (Listened r)) t -> t ∈ listened_states r.
Proof. apply reach_closed; [unfold listened_states; closed_by_cases | by left]. Qed.

(** Every move of the start protocol lowers this measure. *)
Definition thread_measure (t : Threads) : nat :=
  (match th_main t with MainRecvStarted => 2 | MainRecvExited => 1 | MainReturned _ => 0 end +
   match th_go t with GoStart _ => 3 | GoServing _ => 2 | GoSendExited _ | GoDone => 1 end)%nat.

Lemma thread_step_measure t t' : thread_step line t t' -> (thread_measure t' < thread_measure t)%nat.
Proof.
  destruct 1 as [m g st o g' st' Hg| |]; unfold thread_measure; simpl; [|lia..].
  destruct g as [[]| | |]; simpl in Hg; singleton_inv; simpl; lia.
Qed.

Lemma nsteps_thread_measure n t t' :
  nsteps (thread_step line) n t t' -> (n + thread_measure t' <= thread_measure t)%nat.
Proof.
  induction 1 as [|n x y z Hxy _ IH]; [lia|]. pose proof (thread_step_measure _ _ Hxy). lia.
Qed.
End StartTheorems.

(** C32: when the listener cannot be opened (the port is taken, the
    host does not resolve), [nak serve] neither reports the error nor
    exits: [rl.Start] returns before closing [started], so in every
    interleaving of the two goroutines the main one stays blocked on
    [<-started] with nothing logged, and a state is reached where
    neither can move (the relay's goroutine blocked on [exited <- err]). *)
Theorem serve_listen_failure_blocks {Store} `{EventStore Store} unmarshal show_error init
    open_store fl open_file piped stdin version red bold b e :
  open_backend init show_error (sf_dburl fl) (sf_etcdurl fl) = Ok b ->
  is_ok (load_events unmarshal show_error (sf_events fl) open_file piped stdin (open_store b)) = true ->
  serve_cmd unmarshal show_error init open_store fl open_file piped stdin version red bold
    (ListenFailed e) = (Blocks, []) /\
  (forall line t, rtc (thread_step line) (init_threads (ListenFailed e)) t ->
     th_main t = MainRecvStarted /\ th_out t = []) /\
  (forall line, exists t, rtc (thread_step line) (init_threads (ListenFailed e)) t /\
     forall t', ~ thread_step line t t').
Proof.
  intros Hb Hl. split_and!.
  - unfold serve_cmd, serve_with_store, serve_relay. rewrite Hb.
    by destruct (load_events _ _ _ _ _ _ _).
  - intros line t Hin%listen_failed_reach. unfold failed_states in Hin.
    by repeat (apply elem_of_cons in Hin as [->|Hin]; [done|]); apply elem_of_nil in Hin.
  - intros line. eexists. split; [apply rtc_once; constructor; by left|].
    intros t' Hs. inversion Hs as [? ? ? ? ? ? Hg| |]; subst. by apply elem_of_nil in Hg.
Qed.

(** C33: when the listener opens, every interleaving of the two
    goroutines ends, after at most four moves, with the action
    returning what [rl.Start] returned and the address logged exactly
    once; the scheduler's run is one of them. *)
Theorem serve_listened_exits {Store} `{EventStore Store} unmarshal show_error init
    open_store fl open_file piped stdin version red bold b r :
  open_backend init show_error (sf_dburl fl) (sf_etcdurl fl) = Ok b ->
  is_ok (load_events unmarshal show_error (sf_events fl) open_file piped stdin (open_store b)) = true ->
  serve_cmd unmarshal show_error init open_store fl open_file piped stdin version red bold
    (Listened r) = (Exits r, [running_line red bold (sf_hostname fl) (port_of_flag (sf_port fl))]) /\
  (forall line t, rtc (thread_step line) (init_threads (Listened r)) t ->
     (forall t', ~ thread_step line t t') -> th_main t = MainReturned r /\ th_out t = [line]) /\
  (forall line n t, nsteps (thread_step line) n (init_threads (Listened r)) t -> (n <= 4)%nat).
Proof.
  intros Hb Hl. split_and!.
  - unfold serve_cmd, serve_with_store, serve_relay. rewrite Hb.
    by destruct (load_events _ _ _ _ _ _ _).
  - intros line t Hr Hstuck. pose proof (listened_reach line r t Hr) as Hin. unfold listened_states in Hin.
    repeat (apply elem_of_cons in Hin as [->|Hin]; [try done; exfalso; eapply Hstuck, thread_next_step; simpl; by left|]).
    by apply elem_of_nil in Hin.
  - intros line n t Hn. pose proof (nsteps_thread_measure line _ _ _ Hn).
    unfold thread_measure in *. simpl in *. destruct (th_main t), (th_go t); lia.
Qed.

(** C31: [printStatus] reports every stored event: the store [nak serve]
    opens without a database is cut at [math.MaxInt] (line 58), which no
    slice of events reaches. *)
Theorem total_events_counts_all init show_error db_url etcd_url m evs :
  open_backend init show_error db_url etcd_url = Ok (SliceBackend m) ->
  N.of_nat (length evs) <= max_int ->
  total_events (mkSliceStore m evs) = length evs.
Proof.
  unfold open_backend, choose_backend. intros Hb Hl.
  case_decide; [injection Hb as <-|by destruct (init _)].
  unfold total_events. simpl. unfold slice_query. simpl.
  by rewrite filter_empty_filter, take_n_all.
Qed.

(** ** The debounced status line *)

Section StatusTheorems.
Context {Store : Type} `{EventStore Store}.
Context (yellow cyan blue italic magenta : string -> string)
        (show_filter : Filter -> string) (show_event : NEvent -> string) (subs_at : N -> nat).

Abbreviation serve := (serve_requests yellow cyan blue italic magenta show_filter show_event subs_at).
Abbreviation line := (request_line yellow cyan blue italic show_filter show_event).

(** The status line logged [status_delay] after time [t]. *)
Abbreviation status_at t rl :=
  ((t + status_delay)%N, print_status magenta (subs_at (t + status_delay)%N) (rl_db rl)).

(** One request served: its line, the status if the debouncer runs,
    then the rest. *)
Lemma serve_cons rl t rq rqs :
  serve rl ((t, rq) :: rqs) =
  let rl1 := match rq with
             | ReqEvent e => (relay_handle_event blue italic show_event rl e).2
             | _ => rl
             end in
  ((t, line rq) :: (if debounce_runs status_delay t (fst <$> head rqs) then [status_at t rl1] else [])
     ++ (serve rl1 rqs).1, (serve rl1 rqs).2).
Proof. reflexivity. Qed.

Lemma default_last_cons {A} (d x : A) l : default d (last (x :: l)) = default x (last l).
Proof.
  destruct l as [|y l]; [done|]. cbn [last]. simpl.
  destruct (last (y :: l)) eqn:E; [done|]. by apply last_None in E.
Qed.

(** C35: a burst of requests, each less than two seconds after the
    previous one, logs the hook line of every request and then exactly
    one status line, two seconds after the last request, which counts
    the store as the whole burst left it. *)
Theorem serve_requests_burst rl t0 rq0 rqs :
  Sorted (fun a b => b.1 < a.1 + status_delay) ((t0, rq0) :: rqs) ->
  (serve rl ((t0, rq0) :: rqs)).1 =
    ((fun p => (p.1, line p.2)) <$> ((t0, rq0) :: rqs)) ++
    [status_at (default t0 (last (fst <$> rqs))) (serve rl ((t0, rq0) :: rqs)).2].
Proof.
  revert rl t0 rq0. induction rqs as [|[t1 rq1] rqs IH]; intros rl t0 rq0 Hs; [done|].
  apply Sorted_inv in Hs as [Hs Hd]. apply HdRel_inv in Hd. simpl in Hd.
  rewrite serve_cons. cbv zeta.
  assert (debounce_runs status_delay t0 (fst <$> head ((t1, rq1) :: rqs)) = false) as ->
    by (simpl; apply bool_decide_false; simpl; lia).
  rewrite IH by (exact Hs). cbn [fst snd app]. rewrite !fmap_cons, default_last_cons. done.
Qed.

(** C36: whatever the requests, the last thing the relay logs is a
    status line two seconds after the last request, counting the store
    as all the requests left it: the debouncer never drops the final
    status. *)
Theorem serve_requests_final_status rl rqs t rq :
  exists o, (serve rl (rqs ++ [(t, rq)])).1 =
    o ++ [((t + status_delay)%N, print_status magenta (subs_at (t + status_delay)%N)
                                   (rl_db (serve rl (rqs ++ [(t, rq)])).2))].
Proof.
  revert rl. induction rqs as [|[t' rq'] rqs IH]; intros rl; [by eexists [_]|].
  rewrite <-app_comm_cons, serve_cons. cbv zeta.
  destruct (IH (match rq' with
    | ReqEvent e => (relay_handle_event blue italic show_event rl e).2 | _ => rl end)) as [o ->].
  eexists. by rewrite app_comm_cons, app_assoc.
Qed.
End StatusTheorems.

(** ** Witnesses on a file of JSON lines *)

(** A parser that rejects the line ["garbage"] and reads any other line
    as the event whose id is the line. *)
Definition test_unmarshal (l : string) : result NEvent :=
  if decide (l = "garbage") then Err (Errorf "invalid character 'g'")
  else Ok (mkNEvent l "pk" 1 0 "").

Definition show_test_error (e : error) : string :=
  match e with Errorf m => m | _ => "" end.

Definition test_db : SliceStore := mkSliceStore max_int [].

Lemma load_lines_first_error_witness :
  load_lines test_unmarshal show_test_error max_token_size 0 (["e1"; "e2"] ++ "garbage" :: ["e3"]) test_db
  = Err (Errorf ("invalid event received at line " +:+ fmt_d (N.of_nat (length ["e1"; "e2"]))
                 +:+ ": " +:+ show_test_error (Errorf "invalid character 'g'")
                 +:+ " (`" +:+ "garbage" +:+ "`)")).
Proof.
  apply (load_lines_first_error _ _ _ _ _ _ _ (Errorf "invalid character 'g'"));
    [decide_closed | decide_closed | reflexivity].
Defined.

(** A line of exactly the maximum size already stops the load. *)
Lemma load_lines_long_line_stops_witness :
  load_lines test_unmarshal show_test_error 4 0 (["e1"] ++ "e2ab" :: ["garbage"]) test_db
  = load_lines test_unmarshal show_test_error 4 0 ["e1"] test_db /\
  is_ok (load_lines test_unmarshal show_test_error 4 0 ["e1"] test_db) = true.
Proof. apply load_lines_long_line_stops; decide_closed. Defined.

Lemma load_lines_slice_stores_witness :
  "e2" ∈ ne_id <$> ss_events (mkSliceStore max_int [mkNEvent "e1" "pk" 1 0 ""; mkNEvent "e2" "pk" 1 0 ""]).
Proof.
  apply (load_lines_slice_stores test_unmarshal show_test_error max_token_size 0 ["e1"; "e2"; "e1"] test_db
           _ "e2" (mkNEvent "e2" "pk" 1 0 ""));
    [vm_compute; reflexivity | decide_closed | reflexivity |].
  intros l' Hl'. repeat (apply elem_of_cons in Hl' as [->|Hl']; [vm_compute; reflexivity|]).
  by apply elem_of_nil in Hl'.
Defined.

Lemma total_events_counts_all_witness :
  total_events (mkSliceStore max_int [mkNEvent "e1" "pk" 1 0 ""; mkNEvent "e2" "pk" 1 0 ""]) = 2%nat.
Proof.
  apply (total_events_counts_all (fun _ => Ok tt) show_test_error "" "");
    [vm_compute; reflexivity | vm_compute; discriminate].
Defined.

Abbreviation test_serve start :=
  (serve_cmd test_unmarshal show_test_error (fun _ => Ok tt) (fun b => test_db) serve_defaults
     (fun _ => Ok []) false [] "v" id id start).

Lemma serve_listen_failure_blocks_witness :
  test_serve (ListenFailed (Errorf "address already in use")) = (Blocks, []) /\
  (forall line t, rtc (thread_step line) (init_threads (ListenFailed (Errorf "address already in use"))) t ->
     th_main t = MainRecvStarted /\ th_out t = []) /\
  (forall line, exists t, rtc (thread_step line) (init_threads (ListenFailed (Errorf "address already in use"))) t /\
     forall t', ~ thread_step line t t').
Proof.
  apply (serve_listen_failure_blocks test_unmarshal show_test_error _ _ _ _ _ _ _ _ _
           (SliceBackend max_int)); reflexivity.
Defined.

Lemma serve_listened_exits_witness :
  test_serve (Listened (Ok tt))
  = (Exits (Ok tt), [running_line id id (sf_hostname serve_defaults) (port_of_flag (sf_port serve_defaults))]) /\
  (forall line t, rtc (thread_step line) (init_threads (Listened (Ok tt))) t ->
     (forall t', ~ thread_step line t t') -> th_main t = MainReturned (Ok tt) /\ th_out t = [line]) /\
  (forall line n t, nsteps (thread_step line) n (init_threads (Listened (Ok tt))) t -> (n <= 4)%nat).
Proof.
  apply (serve_listened_exits test_unmarshal show_test_error _ _ _ _ _ _ _ _ _
           (SliceBackend max_int)); reflexivity.
Defined.

Lemma port_of_flag_bounds_witness :
  (18446744073709551615 < 2 ^ 63 -> port_of_flag 18446744073709551615 = Z.of_N 18446744073709551615) /\
  (2 ^ 63 <= 18446744073709551615 -> (port_of_flag 18446744073709551615 < 0)%Z) /\
  (- 2 ^ 63 <= port_of_flag 18446744073709551615 < 2 ^ 63)%Z.
Proof. apply port_of_flag_bounds. unfold is_u64, u64_modulus. lia. Defined.

(** Three requests within two seconds: an event, a subscription, an
    event. *)
Definition burst : list (N * Request) :=
  [(0, ReqEvent (mkNEvent "e1" "pk" 1 0 "")); (500, ReqFilter empty_filter);
   (1200, ReqEvent (mkNEvent "e2" "pk" 1 0 ""))].

Definition serve_burst := serve_requests (Store:=SliceStore) id id id id id (fun _ => "filter")
  ne_id (fun _ => 1%nat) (new_relay "v" test_db) burst.

Lemma serve_requests_burst_witness :
  serve_burst.1 =
    ((fun p => (p.1, request_line id id id id (fun _ => "filter") ne_id p.2)) <$> burst) ++
    [((1200 + status_delay)%N, print_status id 1%nat (rl_db serve_burst.2))].
Proof.
  apply (serve_requests_burst id id id id id (fun _ => "filter") ne_id (fun _ => 1%nat)
           (new_relay "v" test_db) 0 (ReqEvent (mkNEvent "e1" "pk" 1 0 ""))).
  repeat constructor; simpl; unfold status_delay; lia.
Defined.

End Serve.
